(** * Temporal alignment of a query clip against a reference video

    A shallow embedding of the notebook [Task1.ipynb]: the frame sampler
    ([extract_frames]), the descriptor extractor ([load_frame_descriptors],
    with the PCA reducer it fits), the correlation engine
    ([compute_cte_correlation]) and the per-pair body of the main loop.

    Conventions.
    - Python exceptions are values of [PyError]; a call that may raise
      returns a [PyResult].
    - Python floats that only carry frame rates and time stamps are exact
      rationals ([Q]); floats that go through square roots and Fourier
      transforms are real numbers ([R]).  Rounding error, NaN and infinities
      are outside the model.  Where a float is truncated to an integer (the
      sizes a frame is resized to) the rounding decides the result, and the
      computation is left to the platform: the field [float_scaled].
    - OpenCV, SIFT and the SVD inside scikit-learn's PCA are external: they
      are the fields of the class [External]. *)

From Stdlib Require Import ZArith QArith Qround Reals Lra Lia List Sorted Ascii String.
From Stdlib Require Lqa.
From stdpp Require Import base option list sorting gmap strings pretty.

(* ===================================================================== *)
(** * Part I: the embedding                                               *)
(* ===================================================================== *)

(** ** Python results *)

Inductive PyError : Set :=
| IOError
| ValueError
| OverflowError
| IndexError
| ZeroDivisionError
| TypeError
| CvError.

Inductive PyResult (A : Type) : Type :=
| Ok (a : A)
| Raise (e : PyError).

Arguments Ok {A} a.
Arguments Raise {A} e.

Definition py_bind {A B : Type} (r : PyResult A) (k : A → PyResult B) : PyResult B :=
  match r with
  | Ok a => k a
  | Raise e => Raise e
  end.

#[global] Instance PyResult_ret : MRet PyResult := λ A a, Ok a.
#[global] Instance PyResult_bind : MBind PyResult := λ A B k r, py_bind r k.

(** ** External capabilities *)

Class External : Type := {
  (** a decoded frame or a stored image *)
  Image : Type;
  (** [frame.shape[:2]], as (h, w) *)
  image_shape : Image → nat * nat;
  (** [int(x * (max_pixels / float(area)) ** 0.5)], as the platform's
      floating-point arithmetic computes it, for [0 <= max_pixels < area] *)
  float_scaled : Z → Z → Z → Z;
  (** [cv.resize(frame, (w', h'), interpolation=cv.INTER_AREA)], for a width
      and a height above 0 *)
  cv_resize : Image → Z → Z → Image;
  (** [cv.imread(fp, cv.IMREAD_GRAYSCALE)] of an image written by [cv.imwrite] *)
  imread_grayscale : Image → Image;
  (** [sift.detectAndCompute(img, None)[1]]: [None] when no keypoint is found,
      else one raw descriptor per keypoint *)
  sift_detectAndCompute : Image → option (list (list R));
  (** Farneback flow between two frames, in polar form, accumulated by
      [np.histogram(ang, bins=np.linspace(0, 360, num_bins+1), weights=mag)] *)
  flow_histogram : Image → Image → nat → list R;
  (** the SVD inside [PCA.fit]: principal axes and explained variances of the
      centred pool, for a number of components.  Where scikit-learn picks its
      randomized solver (no [random_state] is set) this is the solver under
      one random state: the embedding takes one run's fits as a function of
      their pools, and compares no two fits of the same pool. *)
  svd_solver : nat → list (list R) → list (list R) * list R
}.

(** ** Frame sampler *)

Module Sampler.
Section SamplerDefs.
Context {E : External}.

(** What [cv.VideoCapture] finds behind a path it can open. *)
Record Video : Type := {
  cap_fps : Q;
  cap_frames : list Image
}.

(** The content of [frame_mapping.json]. *)
Record FrameMapping : Type := {
  orig_fps : Q;
  frame_step : Z;
  orig_indices : list Z
}.

(** The files the sampler reads and writes.  [mapping_files] is keyed by the
    output folder, [frame_files] by the folder and the index [saved] of
    [frame_{saved:04d}.jpg].  [cap_reads] counts the calls of [cap.read()]. *)
Record World : Type := {
  video_files : gmap string Video;
  mapping_files : gmap string FrameMapping;
  frame_files : gmap (string * nat) Image;
  cap_reads : nat
}.

Definition count_read (w : World) : World :=
  {| video_files := video_files w;
     mapping_files := mapping_files w;
     frame_files := frame_files w;
     cap_reads := S (cap_reads w) |}.

Definition imwrite (folder : string) (saved : nat) (frame : Image) (w : World) : World :=
  {| video_files := video_files w;
     mapping_files := mapping_files w;
     frame_files := <[(folder, saved) := frame]> (frame_files w);
     cap_reads := cap_reads w |}.

Definition json_dump (folder : string) (m : FrameMapping) (w : World) : World :=
  {| video_files := video_files w;
     mapping_files := <[folder := m]> (mapping_files w);
     frame_files := frame_files w;
     cap_reads := cap_reads w |}.

(** Python's [round] on a float: to the nearest integer, ties to even. *)
Definition py_round (q : Q) : Z :=
  let f := Qfloor q in
  match Qcompare (q - inject_Z f) (1 # 2) with
  | Lt => f
  | Gt => (f + 1)%Z
  | Eq => if Z.even f then f else (f + 1)%Z
  end.

(** Lines 91-98.  [scale = (max_pixels / float(w*h)) ** 0.5]: the division
    raises on a frame without pixels; a negative quotient has a complex root,
    which [scale < 1.0] refuses with a [TypeError]; the root is below 1
    exactly when [max_pixels < w*h] (in floating point too, for frames of
    fewer than [2^50] pixels).  [cv.resize] raises on a width or a height
    of 0. *)
Definition resize_to (max_pixels : Z) (frame : Image) : PyResult Image :=
  let '(h, w) := image_shape frame in
  let area := (Z.of_nat w * Z.of_nat h)%Z in
  if (area =? 0)%Z then Raise ZeroDivisionError
  else if (max_pixels <? 0)%Z then Raise TypeError
  else if (max_pixels <? area)%Z
  then
    let w' := float_scaled max_pixels area (Z.of_nat w) in
    let h' := float_scaled max_pixels area (Z.of_nat h) in
    if (w' <=? 0)%Z || (h' <=? 0)%Z then Raise CvError
    else Ok (cv_resize frame w' h')
  else Ok frame.

(** [f"{saved:04d}"] *)
Definition pad4 (saved : nat) : string :=
  if saved <? 10 then "000" +:+ pretty saved
  else if saved <? 100 then "00" +:+ pretty saved
  else if saved <? 1000 then "0" +:+ pretty saved
  else pretty saved.

(** [f"frame_{saved:04d}.jpg"] *)
Definition frame_name (saved : nat) : string := "frame_" +:+ pad4 saved +:+ ".jpg".

(** The [while True] loop of lines 85-104 over the frames [cap.read()] still
    has to deliver; the last read returns [ret = False].  An exception leaves
    the loop with the frames written so far on the disk. *)
Fixpoint read_frames (output_folder : string) (step max_pixels : Z)
    (frames : list Image) (count : Z) (saved : nat) (indices : list Z)
    (w : World) : PyResult (list Z * nat) * World :=
  match frames with
  | [] => (Ok (indices, saved), count_read w)
  | frame :: rest =>
      let w := count_read w in
      if (count mod step =? 0)%Z
      then
        match resize_to max_pixels frame with
        | Raise e => (Raise e, w)
        | Ok resized =>
            let w := imwrite output_folder saved resized w in
            read_frames output_folder step max_pixels rest (count + 1)%Z (S saved)
              (indices ++ [count]) w
        end
      else
        read_frames output_folder step max_pixels rest (count + 1)%Z saved indices w
  end.

(** [frame_step = max(int(round(orig_fps / target_fps)), 1)] *)
Definition sampling_step (fps : Q) (target_fps : Z) : PyResult Z :=
  if (target_fps =? 0)%Z then Raise ZeroDivisionError
  else Ok (Z.max (py_round (fps / inject_Z target_fps)) 1).

(** [extract_frames(video_path, output_folder, target_fps, max_pixels)].
    [os.makedirs(..., exist_ok=True)] is taken to succeed. *)
Definition extract_frames (video_path output_folder : string)
    (target_fps max_pixels : Z) (w : World) : PyResult (Q * Z * list Z) * World :=
  match mapping_files w !! output_folder with
  | Some data => (Ok (orig_fps data, frame_step data, orig_indices data), w)
  | None =>
      match video_files w !! video_path with
      | None => (Raise IOError, w)
      | Some cap =>
          let fps := if Qeq_bool (cap_fps cap) 0 then inject_Z target_fps else cap_fps cap in
          match sampling_step fps target_fps with
          | Raise e => (Raise e, w)
          | Ok step =>
              match read_frames output_folder step max_pixels (cap_frames cap) 0 0 [] w with
              | (Raise e, w) => (Raise e, w)
              | (Ok (indices, saved), w) =>
                  let w := json_dump output_folder
                             {| orig_fps := fps; frame_step := step;
                                orig_indices := indices |} w in
                  (Ok (fps, step, indices), w)
              end
          end
      end
  end.

End SamplerDefs.
End Sampler.

(** ** Arrays of reals *)

(** A two-dimensional [ndarray]: [shape = (length rows, ncols)].  The width is
    kept apart from the rows, as an array with no row still has one. *)
Record ndarray : Type := {
  ncols : nat;
  rows : list (list R)
}.

Definition nrows (a : ndarray) : nat := length (rows a).

(** Every row has the width of the array. *)
Definition rectangular (a : ndarray) : Prop :=
  Forall (λ r, length r = ncols a) (rows a).

Definition Rsum (l : list R) : R := fold_right Rplus 0%R l.

(** [sum(f(i) for i in range(n))] *)
Definition sum_n (n : nat) (f : nat → R) : R := Rsum (map f (seq 0 n)).

Definition entry (M : list (list R)) (t d : nat) : R := nth d (nth t M []) 0%R.

Definition n_features (X : list (list R)) : nat := length (hd [] X).

(** [np.mean(X, axis=0)] *)
Definition mean_axis0 (X : list (list R)) : list R :=
  map (λ j, (Rsum (map (λ r, nth j r 0%R) X) / INR (length X))%R) (seq 0 (n_features X)).

(** [np.linalg.norm(v)] *)
Definition norm (v : list R) : R := sqrt (Rsum (map (λ x, (x * x)%R) v)).

(** [np.vstack] of a list of two-dimensional arrays of one width. *)
Definition vstack (arrays : list (list (list R))) : PyResult (list (list R)) :=
  match arrays with
  | [] => Raise ValueError
  | _ => Ok (concat arrays)
  end.

(** [np.vstack] of a list of vectors: one row each. *)
Definition vstack_rows (vs : list (list R)) : PyResult ndarray :=
  match vs with
  | [] => Raise ValueError
  | v :: _ =>
      if forallb (λ u, length u =? length v) vs
      then Ok {| ncols := length v; rows := vs |}
      else Raise ValueError
  end.

(** ** Dimensionality reducer and descriptor extractor *)

Module Extractor.
Section ExtractorDefs.
Context {E : External}.

(** A fitted [sklearn.decomposition.PCA(whiten=True)]. *)
Record PCA : Type := {
  n_components_ : nat;
  mean_ : list R;
  components_ : list (list R);
  explained_variance_ : list R
}.

(** [PCA(n_components=k, whiten=True, svd_solver='auto').fit(X)].  scikit-learn
    refuses an array with no sample or no feature, and a number of components
    above [min(n_samples, n_features)], with a [ValueError]. *)
Definition PCA_fit (k : nat) (X : list (list R)) : PyResult PCA :=
  if (0 <? length X) && (0 <? n_features X) && (k <=? min (length X) (n_features X))
  then
    let mu := mean_axis0 X in
    let '(axes, variances) := svd_solver k (map (λ x, zip_with Rminus x mu) X) in
    Ok {| n_components_ := k; mean_ := mu;
          components_ := axes; explained_variance_ := variances |}
  else Raise ValueError.

(** [pca_model.transform(X)]: centre, project on each axis, whiten. *)
Definition PCA_transform (m : PCA) (X : list (list R)) : list (list R) :=
  map (λ x,
         zip_with (λ axis variance,
                     (Rsum (zip_with Rmult (zip_with Rminus x (mean_ m)) axis)
                      / sqrt variance)%R)
           (components_ m) (explained_variance_ m))
      X.

(** [compute_hof_for_frame(prev_gray, gray, num_bins)] *)
Definition compute_hof_for_frame (prev_gray gray : Image) (num_bins : nat) : list R :=
  let hof := flow_histogram prev_gray gray num_bins in
  if Rlt_dec 0 (Rsum hof) then map (λ x, (x / Rsum hof)%R) hof else hof.

(** Lines 209-211: the pool is stacked, then the reducer is fitted on it. *)
Definition fit_pool (pca_dim : nat) (key_descs : list (list (list R))) : PyResult PCA :=
  stacked ← vstack key_descs;
  PCA_fit pca_dim stacked.

(** Lines 222-226 *)
Definition sift_vec (pca_model : option PCA) (pca_dim : nat) (img : Image) : list R :=
  match sift_detectAndCompute img, pca_model with
  | Some des, Some m => mean_axis0 (PCA_transform m des)
  | _, _ => replicate pca_dim 0%R
  end.

(** Lines 227-230 *)
Definition hof_vec (hof_bins : nat) (prev_gray : option Image) (img : Image) : list R :=
  match prev_gray with
  | Some prev => compute_hof_for_frame prev img hof_bins
  | None => replicate hof_bins 0%R
  end.

(** Lines 235-237 *)
Definition normalize (frame_vec : list R) : list R :=
  if Rlt_dec 1e-6 (norm frame_vec)
  then map (λ x, (x / norm frame_vec)%R) frame_vec
  else frame_vec.

(** Lines 232-233: [np.hstack([sift_vec, hof_vec])], before normalization. *)
Definition raw_frame_vec (pca_model : option PCA) (pca_dim hof_bins : nat)
    (prev_gray : option Image) (img : Image) : list R :=
  sift_vec pca_model pca_dim img ++ hof_vec hof_bins prev_gray img.

(** The second pass, lines 219-238. *)
Fixpoint frame_vectors (pca_model : option PCA) (pca_dim hof_bins : nat)
    (prev_gray : option Image) (imgs : list Image) : list (list R) :=
  match imgs with
  | [] => []
  | img :: rest =>
      normalize (raw_frame_vec pca_model pca_dim hof_bins prev_gray img)
      :: frame_vectors pca_model pca_dim hof_bins (Some img) rest
  end.

(** The model the second pass works with: fitted in the first pass (lines
    202-211) when [fit_pca] holds, else the one passed in. *)
Definition first_pass (imgs : list Image) (pca_model : option PCA)
    (pca_dim : nat) (fit_pca : bool) : PyResult (option PCA) :=
  if fit_pca
  then m ← fit_pool pca_dim (omap sift_detectAndCompute imgs); mret (Some m)
  else mret pca_model.

(** [load_frame_descriptors(frame_folder, sift, pca_model, pca_dim, fit_pca, hof_bins)],
    on the grayscale images read from the sorted frame paths of the folder. *)
Definition load_frame_descriptors (imgs : list Image) (pca_model : option PCA)
    (pca_dim : nat) (fit_pca : bool) (hof_bins : nat) : PyResult (ndarray * option PCA) :=
  pca_model ← first_pass imgs pca_model pca_dim fit_pca;
  all_descs ← vstack_rows (frame_vectors pca_model pca_dim hof_bins None imgs);
  mret (all_descs, pca_model).

End ExtractorDefs.
End Extractor.

(** ** Correlation engine *)

Module Correlation.

(** Complex numbers, as (real part, imaginary part). *)
Definition C : Type := (R * R)%type.

Definition Cconj (z : C) : C := (fst z, (- snd z)%R).

Definition Cmul (a b : C) : C :=
  ((fst a * fst b - snd a * snd b)%R, (fst a * snd b + snd a * fst b)%R).

(** [np.abs(z)**2] *)
Definition Cabs2 (z : C) : R := (fst z * fst z + snd z * snd z)%R.

(** [z / x] for a real [x] *)
Definition Cdiv_real (z : C) (x : R) : C := ((fst z / x)%R, (snd z / x)%R).

(** [N = 1 << int(np.ceil(np.log2(max(Tq, Tr))))].  [np.log2(0)] is [-inf],
    which [int] refuses; the logarithm is taken exactly. *)
Definition transform_length (Tq Tr : nat) : PyResult nat :=
  let m := Nat.max Tq Tr in
  if m =? 0 then Raise OverflowError else Ok (Nat.shiftl 1 (Nat.log2_up m)).

(** [Z[:T] = src] for [Z] of shape [(N, D)] and [src] of shape [(T, D')]:
    NumPy copies when [D' = D], repeats the single column when [D' = 1], and
    raises otherwise. *)
Definition broadcast_rows (D : nat) (src : ndarray) : PyResult (list (list R)) :=
  if ncols src =? D then Ok (rows src)
  else if ncols src =? 1 then Ok (map (λ r, replicate D (nth 0 r 0%R)) (rows src))
  else Raise ValueError.

(** [Z = np.zeros((N, D)); Z[:T] = src] *)
Definition zero_pad (N D : nat) (src : ndarray) : PyResult (list (list R)) :=
  top ← broadcast_rows D src;
  mret (top ++ replicate (N - length top) (replicate D 0%R)).

Definition angle (N k t : nat) : R := (2 * PI * INR k * INR t / INR N)%R.

(** [np.fft.rfft(M, n=N, axis=0)[k, d]], for [k] in [0 .. N//2] *)
Definition rfft (N : nat) (M : list (list R)) (k d : nat) : C :=
  (sum_n N (λ t, (entry M t d * cos (angle N k t))%R),
   (- sum_n N (λ t, (entry M t d * sin (angle N k t))%R))%R).

(** [np.sum(np.conj(Qf) * Rf, axis=1)[k]] *)
Definition num (N D : nat) (Qp Rp : list (list R)) (k : nat) : C :=
  (sum_n D (λ d, fst (Cmul (Cconj (rfft N Qp k d)) (rfft N Rp k d))),
   sum_n D (λ d, snd (Cmul (Cconj (rfft N Qp k d)) (rfft N Rp k d)))).

(** [np.sum(np.abs(Qf)**2, axis=1)[k]] *)
Definition den (N D : nat) (Qp : list (list R)) (k : nat) : R :=
  sum_n D (λ d, Cabs2 (rfft N Qp k d)).

(** [np.fft.irfft(X, n=N)[t]] for a spectrum of [N//2 + 1] bins: the imaginary
    parts of the first bin and, for even [N], of the last one play no role. *)
Definition irfft (N : nat) (X : nat → C) (t : nat) : R :=
  ((fst (X 0%nat)
    + Rsum (map (λ k, 2 * (fst (X k) * cos (angle N k t) - snd (X k) * sin (angle N k t)))
              (seq 1 ((N - 1) / 2)%nat))
    + (if Nat.even N
       then fst (X (N / 2)%nat) * cos (angle N (N / 2)%nat t)
       else 0))
   / INR N)%R.

(** Lines 267-271 on the padded arrays. *)
Definition scores_of (N D : nat) (Qp Rp : list (list R)) (lambda_val : R) : list R :=
  map (irfft N (λ k, Cdiv_real (num N D Qp Rp k) (den N D Qp k + lambda_val)%R))
      (seq 0 N).

(** [compute_cte_correlation(query_desc, ref_desc, lambda_val)] *)
Definition compute_cte_correlation (query_desc ref_desc : ndarray) (lambda_val : R)
    : PyResult (list R) :=
  let Tq := nrows query_desc in
  let D := ncols query_desc in
  let Tr := nrows ref_desc in
  N ← transform_length Tq Tr;
  Qp ← zero_pad N D query_desc;
  Rp ← zero_pad N D ref_desc;
  mret (scores_of N D Qp Rp lambda_val).

End Correlation.

(** ** Alignment orchestrator *)

Module Orchestrator.
Import Sampler Extractor Correlation.

(** *** File names *)

(** [os.path.basename], for [/] as the separator *)
Fixpoint basename (s : string) : string :=
  match s with
  | EmptyString => EmptyString
  | String c rest =>
      match String.index 0 "/" rest with
      | Some _ => basename rest
      | None => if Ascii.eqb c "/"%char then rest else s
      end
  end.

Definition is_digit (c : Ascii.ascii) : bool :=
  let n := Ascii.nat_of_ascii c in (48 <=? n) && (n <=? 57).

(** [re.match(r"(\d+)_", s)], as the number [int(match.group(1))] *)
Fixpoint leading_number (acc : option nat) (s : string) : option nat :=
  match s with
  | EmptyString => None
  | String c rest =>
      if is_digit c
      then leading_number (Some (10 * default 0 acc + (Ascii.nat_of_ascii c - 48))) rest
      else if Ascii.eqb c "_"%char then acc else None
  end.

Definition contains (needle s : string) : bool :=
  bool_decide (is_Some (String.index 0 needle s)).

(** [get_out_folder(file_name)] *)
Definition get_out_folder (file_name : string) : string :=
  let number :=
    match leading_number None file_name with
    | Some n => pretty n
    | None => "unknown"
    end in
  let subfolder :=
    if contains "query" file_name then "query"
    else if contains "reference" file_name then "reference"
    else "other" in
  "frames/" +:+ subfolder +:+ "/vid_" +:+ number.

(** [f"{idx:02d}"] *)
Definition pad2 (idx : nat) : string :=
  if idx <? 10 then "0" +:+ pretty idx else pretty idx.

Section PairSteps.
Context {E : External}.

(** [match_query_to_reference(video_file, pca_model, target_fps, max_pixels)] *)
Definition match_query_to_reference (video_file : string) (pca_model : option PCA)
    (target_fps max_pixels : Z) (w : World)
    : PyResult (string * option PCA * Q * Z * list Z) * World :=
  let out_folder := get_out_folder (basename video_file) in
  let '(r, w) := extract_frames video_file out_folder target_fps max_pixels w in
  ('(fps, step, indices) ← r; mret (out_folder, pca_model, fps, step, indices), w).

(** [sorted] on the paths of one folder: the order of the file names as
    strings.  The four-digit names follow the order of their index up to
    [frame_9999.jpg]; [frame_10000.jpg] comes right after [frame_1000.jpg]. *)
Definition name_le (i j : nat) : Prop := String.le (frame_name i) (frame_name j).

#[global] Instance name_le_dec : RelDecision name_le :=
  λ i j, String.le_dec (frame_name i) (frame_name j).

(** The grayscale images behind [sorted(glob.glob(frame_folder + "/frame_*.jpg"))]. *)
Definition glob_frames (frame_folder : string) (w : World) : list Image :=
  let saved :=
    merge_sort name_le
      (omap (λ k : string * nat, if decide (k.1 = frame_folder) then Some k.2 else None)
            (elements (dom (frame_files w)))) in
  omap (λ i, imread_grayscale <$> frame_files w !! (frame_folder, i)) saved.

(** Line 429: the query's descriptors; the reducer is fitted when there is none yet. *)
Definition query_descriptors (imgs : list Image) (pca_model : option PCA)
    : PyResult (ndarray * option PCA) :=
  load_frame_descriptors imgs pca_model 64 (bool_decide (pca_model = None)) 8.

(** Line 434: the reference's descriptors; what it returns second is dropped. *)
Definition reference_descriptors (imgs : list Image) (pca_model : option PCA)
    : PyResult ndarray :=
  '(r_desc, _) ← load_frame_descriptors imgs pca_model 64 true 8; mret r_desc.

End PairSteps.

(** [np.argmax]: the first index of the largest value. *)
Fixpoint argmax_from (best_i : nat) (best : R) (i : nat) (l : list R) : nat :=
  match l with
  | [] => best_i
  | x :: l' =>
      if Rlt_dec best x then argmax_from i x (S i) l'
      else argmax_from best_i best (S i) l'
  end.

Definition argmax (scores : list R) : PyResult nat :=
  match scores with
  | [] => Raise ValueError
  | x :: l => Ok (argmax_from 0 x 1 l)
  end.

(** [find_best_offset(scores, fps)]; the main loop does not call it.
    [best_frame] is a Python [int], whose division by 0 raises. *)
Definition find_best_offset (scores : list R) (fps : R) : PyResult (nat * R) :=
  best_frame ← argmax scores;
  if Req_dec_T fps 0 then Raise ZeroDivisionError
  else mret (best_frame, (INR best_frame / fps)%R).

(** Lines 441-442: [if delta > N//2: delta -= N] *)
Definition wrap_around (N delta : Z) : Z :=
  if (delta >? N / 2)%Z then (delta - N)%Z else delta.

(** Lines 439-445: the offset the main loop goes on with. *)
Definition best_delta (scores : list R) : PyResult Z :=
  let N := Z.of_nat (length scores) in
  delta ← argmax scores;
  let delta := wrap_around N (Z.of_nat delta) in
  mret (Z.max delta 0).

(** [l[i]] on a Python list *)
Definition getitem (l : list Z) (i : Z) : PyResult Z :=
  let n := Z.of_nat (length l) in
  if (0 <=? i)%Z && (i <? n)%Z then Ok (nth (Z.to_nat i) l 0%Z)
  else if (- n <=? i)%Z && (i <? 0)%Z then Ok (nth (Z.to_nat (n + i)) l 0%Z)
  else Raise IndexError.

(** [orig_frame / r_fps] *)
Definition true_divide (n : Z) (fps : Q) : PyResult Q :=
  if Qeq_bool fps 0 then Raise ZeroDivisionError else Ok (inject_Z n / fps)%Q.

(** Lines 436-447: from the two descriptor arrays to the matched original
    frame of the reference and its time. *)
Definition align (q_desc r_desc : ndarray) (r_map : list Z) (r_fps : Q) : PyResult (Z * Q) :=
  scores ← compute_cte_correlation q_desc r_desc 1e-3;
  delta ← best_delta scores;
  orig_frame ← getitem r_map delta;
  orig_time ← true_divide orig_frame r_fps;
  mret (orig_frame, orig_time).

Section MainLoop.
Context {E : External}.

(** The module-level variables of the last cell. *)
Record MainState : Type := {
  world : World;
  pca_model : option PCA;
  results : list (nat * Z * Q)
}.

(** The body of the loop of lines 419-451, for one [idx]. *)
Definition process_pair (idx : nat) (s : MainState) : PyResult MainState :=
  let q_file := "train/task1/" +:+ pad2 idx +:+ "_query.mp4" in
  let r_file := "train/task1/" +:+ pad2 idx +:+ "_reference.mp4" in
  let '(q, w) := match_query_to_reference q_file (pca_model s) 20 180000 (world s) in
  '(q_folder, pca, q_fps, q_step, q_map) ← q;
  '(q_desc, pca) ← query_descriptors (glob_frames q_folder w) pca;
  let '(r, w) := match_query_to_reference r_file pca 20 180000 w in
  '(r_folder, _, r_fps, r_step, r_map) ← r;
  r_desc ← reference_descriptors (glob_frames r_folder w) pca;
  '(orig_frame, orig_time) ← align q_desc r_desc r_map r_fps;
  mret {| world := w; pca_model := pca;
          results := results s ++ [(idx, orig_frame, orig_time)] |}.

(** [for idx in range(1, videos_idx_limit + 1)] *)
Definition main_loop (videos_idx_limit : nat) (s : MainState) : PyResult MainState :=
  foldl (λ r idx, s ← r; process_pair idx s) (Ok s) (seq 1 videos_idx_limit).

End MainLoop.

End Orchestrator.

(** ** Concrete inputs *)

Module Fixture.
Import Sampler Extractor.

(** A synthetic back end to run the embedding on: an image is a number, of
    480 rows and 640 columns, and sizes are scaled by the ratio of the areas.
    SIFT finds no keypoint in image 0 and, in image [n], 64 keypoints whose
    descriptors are all [(n, ..., n)], of width 128.  The flow between two
    frames falls evenly into the bins.  The solver returns [k] times the first
    coordinate axis, with unit variance. *)
Definition synthetic : External := {|
  Image := nat;
  image_shape := λ _, (480, 640);
  float_scaled := λ max_pixels area x, (x * max_pixels / area)%Z;
  cv_resize := λ img _ _, img;
  imread_grayscale := λ img, img;
  sift_detectAndCompute :=
    λ img, match img with
           | 0 => None
           | S _ => Some (replicate 64 (replicate 128 (INR img)))
           end;
  flow_histogram := λ _ _ num_bins, replicate num_bins 1%R;
  svd_solver :=
    λ k X, (replicate k (1%R :: replicate (n_features X - 1) 0%R), replicate k 1%R)
|}.

(** A clip of seven frames at 30 frames per second, and a disk that holds it
    and nothing else. *)
Definition clip : Video (E := synthetic) :=
  @Build_Video synthetic 30 [1; 2; 3; 4; 5; 6; 7].

Definition disk : World (E := synthetic) :=
  @Build_World synthetic {["clip.mp4" := clip]} ∅ ∅ 0.

(** Descriptors of the width the main loop works with, 64 + 8: a blank one,
    as for a first frame without keypoints, and one of norm 1. *)
Definition blank_descriptor : list R := replicate 72 0%R.
Definition unit_descriptor : list R := 1%R :: replicate 71 0%R.

(** A query of two frames, the first one blank, against a reference of one. *)
Definition two_frames : ndarray :=
  {| ncols := 72; rows := [blank_descriptor; unit_descriptor] |}.
Definition one_frame : ndarray := {| ncols := 72; rows := [unit_descriptor] |}.

(** One frame of width 2, and one of width 1. *)
Definition wide_frame : ndarray := {| ncols := 2; rows := [[1%R; 2%R]] |}.
Definition narrow_frame : ndarray := {| ncols := 1; rows := [[1%R]] |}.

(** A disk with the first pair of the main loop and nothing else: a query of
    two frames and a reference of three, both at 20 frames per second. *)
Definition first_pair : World (E := synthetic) :=
  @Build_World synthetic
    {[ "train/task1/01_query.mp4" := @Build_Video synthetic 20 [1; 2];
       "train/task1/01_reference.mp4" := @Build_Video synthetic 20 [3; 1; 2] ]}
    ∅ ∅ 0.

End Fixture.

(** ** Evaluation *)

Module Evaluation.

(** Line 584: [abs(gt - bf)] for [gt, (_, bf, _)] in [zip(ground_truth, results)] *)
Definition difference (ground_truth : list Z) (results : list (nat * Z * Q)) : list Z :=
  zip_with (λ gt r, Z.abs (gt - r.1.2)) ground_truth results.

(** Line 583: [np.mean] of the booleans [abs(gt - bf) <= 60]; the [nan] that
    the mean of an empty list is, is [None]. *)
Definition accuracy (ground_truth : list Z) (results : list (nat * Z * Q)) : option Q :=
  let hits := zip_with (λ gt r, bool_decide (Z.abs (gt - r.1.2) ≤ 60)%Z) ground_truth results in
  match hits with
  | [] => None
  | _ => Some (inject_Z (Z.of_nat (length (filter (λ b, b = true) hits)))
               / inject_Z (Z.of_nat (length hits)))%Q
  end.

End Evaluation.

(** ** Well-formed mappings *)

Module Invariants.
Import Sampler.
Section InvariantDefs.
Context {E : External}.

(** A mapping as the read loop leaves it: a step of at least 1, a frame rate
    that is not 0, and the multiples of the step as indices. *)
Definition mapping_ok (fps : Q) (step : Z) (indices : list Z) : Prop :=
  (1 ≤ step)%Z
  ∧ ¬ (fps == 0)%Q
  ∧ indices = map (λ i, (Z.of_nat i * step)%Z) (seq 0 (length indices)).

(** Every stored mapping is one. *)
Definition store_ok (w : World) : Prop :=
  ∀ folder data,
    mapping_files w !! folder = Some data →
    mapping_ok (orig_fps data) (frame_step data) (orig_indices data).

(** Two disks hold the same mapping and the same frames in a folder. *)
Definition folder_agrees (w w' : World) (folder : string) : Prop :=
  mapping_files w !! folder = mapping_files w' !! folder
  ∧ ∀ i, frame_files w !! (folder, i) = frame_files w' !! (folder, i).

End InvariantDefs.
End Invariants.

(* ===================================================================== *)
(** * Part II: properties                                                 *)
(* ===================================================================== *)

(** ** Lists *)

Lemma nth_map_seq {A} (f : nat → A) n i d :
  i < n → nth i (map f (seq 0 n)) d = f i.
Proof.
  intros Hi.
  rewrite (nth_indep _ d (f 0)) by (rewrite length_map, length_seq; done).
  rewrite map_nth, seq_nth; done.
Qed.

(** ** Frame sampler *)

Module SamplerFacts.
Import Sampler.
Section SamplerLemmas.
Context {E : External}.

(** The step is there unless the target rate is 0, and is at least 1. *)
Lemma sampling_step_inv fps target_fps step :
  sampling_step fps target_fps = Ok step →
  target_fps ≠ 0%Z
  ∧ step = Z.max (py_round (fps / inject_Z target_fps)) 1
  ∧ (1 ≤ step)%Z.
Proof.
  unfold sampling_step. destruct (Z.eqb_spec target_fps 0) as [|Hne]; [done|].
  intros [= <-]. split_and!; [done|done|lia].
Qed.

Lemma sampling_step_ok fps target_fps :
  target_fps ≠ 0%Z →
  sampling_step fps target_fps = Ok (Z.max (py_round (fps / inject_Z target_fps)) 1).
Proof.
  intros Hne. unfold sampling_step.
  by destruct (Z.eqb_spec target_fps 0) as [|_].
Qed.

(** Between two multiples of [step] that follow each other lies no third. *)
Lemma multiple_in_window (step count : Z) (saved : nat) :
  (1 ≤ step)%Z →
  (Z.of_nat saved * step - step < count ≤ Z.of_nat saved * step)%Z →
  (count mod step = 0)%Z ↔ count = (Z.of_nat saved * step)%Z.
Proof.
  intros Hstep Hwin. split.
  - intros Hmod.
    apply Z.mod_divide in Hmod; [|lia].
    destruct Hmod as [q ->].
    assert (Z.of_nat saved - 1 < q)%Z by nia.
    assert (q ≤ Z.of_nat saved)%Z by nia.
    f_equal. lia.
  - intros ->. apply Z.mod_mul. lia.
Qed.

(** The loop invariant of lines 85-104, for a run of the loop that ends
    without an exception: [indices] holds the multiples of [step] below
    [count], [saved] is their number, and file [j] of the folder holds the
    [j]-th kept frame, resized. *)
Lemma read_frames_spec folder step max_pixels frames :
  (1 ≤ step)%Z →
  ∀ count saved indices w indices' saved' w',
    indices = map (λ i, (Z.of_nat i * step)%Z) (seq 0 saved) →
    (Z.of_nat saved * step - step < count ≤ Z.of_nat saved * step)%Z →
    read_frames folder step max_pixels frames count saved indices w
    = (Ok (indices', saved'), w') →
    indices' = map (λ i, (Z.of_nat i * step)%Z) (seq 0 saved')
    ∧ saved ≤ saved'
    ∧ (Z.of_nat saved' * step - step < count + Z.of_nat (length frames)
       ≤ Z.of_nat saved' * step)%Z
    ∧ video_files w' = video_files w
    ∧ mapping_files w' = mapping_files w
    ∧ cap_reads w' = cap_reads w + length frames + 1
    ∧ (∀ j, saved ≤ j < saved' →
         Ok <$> frame_files w' !! (folder, j)
         = resize_to max_pixels <$> frames !! Z.to_nat (Z.of_nat j * step - count))
    ∧ (∀ key, ¬ (key.1 = folder ∧ saved ≤ key.2 < saved') →
         frame_files w' !! key = frame_files w !! key).
Proof.
  intros Hstep. induction frames as [|frame rest IH];
    intros count saved indices w indices' saved' w' Hidx Hwin Hrun.
  - simpl in Hrun. injection Hrun as <- <- <-. simpl.
    split_and!; try done; try lia.
  - simpl in Hrun.
    destruct (count mod step =? 0)%Z eqn:Hmod.
    + apply Z.eqb_eq in Hmod.
      apply (multiple_in_window step count saved Hstep Hwin) in Hmod.
      destruct (resize_to max_pixels frame) as [resized|e] eqn:Hres; [|done].
      apply IH in Hrun as (Hi & Hle & Hw & Hv & Hm & Hr & Hnew & Hold).
      * split_and!.
        -- done.
        -- lia.
        -- simpl length. lia.
        -- simpl length. lia.
        -- done.
        -- done.
        -- rewrite Hr. simpl. lia.
        -- intros j Hj. destruct (decide (j = saved)) as [->|Hne].
           ++ rewrite Hold by (simpl; lia). simpl.
              rewrite lookup_insert_eq.
              replace (Z.to_nat (Z.of_nat saved * step - count)) with 0 by lia.
              simpl. by rewrite Hres.
           ++ rewrite Hnew by lia.
              replace (Z.to_nat (Z.of_nat j * step - count))
                with (S (Z.to_nat (Z.of_nat j * step - (count + 1)))) by nia.
              done.
        -- intros key Hkey. rewrite Hold.
           ++ simpl. apply lookup_insert_ne.
              intros Heq. apply Hkey. subst key. simpl. split; [done|lia].
           ++ intros [? ?]. apply Hkey. split; [done|lia].
      * rewrite seq_S, map_app. simpl. by rewrite Hidx, Hmod.
      * lia.
    + apply Z.eqb_neq in Hmod.
      assert (count ≠ (Z.of_nat saved * step)%Z) as Hne
        by (intros Heq; apply Hmod, (multiple_in_window step count saved); done).
      apply IH in Hrun as (Hi & Hle & Hw & Hv & Hm & Hr & Hnew & Hold);
        [|done|lia].
      split_and!.
      * done.
      * lia.
      * simpl length. lia.
      * simpl length. lia.
      * done.
      * done.
      * rewrite Hr. simpl. lia.
      * intros j Hj. rewrite Hnew by done.
        replace (Z.to_nat (Z.of_nat j * step - count))
          with (S (Z.to_nat (Z.of_nat j * step - (count + 1)))) by nia.
        done.
      * done.
Qed.

(** A run of the loop that ends with an exception: it is raised by the
    resizing of the first kept frame that cannot be resized, after that
    frame was read; no mapping is written, and no other folder is touched. *)
Lemma read_frames_raise folder step max_pixels frames :
  ∀ count saved indices w e w',
    read_frames folder step max_pixels frames count saved indices w = (Raise e, w') →
    ∃ d frame,
      frames !! d = Some frame
      ∧ ((count + Z.of_nat d) mod step = 0)%Z
      ∧ resize_to max_pixels frame = Raise e
      ∧ (∀ d' frame', d' < d → frames !! d' = Some frame' →
           ((count + Z.of_nat d') mod step = 0)%Z →
           ∃ img, resize_to max_pixels frame' = Ok img)
      ∧ video_files w' = video_files w
      ∧ mapping_files w' = mapping_files w
      ∧ cap_reads w' = cap_reads w + d + 1
      ∧ (∀ key, key.1 ≠ folder → frame_files w' !! key = frame_files w !! key).
Proof.
  induction frames as [|frame rest IH]; intros count saved indices w e w' Hrun.
  - done.
  - simpl in Hrun.
    destruct (count mod step =? 0)%Z eqn:Hmod.
    + apply Z.eqb_eq in Hmod.
      destruct (resize_to max_pixels frame) as [resized|e'] eqn:Hres.
      * apply IH in Hrun
          as (d & frame' & Hd & Hdmod & Hfail & Hbefore & Hv & Hm & Hr & Hother).
        exists (S d), frame'. split_and!.
        -- done.
        -- rewrite <- Hdmod. f_equal. lia.
        -- done.
        -- intros [|d'] frame'' Hlt Hlook Hkept.
           ++ injection Hlook as <-. by exists resized.
           ++ apply (Hbefore d' frame''); [lia|done|].
              rewrite <- Hkept. f_equal. lia.
        -- done.
        -- done.
        -- rewrite Hr. simpl. lia.
        -- intros [f i] Hkey. rewrite Hother by done. simpl.
           apply lookup_insert_ne. intros [= <- _]. done.
      * injection Hrun as <- <-.
        exists 0, frame. split_and!.
        -- done.
        -- by rewrite Z.add_0_r.
        -- done.
        -- intros d' frame' Hlt. lia.
        -- done.
        -- done.
        -- simpl. lia.
        -- done.
    + apply Z.eqb_neq in Hmod.
      apply IH in Hrun
        as (d & frame' & Hd & Hdmod & Hfail & Hbefore & Hv & Hm & Hr & Hother).
      exists (S d), frame'. split_and!.
      * done.
      * rewrite <- Hdmod. f_equal. lia.
      * done.
      * intros [|d'] frame'' Hlt Hlook Hkept.
        -- rewrite Z.add_0_r in Hkept. done.
        -- apply (Hbefore d' frame''); [lia|done|].
           rewrite <- Hkept. f_equal. lia.
      * done.
      * done.
      * rewrite Hr. simpl. lia.
      * done.
Qed.

(** The loop ends without an exception when every kept frame can be resized. *)
Lemma read_frames_returns folder step max_pixels frames count saved indices w :
  (∀ d frame, frames !! d = Some frame → ((count + Z.of_nat d) mod step = 0)%Z →
     ∃ img, resize_to max_pixels frame = Ok img) →
  ∃ indices' saved' w',
    read_frames folder step max_pixels frames count saved indices w
    = (Ok (indices', saved'), w').
Proof.
  intros Hall.
  destruct (read_frames folder step max_pixels frames count saved indices w)
    as [[[indices' saved']|e] w'] eqn:Hrun; [by eauto|].
  apply read_frames_raise in Hrun as (d & frame & Hd & Hmod & Hfail & _).
  destruct (Hall d frame Hd Hmod) as [img Himg]. congruence.
Qed.

Lemma extract_frames_cached video_path output_folder target_fps max_pixels w data :
  mapping_files w !! output_folder = Some data →
  extract_frames video_path output_folder target_fps max_pixels w
  = (Ok (orig_fps data, frame_step data, orig_indices data), w).
Proof. intros Hdata. unfold extract_frames. by rewrite Hdata. Qed.

(** The decoding branch, lines 75-116. *)
Lemma extract_frames_decoding video_path output_folder target_fps max_pixels w cap :
  mapping_files w !! output_folder = None →
  video_files w !! video_path = Some cap →
  extract_frames video_path output_folder target_fps max_pixels w
  = let fps := if Qeq_bool (cap_fps cap) 0 then inject_Z target_fps else cap_fps cap in
    match sampling_step fps target_fps with
    | Raise e => (Raise e, w)
    | Ok step =>
        match read_frames output_folder step max_pixels (cap_frames cap) 0 0 [] w with
        | (Raise e, w) => (Raise e, w)
        | (Ok (indices, saved), w) =>
            (Ok (fps, step, indices),
             json_dump output_folder
               {| orig_fps := fps; frame_step := step; orig_indices := indices |} w)
        end
    end.
Proof. intros Hnone Hcap. unfold extract_frames. by rewrite Hnone, Hcap. Qed.

(** A successful call leaves its result behind as the stored mapping. *)
Lemma extract_frames_stores video_path output_folder target_fps max_pixels w fps step indices w' :
  extract_frames video_path output_folder target_fps max_pixels w
  = (Ok (fps, step, indices), w') →
  ∃ data, mapping_files w' !! output_folder = Some data
          ∧ orig_fps data = fps ∧ frame_step data = step ∧ orig_indices data = indices.
Proof.
  unfold extract_frames. intros Hrun.
  destruct (mapping_files w !! output_folder) as [data|] eqn:Hdata.
  - injection Hrun as <- <- <- <-. by exists data.
  - destruct (video_files w !! video_path) as [cap|]; [|done].
    destruct (sampling_step _ _) as [step0|]; [|done].
    destruct (read_frames _ _ _ _ _ _ _ _) as [[[indices0 saved]|] w1] eqn:Hloop; [|done].
    injection Hrun as <- <- <- <-.
    eexists. split; [apply lookup_insert_eq|done].
Qed.

(** C4. On the decoding path (no mapping stored, the video opens, the target
    rate is not 0) a call that returns has kept exactly the frames whose
    original index is a multiple of the sampling step: the indices it returns
    are those multiples below the frame count, strictly increasing, the
    [i]-th being [i * step]; their number is the count [saved] of the frames
    written, file [i] of the output folder holding the frame of original
    index [i * step], resized, and no further file being written.  The call
    returns exactly when every frame it keeps can be resized. *)
Theorem extract_frames_mapping video_path output_folder target_fps max_pixels w cap :
  mapping_files w !! output_folder = None →
  video_files w !! video_path = Some cap →
  target_fps ≠ 0%Z →
  ∃ step,
    sampling_step (if Qeq_bool (cap_fps cap) 0 then inject_Z target_fps else cap_fps cap)
      target_fps = Ok step
    ∧ (1 ≤ step)%Z
    ∧ ((∃ result w',
          extract_frames video_path output_folder target_fps max_pixels w
          = (Ok result, w'))
       ↔ ∀ k frame, cap_frames cap !! k = Some frame → (Z.of_nat k mod step = 0)%Z →
           ∃ img, resize_to max_pixels frame = Ok img)
    ∧ ∀ fps step' indices w',
        extract_frames video_path output_folder target_fps max_pixels w
        = (Ok (fps, step', indices), w') →
        step' = step
        ∧ (∀ k, In k indices
                ↔ (0 ≤ k < Z.of_nat (length (cap_frames cap)))%Z ∧ (k mod step = 0)%Z)
        ∧ StronglySorted Z.lt indices
        ∧ (∀ i, i < length indices → nth i indices 0%Z = (Z.of_nat i * step)%Z)
        ∧ (read_frames output_folder step max_pixels (cap_frames cap) 0 0 [] w).1
          = Ok (indices, length indices)
        ∧ (∀ i, i < length indices →
             Ok <$> frame_files w' !! (output_folder, i)
             = resize_to max_pixels <$> cap_frames cap !! Z.to_nat (nth i indices 0%Z))
        ∧ (∀ i, length indices ≤ i →
             frame_files w' !! (output_folder, i) = frame_files w !! (output_folder, i)).
Proof.
  intros Hnone Hcap Htarget.
  rewrite (extract_frames_decoding _ _ _ _ _ _ Hnone Hcap). cbn zeta.
  set (fps0 := if Qeq_bool (cap_fps cap) 0 then inject_Z target_fps else cap_fps cap).
  rewrite (sampling_step_ok fps0 target_fps Htarget).
  set (step := Z.max (py_round (fps0 / inject_Z target_fps)) 1).
  assert (1 ≤ step)%Z as Hstep by (unfold step; lia).
  exists step. split_and!; [done|done| |].
  - split.
    + intros (result & w' & Hrun) k frame Hk Hmod.
      destruct (read_frames output_folder step max_pixels (cap_frames cap) 0 0 [] w)
        as [[[indices saved]|e] w1] eqn:Hloop; [|done].
      apply (read_frames_spec _ _ _ _ Hstep) in Hloop
        as (_ & _ & Hwin & _ & _ & _ & Hnew & _); [|done|simpl; lia].
      apply Z.mod_divide in Hmod as [q Hq]; [|lia].
      assert (Z.of_nat k < Z.of_nat (length (cap_frames cap)))%Z as Hlt
        by (apply inj_lt; by eapply lookup_lt_Some).
      specialize (Hnew (Z.to_nat q) ltac:(nia)).
      replace (Z.to_nat (Z.of_nat (Z.to_nat q) * step - 0)) with k in Hnew by nia.
      rewrite Hk in Hnew. simpl in Hnew.
      destruct (frame_files w1 !! (output_folder, Z.to_nat q)) as [img|]; [|done].
      injection Hnew as Hnew. by exists img.
    + intros Hall.
      destruct (read_frames_returns output_folder step max_pixels (cap_frames cap)
                  0 0 [] w) as (indices & saved & w1 & ->).
      { intros d frame Hd Hmod. by apply (Hall d frame). }
      by eauto.
  - intros fps step' indices w' Hrun.
    destruct (read_frames output_folder step max_pixels (cap_frames cap) 0 0 [] w)
      as [[[indices0 saved]|e] w1] eqn:Hloop; [|done].
    injection Hrun as <- <- <- <-.
    apply (read_frames_spec _ _ _ _ Hstep) in Hloop
      as (Hidx & _ & Hwin & _ & _ & _ & Hnew & Hold); [|done|simpl; lia].
    assert (length indices0 = saved) as Hlen
      by (rewrite Hidx, length_map, length_seq; done).
    assert (∀ i, i < saved → nth i indices0 0%Z = (Z.of_nat i * step)%Z) as Hnth.
    { intros i Hi. rewrite Hidx.
      by apply (nth_map_seq (λ i : nat, (Z.of_nat i * step)%Z)). }
    split_and!.
    + done.
    + intros k. rewrite Hidx, in_map_iff. split.
      * intros (i & <- & Hi%in_seq). split; [nia|]. apply Z.mod_mul. lia.
      * intros [Hk Hmod]. apply Z.mod_divide in Hmod; [|lia].
        destruct Hmod as [q ->]. exists (Z.to_nat q).
        split; [nia|]. apply in_seq. nia.
    + rewrite Hidx. clear -Hstep. generalize 0 as start.
      induction saved as [|n IH]; intros start; simpl; constructor.
      * apply IH.
      * apply List.Forall_forall. intros k (i & <- & Hi%in_seq)%in_map_iff. nia.
    + rewrite Hlen. done.
    + simpl. by rewrite Hlen.
    + rewrite Hlen. intros i Hi. simpl. rewrite Hnew by lia.
      rewrite Hnth by done. do 2 f_equal. lia.
    + rewrite Hlen. intros i Hi. simpl. apply Hold. simpl. lia.
Qed.

(** C5. The sampler is idempotent.  Where a mapping is stored for the output
    folder, the call returns it as it is and changes nothing, so no frame is
    decoded; and after a call that succeeded, any further call for the same
    output folder returns the same mapping and leaves the world, with its
    count of decoded frames, as the first call left it. *)
Theorem extract_frames_idempotent video_path output_folder target_fps max_pixels w :
  (∀ data, mapping_files w !! output_folder = Some data →
     extract_frames video_path output_folder target_fps max_pixels w
     = (Ok (orig_fps data, frame_step data, orig_indices data), w))
  ∧ (∀ result w',
       extract_frames video_path output_folder target_fps max_pixels w = (Ok result, w') →
       ∀ video_path' target_fps' max_pixels',
         extract_frames video_path' output_folder target_fps' max_pixels' w' = (Ok result, w')
         ∧ cap_reads (extract_frames video_path' output_folder target_fps' max_pixels' w').2
           = cap_reads w').
Proof.
  split.
  - intros data Hdata. by apply extract_frames_cached.
  - intros result w' Hrun video_path' target_fps' max_pixels'.
    destruct result as [[fps step] indices].
    apply extract_frames_stores in Hrun as (data & Hdata & <- & <- & <-).
    rewrite (extract_frames_cached _ _ _ _ _ _ Hdata). done.
Qed.

End SamplerLemmas.

(** The clip on the synthetic disk, sampled at 15 frames per second: every
    frame of 640 by 480 is resized to fit 120000 pixels. *)
Lemma extract_frames_mapping_witness :
  mapping_files Fixture.disk !! "frames/other/vid_unknown" = None
  ∧ video_files Fixture.disk !! "clip.mp4" = Some Fixture.clip
  ∧ 15%Z ≠ 0%Z
  ∧ ∃ step,
      (1 ≤ step)%Z
      ∧ ((∃ result w',
            extract_frames (E := Fixture.synthetic) "clip.mp4" "frames/other/vid_unknown"
              15 120000 Fixture.disk
            = (Ok result, w'))
         ↔ ∀ k frame, cap_frames Fixture.clip !! k = Some frame →
             (Z.of_nat k mod step = 0)%Z →
             ∃ img, resize_to (E := Fixture.synthetic) 120000 frame = Ok img)
      ∧ ∀ fps step' indices w',
          extract_frames (E := Fixture.synthetic) "clip.mp4" "frames/other/vid_unknown"
            15 120000 Fixture.disk
          = (Ok (fps, step', indices), w') →
          step' = step
          ∧ StronglySorted Z.lt indices
          ∧ (∀ i, i < length indices → nth i indices 0%Z = (Z.of_nat i * step)%Z).
Proof.
  assert (mapping_files Fixture.disk !! "frames/other/vid_unknown" = None) as H1
    by reflexivity.
  assert (video_files Fixture.disk !! "clip.mp4" = Some Fixture.clip) as H2
    by reflexivity.
  assert (15%Z ≠ 0%Z) as H3 by lia.
  split_and!; [exact H1|exact H2|exact H3|].
  destruct (extract_frames_mapping (E := Fixture.synthetic)
              "clip.mp4" "frames/other/vid_unknown" 15 120000 Fixture.disk Fixture.clip
              H1 H2 H3)
    as (step & _ & Hstep & Hiff & Hprops).
  exists step. split_and!; [exact Hstep|exact Hiff|].
  intros fps step' indices w' Hrun.
  destruct (Hprops fps step' indices w' Hrun) as (Heq & _ & Hsorted & Hnth & _).
  split_and!; assumption.
Defined.

(** A first call on the synthetic disk, then a second one. *)
Lemma extract_frames_idempotent_witness :
  (extract_frames (E := Fixture.synthetic) "clip.mp4" "frames/other/vid_unknown"
     15 120000 Fixture.disk).1
  = Ok (30%Q, 2%Z, [0; 2; 4; 6]%Z)
  ∧ extract_frames (E := Fixture.synthetic) "clip.mp4" "frames/other/vid_unknown"
      15 120000
      (extract_frames (E := Fixture.synthetic) "clip.mp4" "frames/other/vid_unknown"
         15 120000 Fixture.disk).2
    = (Ok (30%Q, 2%Z, [0; 2; 4; 6]%Z),
       (extract_frames (E := Fixture.synthetic) "clip.mp4" "frames/other/vid_unknown"
          15 120000 Fixture.disk).2).
Proof.
  assert (extract_frames (E := Fixture.synthetic) "clip.mp4" "frames/other/vid_unknown"
            15 120000 Fixture.disk
          = (Ok (30%Q, 2%Z, [0; 2; 4; 6]%Z),
             (extract_frames (E := Fixture.synthetic) "clip.mp4"
                "frames/other/vid_unknown" 15 120000 Fixture.disk).2)) as Hrun
    by reflexivity.
  split; [reflexivity|].
  exact (proj1 (proj2 (extract_frames_idempotent (E := Fixture.synthetic)
                         "clip.mp4" "frames/other/vid_unknown" 15 120000 Fixture.disk)
                 _ _ Hrun "clip.mp4" 15%Z 120000%Z)).
Defined.

End SamplerFacts.

(** ** Correlation engine *)

Module CorrelationFacts.
Import Correlation.
Local Open Scope R_scope.


Lemma Rsum_map_ext {A} (f g : A → R) (l : list A) :
  (∀ x, In x l → f x = g x) → Rsum (map f l) = Rsum (map g l).
Proof.
  induction l as [|a l IH]; intros Hfg; simpl; [done|].
  rewrite (Hfg a) by (by left). rewrite IH; [done|].
  intros x Hx. apply Hfg. by right.
Qed.

Lemma Rsum_map_le {A} (f g : A → R) (l : list A) :
  (∀ x, In x l → f x <= g x) → Rsum (map f l) <= Rsum (map g l).
Proof.
  induction l as [|a l IH]; intros Hfg; simpl; [lra|].
  apply Rplus_le_compat.
  - apply Hfg. by left.
  - apply IH. intros x Hx. apply Hfg. by right.
Qed.

Lemma Rsum_map_nonneg {A} (f : A → R) (l : list A) :
  (∀ x, In x l → 0 <= f x) → 0 <= Rsum (map f l).
Proof.
  induction l as [|a l IH]; intros Hf; simpl; [lra|].
  apply Rplus_le_le_0_compat.
  - apply Hf. by left.
  - apply IH. intros x Hx. apply Hf. by right.
Qed.

Lemma Rsum_map_zero {A} (l : list A) : Rsum (map (λ _, 0) l) = 0.
Proof. induction l as [|a l IH]; simpl; [done|]. rewrite IH. lra. Qed.

(** *** The transform length *)

Lemma transform_length_spec (Tq Tr : nat) :
  (0 < Nat.max Tq Tr)%nat →
  ∃ k, transform_length Tq Tr = Ok (2 ^ k)%nat
       ∧ (Nat.max Tq Tr ≤ 2 ^ k)%nat
       ∧ ∀ j, (Nat.max Tq Tr ≤ 2 ^ j)%nat → (2 ^ k ≤ 2 ^ j)%nat.
Proof.
  intros Hpos. exists (Nat.log2_up (Nat.max Tq Tr)).
  unfold transform_length.
  destruct (Nat.eqb_spec (Nat.max Tq Tr) 0) as [Hz|_]; [lia|].
  rewrite Nat.shiftl_1_l. split_and!.
  - done.
  - apply Nat.log2_up_le_pow2; [done|]. done.
  - intros j Hj. apply Nat.pow_le_mono_r; [lia|].
    by apply Nat.log2_up_le_pow2.
Qed.

Lemma transform_length_empty : transform_length 0 0 = Raise OverflowError.
Proof. reflexivity. Qed.

(** *** Padding *)

Lemma zero_pad_same_width (N : nat) (a : ndarray) :
  zero_pad N (ncols a) a
  = Ok (rows a ++ replicate (N - nrows a) (replicate (ncols a) 0)).
Proof.
  unfold zero_pad, broadcast_rows. rewrite Nat.eqb_refl. reflexivity.
Qed.

Lemma zero_pad_width_one (N D : nat) (a : ndarray) :
  ncols a ≠ D → ncols a = 1%nat →
  zero_pad N D a
  = Ok (map (λ r, replicate D (nth 0 r 0)) (rows a)
        ++ replicate (N - nrows a) (replicate D 0)).
Proof.
  intros Hne Hone. unfold zero_pad, broadcast_rows.
  destruct (Nat.eqb_spec (ncols a) D) as [|_]; [done|].
  rewrite Hone. simpl. by rewrite length_map.
Qed.

Lemma zero_pad_mismatch (N D : nat) (a : ndarray) :
  ncols a ≠ D → ncols a ≠ 1%nat → zero_pad N D a = Raise ValueError.
Proof.
  intros Hne Hone. unfold zero_pad, broadcast_rows.
  destruct (Nat.eqb_spec (ncols a) D) as [|_]; [done|].
  destruct (Nat.eqb_spec (ncols a) 1) as [|_]; done.
Qed.

Lemma zero_pad_spec (N : nat) (a : ndarray) :
  (nrows a ≤ N)%nat →
  ∃ P, zero_pad N (ncols a) a = Ok P
       ∧ length P = N
       ∧ (∀ t, (t < nrows a)%nat → P !! t = rows a !! t)
       ∧ (∀ t, (nrows a ≤ t < N)%nat → P !! t = Some (replicate (ncols a) 0)).
Proof.
  intros Hle. rewrite zero_pad_same_width. eexists. split; [done|].
  unfold nrows in *. split_and!.
  - rewrite length_app, length_replicate. lia.
  - intros t Ht. by apply lookup_app_l.
  - intros t Ht. rewrite lookup_app_r by lia.
    apply lookup_replicate_2. lia.
Qed.

Lemma length_scores_of N D Qp Rp lambda_val :
  length (scores_of N D Qp Rp lambda_val) = N.
Proof. unfold scores_of. by rewrite length_map, length_seq. Qed.

(** C7. For two descriptor arrays of one width, neither of them empty, the
    transform length [N] is a power of two, it is at least [max(Tq, Tr)], no
    smaller power of two is; both arrays are padded with zero rows to [N]
    rows, their own rows first; and the scores returned are [N] many. *)
Theorem transform_length_smallest_power_of_two (query_desc ref_desc : ndarray)
    (lambda_val : R) :
  (0 < nrows query_desc)%nat → (0 < nrows ref_desc)%nat →
  ncols ref_desc = ncols query_desc →
  ∃ k Qp Rp scores,
    transform_length (nrows query_desc) (nrows ref_desc) = Ok (2 ^ k)%nat
    ∧ (Nat.max (nrows query_desc) (nrows ref_desc) ≤ 2 ^ k)%nat
    ∧ (∀ j, (Nat.max (nrows query_desc) (nrows ref_desc) ≤ 2 ^ j)%nat → (2 ^ k ≤ 2 ^ j)%nat)
    ∧ zero_pad (2 ^ k) (ncols query_desc) query_desc = Ok Qp
    ∧ zero_pad (2 ^ k) (ncols query_desc) ref_desc = Ok Rp
    ∧ length Qp = (2 ^ k)%nat ∧ length Rp = (2 ^ k)%nat
    ∧ (∀ t, (t < nrows query_desc)%nat → Qp !! t = rows query_desc !! t)
    ∧ (∀ t, (nrows query_desc ≤ t < 2 ^ k)%nat
            → Qp !! t = Some (replicate (ncols query_desc) 0))
    ∧ (∀ t, (t < nrows ref_desc)%nat → Rp !! t = rows ref_desc !! t)
    ∧ (∀ t, (nrows ref_desc ≤ t < 2 ^ k)%nat
            → Rp !! t = Some (replicate (ncols query_desc) 0))
    ∧ compute_cte_correlation query_desc ref_desc lambda_val = Ok scores
    ∧ scores = scores_of (2 ^ k) (ncols query_desc) Qp Rp lambda_val
    ∧ length scores = (2 ^ k)%nat.
Proof.
  intros Hq Hr Hcols.
  destruct (transform_length_spec (nrows query_desc) (nrows ref_desc))
    as (k & HN & Hge & Hmin); [lia|].
  destruct (zero_pad_spec (2 ^ k) query_desc) as (Qp & HQ & HlQ & HQtop & HQpad); [lia|].
  destruct (zero_pad_spec (2 ^ k) ref_desc) as (Rp & HR & HlR & HRtop & HRpad); [lia|].
  rewrite Hcols in HR, HRpad.
  exists k, Qp, Rp, (scores_of (2 ^ k) (ncols query_desc) Qp Rp lambda_val).
  split_and!; try done.
  - unfold compute_cte_correlation. rewrite HN. simpl. rewrite HQ. simpl.
    rewrite HR. done.
  - apply length_scores_of.
Qed.

(** Two frames against one. *)
Lemma transform_length_smallest_power_of_two_witness :
  (0 < nrows Fixture.two_frames)%nat ∧ (0 < nrows Fixture.one_frame)%nat
  ∧ ncols Fixture.one_frame = ncols Fixture.two_frames
  ∧ ∃ k scores,
      transform_length (nrows Fixture.two_frames) (nrows Fixture.one_frame) = Ok (2 ^ k)%nat
      ∧ compute_cte_correlation Fixture.two_frames Fixture.one_frame 1e-3 = Ok scores
      ∧ length scores = (2 ^ k)%nat.
Proof.
  assert (0 < nrows Fixture.two_frames)%nat as H1 by (unfold nrows; simpl; lia).
  assert (0 < nrows Fixture.one_frame)%nat as H2 by (unfold nrows; simpl; lia).
  assert (ncols Fixture.one_frame = ncols Fixture.two_frames) as H3 by reflexivity.
  split_and!; [exact H1|exact H2|exact H3|].
  destruct (transform_length_smallest_power_of_two
              Fixture.two_frames Fixture.one_frame 1e-3 H1 H2 H3)
    as (k & Qp & Rp & scores & HN & _ & _ & _ & _ & _ & _ & _ & _ & _ & _ & Hrun & _ & Hlen).
  exists k, scores. split_and!; assumption.
Defined.

(** *** Widths *)

(** With no frame on either side the length cannot be chosen, whatever the widths. *)
Lemma compute_cte_correlation_empty (query_desc ref_desc : ndarray) (lambda_val : R) :
  nrows query_desc = 0%nat → nrows ref_desc = 0%nat →
  compute_cte_correlation query_desc ref_desc lambda_val = Raise OverflowError.
Proof.
  intros Hq Hr. unfold compute_cte_correlation. rewrite Hq, Hr. reflexivity.
Qed.

(** C2, as the code has it.  For two arrays with a frame between them: when
    the widths differ and the reference's is not 1, the computation raises
    [ValueError], on copying the reference into its padded array; when the
    reference's width is 1 and the query's is not, nothing is raised: the one
    column is repeated over the query's width; and whenever the widths agree,
    or the reference's is 1, a score sequence is returned, of the transform
    length. *)
Theorem compute_cte_correlation_widths (query_desc ref_desc : ndarray) (lambda_val : R) :
  (0 < Nat.max (nrows query_desc) (nrows ref_desc))%nat →
  (ncols ref_desc ≠ ncols query_desc → ncols ref_desc ≠ 1%nat →
     compute_cte_correlation query_desc ref_desc lambda_val = Raise ValueError)
  ∧ (ncols ref_desc ≠ ncols query_desc → ncols ref_desc = 1%nat →
     ∃ N, transform_length (nrows query_desc) (nrows ref_desc) = Ok N
          ∧ compute_cte_correlation query_desc ref_desc lambda_val
            = Ok (scores_of N (ncols query_desc)
                    (rows query_desc
                     ++ replicate (N - nrows query_desc) (replicate (ncols query_desc) 0))
                    (map (λ r, replicate (ncols query_desc) (nth 0 r 0)) (rows ref_desc)
                     ++ replicate (N - nrows ref_desc) (replicate (ncols query_desc) 0))
                    lambda_val))
  ∧ (ncols ref_desc = ncols query_desc ∨ ncols ref_desc = 1%nat →
     ∃ N scores, transform_length (nrows query_desc) (nrows ref_desc) = Ok N
                 ∧ compute_cte_correlation query_desc ref_desc lambda_val = Ok scores
                 ∧ length scores = N).
Proof.
  intros Hpos.
  destruct (transform_length_spec _ _ Hpos) as (k & HN & _ & _).
  unfold compute_cte_correlation. rewrite HN. simpl.
  rewrite zero_pad_same_width. simpl. split_and!.
  - intros Hne Hone. by rewrite zero_pad_mismatch.
  - intros Hne Hone. exists (2 ^ k)%nat. split; [done|].
    by rewrite zero_pad_width_one.
  - intros Hw. exists (2 ^ k)%nat.
    destruct (decide (ncols ref_desc = ncols query_desc)) as [Heq|Hne].
    + rewrite <- Heq. rewrite zero_pad_same_width. simpl.
      eexists. split_and!; [done|done|apply length_scores_of].
    + destruct Hw as [|Hone]; [done|].
      rewrite zero_pad_width_one by done. simpl.
      eexists. split_and!; [done|done|apply length_scores_of].
Qed.

(** A reference of width 1 against a query of width 2. *)
Lemma compute_cte_correlation_widths_witness :
  (0 < Nat.max (nrows Fixture.wide_frame) (nrows Fixture.narrow_frame))%nat
  ∧ ∃ N scores,
      transform_length (nrows Fixture.wide_frame) (nrows Fixture.narrow_frame) = Ok N
      ∧ compute_cte_correlation Fixture.wide_frame Fixture.narrow_frame 1e-3 = Ok scores
      ∧ length scores = N.
Proof.
  assert (0 < Nat.max (nrows Fixture.wide_frame) (nrows Fixture.narrow_frame))%nat as H1
    by (compute; lia).
  split; [exact H1|].
  apply (proj2 (proj2 (compute_cte_correlation_widths
                         Fixture.wide_frame Fixture.narrow_frame 1e-3 H1))).
  right. reflexivity.
Defined.

(** C2, as the specification has it, fails: the widths 2 and 1 differ, and the
    computation returns a score, [3 / (5 + lambda)], as for the reference
    [(1, 1)]. *)
Lemma widths_differ_without_error :
  ncols Fixture.wide_frame ≠ ncols Fixture.narrow_frame
  ∧ compute_cte_correlation Fixture.wide_frame Fixture.narrow_frame 1e-3
    = Ok [3 / (5 + 1e-3)].
Proof.
  split; [compute; lia|].
  unfold compute_cte_correlation. simpl.
  unfold scores_of. simpl. do 2 f_equal.
  unfold irfft, num, den, rfft, sum_n, angle, Cdiv_real, Cmul, Cconj, Cabs2, entry.
  simpl.
  replace (2 * PI * 0 * 0 / 1) with 0 by field.
  rewrite cos_0, sin_0. field; lra.
Qed.

(** *** An array against itself *)

Lemma Cabs2_nonneg (z : C) : 0 <= Cabs2 z.
Proof. unfold Cabs2. nra. Qed.

Lemma den_nonneg N D Qp k : 0 <= den N D Qp k.
Proof.
  unfold den, sum_n. apply Rsum_map_nonneg. intros d _. apply Cabs2_nonneg.
Qed.

(** [conj(z) * z] is [|z|^2]: for an array against itself [num] is [den], and real. *)
Lemma num_self N D Qp k :
  num N D Qp Qp k = (den N D Qp k, 0).
Proof.
  unfold num, den, sum_n. f_equal.
  - apply Rsum_map_ext. intros d _. unfold Cmul, Cconj, Cabs2. simpl. ring.
  - rewrite <- (Rsum_map_zero (seq 0 D)).
    apply Rsum_map_ext. intros d _. unfold Cmul, Cconj. simpl. ring.
Qed.

Lemma angle_0 N k : angle N k 0 = 0.
Proof. unfold angle. simpl. unfold Rdiv. ring. Qed.

(** The inverse transform of a real spectrum without negative bins is
    largest at 0. *)
Lemma irfft_peak_at_0 (N : nat) (X : nat → C) (t : nat) :
  (0 < N)%nat →
  (∀ k, 0 <= fst (X k) ∧ snd (X k) = 0) →
  irfft N X t <= irfft N X 0.
Proof.
  intros HN HX. unfold irfft.
  apply Rmult_le_compat_r.
  { left. apply Rinv_0_lt_compat, lt_0_INR. lia. }
  apply Rplus_le_compat; [apply Rplus_le_compat; [lra|]|].
  - apply Rsum_map_le. intros k _.
    destruct (HX k) as [Hre ->]. rewrite angle_0, cos_0.
    pose proof (COS_bound (angle N k t)) as [_ Hcos]. nra.
  - destruct (Nat.even N); [|lra].
    destruct (HX (N / 2)%nat) as [Hre _]. rewrite angle_0, cos_0.
    pose proof (COS_bound (angle N (N / 2) t)) as [_ Hcos]. nra.
Qed.

(** The scores of an array against itself: none exceeds the first. *)
Lemma self_scores_peak N D Qp lambda_val :
  (0 < N)%nat → 0 < lambda_val →
  ∀ t, nth t (scores_of N D Qp Qp lambda_val) 0
       <= nth 0 (scores_of N D Qp Qp lambda_val) 0.
Proof.
  intros HN Hlam t. unfold scores_of.
  set (X := λ k, Cdiv_real (num N D Qp Qp k) (den N D Qp k + lambda_val)).
  assert (∀ k, 0 <= fst (X k) ∧ snd (X k) = 0) as HX.
  { intros k. unfold X. rewrite num_self. unfold Cdiv_real. simpl.
    pose proof (den_nonneg N D Qp k) as He. split.
    - apply Rmult_le_pos; [done|]. left. apply Rinv_0_lt_compat. lra.
    - unfold Rdiv. ring. }
  rewrite (nth_map_seq (irfft N X) N 0 0 HN).
  destruct (decide (t < N)%nat) as [Ht|Ht].
  - rewrite (nth_map_seq (irfft N X) N t 0 Ht). by apply irfft_peak_at_0.
  - rewrite nth_overflow by (rewrite length_map, length_seq; lia).
    unfold irfft.
    apply Rmult_le_pos; [|left; apply Rinv_0_lt_compat, lt_0_INR; lia].
    apply Rplus_le_le_0_compat; [apply Rplus_le_le_0_compat|].
    + apply HX.
    + apply Rsum_map_nonneg. intros k _. destruct (HX k) as [Hre ->].
      rewrite angle_0, cos_0. lra.
    + destruct (Nat.even N); [|lra]. destruct (HX (N / 2)%nat) as [Hre _].
      rewrite angle_0, cos_0. lra.
Qed.

End CorrelationFacts.
(** ** Peak selection and offset mapping *)

Module OrchestratorFacts.
Import Correlation Orchestrator CorrelationFacts.

(** [argmax_from] keeps the best index so far unless a later value is
    strictly larger, and then returns the first index of the largest one. *)
Lemma argmax_from_spec (l : list R) :
  ∀ best_i best i,
    let r := argmax_from best_i best i l in
    (r = best_i ∧ ∀ y, In y l → (y <= best)%R)
    ∨ (i ≤ r < i + length l
       ∧ (best < nth (r - i) l 0)%R
       ∧ (∀ j, j < r - i → (nth j l 0 < nth (r - i) l 0)%R)
       ∧ (∀ y, In y l → (y <= nth (r - i) l 0)%R)).
Proof.
  induction l as [|x l IH]; intros best_i best i; simpl.
  - left. split; [done|]. intros y [].
  - destruct (Rlt_dec best x) as [Hlt|Hge].
    + right. destruct (IH i x (S i)) as [[Hr Hall]|(Hr & Hbest & Hfirst & Hall)].
      * rewrite Hr, Nat.sub_diag. simpl. split_and!; [lia|lia|done|lia|].
        intros y [<-|Hy]; [lra|by apply Hall].
      * replace (argmax_from i x (S i) l - i)
          with (S (argmax_from i x (S i) l - S i)) by lia.
        simpl. split_and!; [lia|lia|lra| |].
        -- intros [|j] Hj; [done|]. apply Hfirst. lia.
        -- intros y [<-|Hy]; [lra|by apply Hall].
    + destruct (IH best_i best (S i)) as [[Hr Hall]|(Hr & Hbest & Hfirst & Hall)].
      * left. split; [done|]. intros y [<-|Hy]; [lra|by apply Hall].
      * right.
        replace (argmax_from best_i best (S i) l - i)
          with (S (argmax_from best_i best (S i) l - S i)) by lia.
        simpl. split_and!; [lia|lia|done| |].
        -- intros [|j] Hj; [lra|]. apply Hfirst. lia.
        -- intros y [<-|Hy]; [lra|by apply Hall].
Qed.

(** [np.argmax] returns the first position of the largest score. *)
Lemma argmax_spec (scores : list R) :
  0 < length scores →
  ∃ r, argmax scores = Ok r
       ∧ r < length scores
       ∧ (∀ j, j < length scores → (nth j scores 0 <= nth r scores 0)%R)
       ∧ (∀ j, j < r → (nth j scores 0 < nth r scores 0)%R).
Proof.
  destruct scores as [|x l]; simpl; [lia|]. intros _.
  eexists. split; [done|].
  destruct (argmax_from_spec l 0 x 1) as [[-> Hall]|(Hr & Hbest & Hfirst & Hall)].
  - split_and!; [lia| |lia].
    intros [|j] Hj; [simpl; lra|]. simpl. apply Hall, nth_In. lia.
  - destruct (argmax_from 0 x 1 l) as [|r]; [lia|].
    replace (S r - 1) with r in * by lia. simpl. split_and!; [lia| |].
    + intros [|j] Hj; [lra|]. apply Hall, nth_In. lia.
    + intros [|j] Hj; [done|]. apply Hfirst. lia.
Qed.

(** When no score exceeds the first one, the first one is the peak. *)
Lemma argmax_first (scores : list R) :
  0 < length scores →
  (∀ t, (nth t scores 0 <= nth 0 scores 0)%R) →
  argmax scores = Ok 0.
Proof.
  intros Hlen Hmax.
  destruct (argmax_spec scores Hlen) as (r & -> & _ & _ & Hfirst).
  destruct r as [|r]; [done|].
  specialize (Hfirst 0 ltac:(lia)). specialize (Hmax (S r)). lra.
Qed.

(** [delta > N // 2] says that twice [delta] exceeds [N]. *)
Lemma wrap_around_spec (N delta : Z) :
  wrap_around N delta = if decide (N < 2 * delta)%Z then (delta - N)%Z else delta.
Proof.
  unfold wrap_around.
  destruct (Z.gtb_spec delta (N / 2)) as [Hgt|Hle]; case_decide; try done.
  - pose proof (Z.div_mod N 2). pose proof (Z.mod_pos_bound N 2). lia.
  - pose proof (Z.div_mod N 2). pose proof (Z.mod_pos_bound N 2). lia.
Qed.

(** C3. For a score sequence of length [N], the offset is read at the first
    position of the largest score; [N] is subtracted from it when it exceeds
    [N/2]; what results is raised to 0 when negative.  The position 1023 of
    1024 becomes -1, then 0. *)
Theorem best_delta_wraps_then_clamps (scores : list R) :
  0 < length scores →
  ∃ raw_offset : nat,
    argmax scores = Ok raw_offset
    ∧ raw_offset < length scores
    ∧ (∀ j, j < length scores → (nth j scores 0 <= nth raw_offset scores 0)%R)
    ∧ (∀ j, j < raw_offset → (nth j scores 0 < nth raw_offset scores 0)%R)
    ∧ wrap_around (Z.of_nat (length scores)) (Z.of_nat raw_offset)
      = (if decide (Z.of_nat (length scores) < 2 * Z.of_nat raw_offset)%Z
         then Z.of_nat raw_offset - Z.of_nat (length scores)
         else Z.of_nat raw_offset)%Z
    ∧ best_delta scores
      = Ok (Z.max (wrap_around (Z.of_nat (length scores)) (Z.of_nat raw_offset)) 0)
    ∧ wrap_around 1024 1023 = (-1)%Z
    ∧ Z.max (wrap_around 1024 1023) 0 = 0%Z.
Proof.
  intros Hlen.
  destruct (argmax_spec scores Hlen) as (r & Hr & Hlt & Hmax & Hfirst).
  exists r. split_and!; try done.
  - apply wrap_around_spec.
  - unfold best_delta. rewrite Hr. done.
Qed.

(** Four scores with their peak at the last position: the offset wraps to -1
    and is clamped to 0. *)
Lemma best_delta_wraps_then_clamps_witness :
  0 < length [0; 0; 0; 1]%R
  ∧ ∃ raw_offset : nat,
      argmax [0; 0; 0; 1]%R = Ok raw_offset
      ∧ best_delta [0; 0; 0; 1]%R
        = Ok (Z.max (wrap_around 4 (Z.of_nat raw_offset)) 0).
Proof.
  assert (0 < length [0; 0; 0; 1]%R) as H1 by (simpl; lia).
  split; [exact H1|].
  destruct (best_delta_wraps_then_clamps [0; 0; 0; 1]%R H1)
    as (r & Hr & _ & _ & _ & _ & Hbest & _).
  exists r. split; assumption.
Defined.

(** C6. For a descriptor array with at least one frame and a positive
    regularization constant, the scores of the array against itself are
    largest at offset 0: no score exceeds the first one, [np.argmax] returns
    0, and the offset the main loop goes on with is 0. *)
Theorem self_correlation_peaks_at_0 (M : ndarray) (lambda_val : R) :
  0 < nrows M → (0 < lambda_val)%R →
  ∃ scores,
    compute_cte_correlation M M lambda_val = Ok scores
    ∧ (∀ t, (nth t scores 0 <= nth 0 scores 0)%R)
    ∧ argmax scores = Ok 0
    ∧ best_delta scores = Ok 0%Z.
Proof.
  intros Hrows Hlam.
  destruct (transform_length_spec (nrows M) (nrows M)) as (k & HN & Hge & _); [lia|].
  assert (0 < 2 ^ k) as Hpos by lia.
  unfold compute_cte_correlation. rewrite HN. simpl.
  rewrite zero_pad_same_width. simpl.
  set (Mp := rows M ++ replicate (2 ^ k - nrows M) (replicate (ncols M) 0%R)).
  exists (scores_of (2 ^ k) (ncols M) Mp Mp lambda_val).
  assert (∀ t, (nth t (scores_of (2 ^ k) (ncols M) Mp Mp lambda_val) 0
                <= nth 0 (scores_of (2 ^ k) (ncols M) Mp Mp lambda_val) 0)%R) as Hpeak
    by (by apply self_scores_peak).
  assert (argmax (scores_of (2 ^ k) (ncols M) Mp Mp lambda_val) = Ok 0) as Harg
    by (apply argmax_first; [rewrite length_scores_of; lia|done]).
  split_and!; try done.
  unfold best_delta. rewrite Harg. simpl. f_equal.
  rewrite wrap_around_spec. case_decide; lia.
Qed.

(** The two frames of the fixture against themselves. *)
Lemma self_correlation_peaks_at_0_witness :
  0 < nrows Fixture.two_frames ∧ (0 < 1e-3)%R
  ∧ ∃ scores,
      compute_cte_correlation Fixture.two_frames Fixture.two_frames 1e-3 = Ok scores
      ∧ argmax scores = Ok 0.
Proof.
  assert (0 < nrows Fixture.two_frames) as H1 by (unfold nrows; simpl; lia).
  assert (0 < 1e-3)%R as H2 by lra.
  split_and!; [exact H1|exact H2|].
  destruct (self_correlation_peaks_at_0 Fixture.two_frames 1e-3 H1 H2)
    as (scores & Hrun & _ & Harg & _).
  exists scores. split; assumption.
Defined.

(** *** The lookup in the reference's mapping *)

(** The offset the main loop goes on with lies between 0 and [N // 2]. *)
Lemma best_delta_range (scores : list R) (delta : Z) :
  best_delta scores = Ok delta →
  (0 ≤ delta ≤ Z.of_nat (length scores) / 2)%Z.
Proof.
  unfold best_delta. destruct scores as [|x l] eqn:Hs; [done|]. rewrite <- Hs.
  destruct (argmax_spec scores) as (r & Hr & Hlt & _); [subst; simpl; lia|].
  rewrite Hr. simpl. intros [= <-]. unfold wrap_around.
  destruct (Z.gtb_spec (Z.of_nat r) (Z.of_nat (length scores) / 2)); [|lia].
  assert (0 ≤ Z.of_nat (length scores) / 2)%Z by (apply Z.div_pos; lia). lia.
Qed.

(** From 0 on, [l[i]] is there exactly below the length. *)
Lemma getitem_in_range (l : list Z) (i : Z) :
  (0 ≤ i)%Z →
  ((i < Z.of_nat (length l))%Z → getitem l i = Ok (nth (Z.to_nat i) l 0%Z))
  ∧ ((Z.of_nat (length l) ≤ i)%Z → getitem l i = Raise IndexError).
Proof.
  intros Hi. unfold getitem. split; intros Hlen.
  - destruct (Z.leb_spec 0 i); [|lia].
    destruct (Z.ltb_spec i (Z.of_nat (length l))); [done|lia].
  - destruct (Z.leb_spec 0 i); [|lia].
    destruct (Z.ltb_spec i (Z.of_nat (length l))); [lia|]. simpl.
    destruct (Z.ltb_spec i 0); [lia|]. by rewrite andb_false_r.
Qed.

(** Half the transform length stays below the reference's frame count when
    the query is not the longer one. *)
Lemma half_length_below_reference (Tq Tr N : nat) :
  0 < Tr → Tq ≤ Tr → transform_length Tq Tr = Ok N →
  (Z.of_nat N / 2 < Z.of_nat Tr)%Z.
Proof.
  intros Hpos Hle. unfold transform_length.
  rewrite Nat.max_r by done.
  destruct (Nat.eqb_spec Tr 0) as [|_]; [lia|].
  rewrite Nat.shiftl_1_l. intros [= <-].
  destruct (decide (Tr = 1)) as [->|Hne]; [done|].
  pose proof (Nat.log2_up_spec Tr ltac:(lia)) as [Hlow Hup].
  destruct (Nat.log2_up Tr) as [|k] eqn:Hk.
  - simpl in *. lia.
  - simpl in Hlow. rewrite Nat.pow_succ_r', Nat2Z.inj_mul. simpl (Z.of_nat 2).
    rewrite Z.mul_comm, Z.div_mul by lia. lia.
Qed.

(** The scores of the fixture's two frames against its one frame. *)
Lemma scores_two_against_one :
  compute_cte_correlation Fixture.two_frames Fixture.one_frame 1e-3
  = Ok [0; 1 / (1 + 1e-3)]%R.
Proof.
  unfold compute_cte_correlation. simpl.
  unfold scores_of. simpl.
  unfold irfft, num, den, rfft, sum_n, angle, Cdiv_real, Cmul, Cconj, Cabs2, entry.
  simpl.
  replace (2 * PI * 0 * 0 / (1 + 1))%R with 0%R by field.
  replace (2 * PI * 0 * 1 / (1 + 1))%R with 0%R by field.
  replace (2 * PI * 1 * 0 / (1 + 1))%R with 0%R by field.
  replace (2 * PI * 1 * 1 / (1 + 1))%R with PI by field.
  rewrite cos_0, sin_0, cos_PI, sin_PI.
  unfold mret, PyResult_ret. f_equal. f_equal; [field; lra|]. f_equal. field; lra.
Qed.

(** C10. The offset the main loop goes on with lies between 0 and [N // 2];
    from 0 on, the lookup in the reference's mapping succeeds below the
    length of the mapping and raises [IndexError] from there on.  The lookup
    is in range whenever the query has no more frames than the reference.
    With a longer query, [N // 2] can reach the reference's frame count: for a
    query of two frames, whose second one matches the single frame of the
    reference, the peak is at offset 1, the mapping has one entry, and the
    pair ends with [IndexError] instead of a result. *)
Theorem offset_lookup_can_fail :
  (∀ (scores : list R) (r_map : list Z) (delta : Z),
     best_delta scores = Ok delta →
     (0 ≤ delta ≤ Z.of_nat (length scores) / 2)%Z
     ∧ ((delta < Z.of_nat (length r_map))%Z →
          getitem r_map delta = Ok (nth (Z.to_nat delta) r_map 0%Z))
     ∧ ((Z.of_nat (length r_map) ≤ delta)%Z → getitem r_map delta = Raise IndexError))
  ∧ (∀ (q_desc r_desc : ndarray) (r_map : list Z) (scores : list R) (delta : Z),
       0 < nrows r_desc → nrows q_desc ≤ nrows r_desc →
       length r_map = nrows r_desc →
       compute_cte_correlation q_desc r_desc 1e-3 = Ok scores →
       best_delta scores = Ok delta →
       getitem r_map delta = Ok (nth (Z.to_nat delta) r_map 0%Z))
  ∧ (∃ (q_desc r_desc : ndarray) (r_map : list Z) (r_fps : Q),
       rectangular q_desc ∧ rectangular r_desc
       ∧ ncols q_desc = ncols r_desc
       ∧ nrows r_desc < nrows q_desc
       ∧ length r_map = nrows r_desc
       ∧ (∃ N, transform_length (nrows q_desc) (nrows r_desc) = Ok N
               ∧ nrows r_desc ≤ N / 2)
       ∧ (∃ scores, compute_cte_correlation q_desc r_desc 1e-3 = Ok scores
                    ∧ best_delta scores = Ok 1%Z)
       ∧ getitem r_map 1 = Raise IndexError
       ∧ align q_desc r_desc r_map r_fps = Raise IndexError).
Proof.
  split_and!.
  - intros scores r_map delta Hdelta.
    pose proof (best_delta_range _ _ Hdelta) as Hrange.
    split; [done|]. apply getitem_in_range. lia.
  - intros q_desc r_desc r_map scores delta Hpos Hle Hmap Hrun Hdelta.
    pose proof (best_delta_range _ _ Hdelta) as Hrange.
    apply getitem_in_range; [lia|].
    unfold compute_cte_correlation in Hrun.
    destruct (transform_length (nrows q_desc) (nrows r_desc)) as [N|] eqn:HN; [|done].
    pose proof (half_length_below_reference _ _ _ Hpos Hle HN) as Hhalf.
    simpl in Hrun.
    destruct (zero_pad N (ncols q_desc) q_desc) as [Qp|]; [|done]. simpl in Hrun.
    destruct (zero_pad N (ncols q_desc) r_desc) as [Rp|]; [|done]. simpl in Hrun.
    injection Hrun as <-. rewrite length_scores_of in Hrange. lia.
  - assert (best_delta [0; 1 / (1 + 1e-3)]%R = Ok 1%Z) as Hbest.
    { unfold best_delta, argmax. simpl.
      destruct (Rlt_dec 0 (1 / (1 + 1e-3))) as [_|Hn]; [done|].
      exfalso. apply Hn. apply Rdiv_lt_0_compat; lra. }
    exists Fixture.two_frames, Fixture.one_frame, [0%Z], 30%Q.
    split_and!.
    + repeat constructor.
    + repeat constructor.
    + done.
    + unfold nrows. simpl. lia.
    + done.
    + exists 2. split; [done|]. unfold nrows. simpl. lia.
    + exists [0; 1 / (1 + 1e-3)]%R. split; [apply scores_two_against_one|done].
    + done.
    + unfold align. rewrite scores_two_against_one.
      unfold mbind, PyResult_bind, py_bind. rewrite Hbest. done.
Qed.


End OrchestratorFacts.

(** ** Dimensionality reducer and descriptor extractor *)

Module ExtractorFacts.
Import Extractor Orchestrator.
Local Open Scope R_scope.

(** *** Norms *)

Lemma sum_squares_nonneg (v : list R) : 0 <= Rsum (map (λ x, x * x) v).
Proof. induction v as [|x v IH]; simpl; [lra|]. nra. Qed.

Lemma norm_nonneg (v : list R) : 0 <= norm v.
Proof. apply sqrt_pos. Qed.

Lemma norm_square (v : list R) : norm v * norm v = Rsum (map (λ x, x * x) v).
Proof. apply sqrt_sqrt, sum_squares_nonneg. Qed.

Lemma sum_squares_scaled (v : list R) (n : R) :
  n ≠ 0 →
  Rsum (map (λ x, x * x) (map (λ x, x / n) v)) = Rsum (map (λ x, x * x) v) / (n * n).
Proof.
  intros Hn. induction v as [|x v IH]; simpl.
  - unfold Rdiv. ring.
  - rewrite IH. field. done.
Qed.

(** Dividing a vector by its norm leaves a vector of norm 1. *)
Lemma norm_scaled (v : list R) :
  0 < norm v → norm (map (λ x, x / norm v) v) = 1.
Proof.
  intros Hpos. unfold norm at 1.
  rewrite sum_squares_scaled by lra.
  rewrite <- norm_square.
  replace (norm v * norm v / (norm v * norm v)) with 1 by (field; lra).
  apply sqrt_1.
Qed.

Lemma normalize_spec (raw : list R) :
  length (normalize raw) = length raw
  ∧ (1e-6 < norm raw →
       normalize raw = map (λ x, x / norm raw) raw
       ∧ norm (normalize raw) = 1
       ∧ Rabs (norm (normalize raw) - 1) <= 1e-5)
  ∧ (norm raw <= 1e-6 → normalize raw = raw).
Proof.
  unfold normalize. destruct (Rlt_dec 1e-6 (norm raw)) as [Hgt|Hle].
  - split_and!.
    + by rewrite length_map.
    + intros _. rewrite norm_scaled by lra. split_and!; [done|done|].
      replace (1 - 1) with 0 by ring. rewrite Rabs_R0. lra.
    + intros Hle. lra.
  - split_and!; [done| |done]. intros Hgt. done.
Qed.

Section ExtractorLemmas.
Context {E : External}.

(** The [i]-th vector of the second pass is the normalized raw vector of the
    [i]-th image, with the image before it as the previous frame. *)
Lemma frame_vectors_lookup pca_model pca_dim hof_bins (imgs : list Image) :
  ∀ prev_gray i img,
    imgs !! i = Some img →
    frame_vectors pca_model pca_dim hof_bins prev_gray imgs !! i
    = Some (normalize (raw_frame_vec pca_model pca_dim hof_bins
                         (match i with 0%nat => prev_gray | S j => imgs !! j end) img)).
Proof.
  induction imgs as [|a imgs IH]; intros prev_gray i img Hi; [done|].
  destruct i as [|i]; simpl in *.
  - by injection Hi as ->.
  - rewrite (IH (Some a) i img Hi). by destruct i.
Qed.

(** What [load_frame_descriptors] returns: the vectors of the second pass,
    under the model of the first. *)
Lemma load_frame_descriptors_rows imgs pca_model pca_dim fit_pca hof_bins descs pca_model' :
  load_frame_descriptors imgs pca_model pca_dim fit_pca hof_bins = Ok (descs, pca_model') →
  first_pass imgs pca_model pca_dim fit_pca = Ok pca_model'
  ∧ rows descs = frame_vectors pca_model' pca_dim hof_bins None imgs.
Proof.
  unfold load_frame_descriptors.
  destruct (first_pass imgs pca_model pca_dim fit_pca) as [m|]; [|done]. simpl.
  unfold vstack_rows.
  destruct (frame_vectors m pca_dim hof_bins None imgs) as [|v vs] eqn:Hvs; [done|].
  destruct (forallb _ _); [|done]. simpl. by intros [= <- <-].
Qed.

(** C8. The descriptor of every frame is the raw vector, appearance part then
    motion part, divided by its norm when that norm exceeds 1e-6, and then
    its norm is 1 (within 1e-5); when the norm is at most 1e-6 the descriptor
    is the raw vector as it is.  These are the rows that
    [load_frame_descriptors] returns. *)
Theorem frame_descriptor_unit_norm pca_model pca_dim hof_bins (imgs : list Image)
    (i : nat) (img : Image) :
  imgs !! i = Some img →
  ∃ raw frame_vec,
    raw = sift_vec pca_model pca_dim img
          ++ hof_vec hof_bins (match i with 0%nat => None | S j => imgs !! j end) img
    ∧ frame_vectors pca_model pca_dim hof_bins None imgs !! i = Some frame_vec
    ∧ (∀ pca_model0 fit_pca descs,
         load_frame_descriptors imgs pca_model0 pca_dim fit_pca hof_bins
         = Ok (descs, pca_model) →
         rows descs !! i = Some frame_vec)
    ∧ length frame_vec = length raw
    ∧ (1e-6 < norm raw →
         frame_vec = map (λ x, x / norm raw) raw
         ∧ norm frame_vec = 1
         ∧ Rabs (norm frame_vec - 1) <= 1e-5)
    ∧ (norm raw <= 1e-6 → frame_vec = raw).
Proof.
  intros Hi.
  pose proof (frame_vectors_lookup pca_model pca_dim hof_bins imgs None i img Hi) as Hv.
  eexists. eexists. split; [reflexivity|]. split; [exact Hv|].
  split.
  { intros pca_model0 fit_pca descs Hload.
    apply load_frame_descriptors_rows in Hload as [_ ->]. exact Hv. }
  apply normalize_spec.
Qed.

(** *** Fitting the reducer *)

Lemma PCA_fit_ok (k : nat) (X : list (list R)) :
  (0 < length X)%nat → (0 < n_features X)%nat →
  (k ≤ Nat.min (length X) (n_features X))%nat →
  ∃ m, PCA_fit k X = Ok m ∧ n_components_ m = k ∧ mean_ m = mean_axis0 X.
Proof.
  intros Hrows Hcols Hk. unfold PCA_fit.
  destruct (Nat.ltb_spec 0 (length X)); [|lia].
  destruct (Nat.ltb_spec 0 (n_features X)); [|lia].
  destruct (Nat.leb_spec k (Nat.min (length X) (n_features X))); [|lia]. simpl.
  destruct (svd_solver k _) as [axes variances]. eexists. done.
Qed.

Lemma PCA_fit_too_few (k : nat) (X : list (list R)) :
  (Nat.min (length X) (n_features X) < k)%nat → PCA_fit k X = Raise ValueError.
Proof.
  intros Hk. unfold PCA_fit.
  destruct (Nat.leb_spec k (Nat.min (length X) (n_features X))); [lia|].
  by rewrite andb_false_r.
Qed.

Lemma PCA_fit_error (k : nat) (X : list (list R)) (e : PyError) :
  PCA_fit k X = Raise e → e = ValueError.
Proof.
  unfold PCA_fit. destruct (_ && _).
  - by destruct (svd_solver k _).
  - by intros [= <-].
Qed.

(** C9, as the code has it.  Fitting on an empty pool fails with [ValueError],
    raised on stacking, and [ValueError] is the only error a fit ends with.
    A pool that is not empty is not enough: with fewer descriptors, or fewer
    features, than [pca_dim] the fit fails with [ValueError] as well.  With at
    least [pca_dim] of both, a model of output dimension [pca_dim] is
    produced, centred on the mean of the pool. *)
Theorem fit_pool_outcome (pca_dim : nat) (key_descs : list (list (list R))) :
  (key_descs = [] → fit_pool pca_dim key_descs = Raise ValueError)
  ∧ (∀ e, fit_pool pca_dim key_descs = Raise e → e = ValueError)
  ∧ (key_descs ≠ [] →
     (Nat.min (length (concat key_descs)) (n_features (concat key_descs)) < pca_dim)%nat →
     fit_pool pca_dim key_descs = Raise ValueError)
  ∧ (key_descs ≠ [] →
     (0 < length (concat key_descs))%nat → (0 < n_features (concat key_descs))%nat →
     (pca_dim ≤ Nat.min (length (concat key_descs)) (n_features (concat key_descs)))%nat →
     ∃ m, fit_pool pca_dim key_descs = Ok m
          ∧ n_components_ m = pca_dim
          ∧ mean_ m = mean_axis0 (concat key_descs))
  ∧ (∀ (imgs : list Image) pca_model,
       omap sift_detectAndCompute imgs = [] →
       first_pass imgs pca_model pca_dim true = Raise ValueError).
Proof.
  split_and!.
  - by intros ->.
  - intros e. unfold fit_pool, vstack. destruct key_descs as [|d ds].
    + by intros [= <-].
    + apply PCA_fit_error.
  - intros Hne Hk. unfold fit_pool, vstack. destruct key_descs as [|d ds]; [done|].
    by apply PCA_fit_too_few.
  - intros Hne Hrows Hcols Hk. unfold fit_pool, vstack.
    destruct key_descs as [|d ds]; [done|]. by apply PCA_fit_ok.
  - intros imgs pca_model Hnone. unfold first_pass, fit_pool. by rewrite Hnone.
Qed.

(** *** The reference's call *)

(** With [fit_pca=True] the model passed in plays no role. *)
Lemma first_pass_refits (imgs : list Image) (pca_model : option PCA) (pca_dim : nat) :
  first_pass imgs pca_model pca_dim true = first_pass imgs None pca_dim true.
Proof. reflexivity. Qed.

(** The reference's descriptors do not depend on the model of the query:
    they are extracted under a model fitted on the reference's own pool. *)
Lemma reference_descriptors_refit (imgs : list Image) (pca_model : option PCA) :
  reference_descriptors imgs pca_model = reference_descriptors imgs None
  ∧ ∀ r_desc,
      reference_descriptors imgs pca_model = Ok r_desc →
      ∃ m_ref, fit_pool 64 (omap sift_detectAndCompute imgs) = Ok m_ref
               ∧ rows r_desc = frame_vectors (Some m_ref) 64 8 None imgs.
Proof.
  split; [reflexivity|]. intros r_desc. unfold reference_descriptors.
  destruct (load_frame_descriptors imgs pca_model 64 true 8) as [[descs m]|] eqn:Hload;
    [|done].
  simpl. intros [= <-].
  apply load_frame_descriptors_rows in Hload as [Hfit Hrows].
  unfold first_pass in Hfit.
  destruct (fit_pool 64 (omap sift_detectAndCompute imgs)) as [m_ref|]; [|done].
  simpl in Hfit. injection Hfit as <-. by exists m_ref.
Qed.

End ExtractorLemmas.

(** The second of two frames of the synthetic back end, without a model. *)
Lemma frame_descriptor_unit_norm_witness :
  ([0; 1]%nat : list (@Image Fixture.synthetic)) !! 1%nat = Some 1%nat
  ∧ ∃ raw frame_vec,
      frame_vectors (E := Fixture.synthetic) None 64 8 None [0; 1]%nat !! 1%nat
      = Some frame_vec
      ∧ length frame_vec = length raw
      ∧ (1e-6 < norm raw → norm frame_vec = 1)
      ∧ (norm raw <= 1e-6 → frame_vec = raw).
Proof.
  assert (([0; 1]%nat : list (@Image Fixture.synthetic)) !! 1%nat = Some 1%nat) as H1
    by reflexivity.
  split; [exact H1|].
  destruct (frame_descriptor_unit_norm (E := Fixture.synthetic) None 64 8
              [0; 1]%nat 1%nat 1%nat H1)
    as (raw & frame_vec & _ & Hv & _ & Hlen & Hunit & Hzero).
  exists raw, frame_vec. split_and!; [exact Hv|exact Hlen| |exact Hzero].
  intros Hgt. apply Hunit. exact Hgt.
Defined.

(** A pool of 64 descriptors of width 128 and a reducer of 64 dimensions. *)
Lemma fit_pool_outcome_witness :
  ∃ m, fit_pool (E := Fixture.synthetic) 64 [replicate 64 (replicate 128 1)] = Ok m
       ∧ n_components_ m = 64%nat.
Proof.
  destruct (proj1 (proj2 (proj2 (proj2
              (fit_pool_outcome (E := Fixture.synthetic) 64
                 [replicate 64 (replicate 128 1)])))))
    as (m & Hfit & Hdim & _).
  - done.
  - simpl. lia.
  - unfold n_features. simpl. lia.
  - unfold n_features. simpl. lia.
  - exists m. split; assumption.
Defined.

(** *** The reference's call on the synthetic back end *)

Lemma Rsum_map_replicate {A} (f : A → R) (x : A) (n : nat) :
  Rsum (map f (replicate n x)) = INR n * f x.
Proof.
  induction n as [|n IH]; [simpl; ring|].
  rewrite S_INR. simpl. rewrite IH. ring.
Qed.

(** The mean of equal rows is the row: here, its first entry. *)
Lemma mean_axis0_replicate (c : R) (n m : nat) :
  hd 0 (mean_axis0 (replicate (S n) (replicate (S m) c))) = c.
Proof.
  unfold mean_axis0.
  replace (n_features (replicate (S n) (replicate (S m) c))) with (S m)
    by (unfold n_features; simpl; by rewrite length_replicate).
  rewrite length_replicate. rewrite <- cons_seq. cbn [hd map].
  rewrite Rsum_map_replicate.
  change (nth 0 (replicate (S m) c) 0) with c.
  field. apply not_0_INR. lia.
Qed.

Lemma vstack_rows_singleton (v : list R) :
  vstack_rows [v] = Ok {| ncols := length v; rows := [v] |}.
Proof. unfold vstack_rows. simpl. by rewrite Nat.eqb_refl. Qed.

Lemma Rsum_zip_zeros (l : list R) (n : nat) :
  Rsum (zip_with Rmult l (replicate n 0)) = 0.
Proof.
  revert l. induction n as [|n IH]; intros [|a l]; simpl; try done.
  rewrite IH. ring.
Qed.

Lemma zip_with_replicate {A B C} (f : A → B → C) (a : A) (b : B) (n : nat) :
  zip_with f (replicate n a) (replicate n b) = replicate n (f a b).
Proof. induction n as [|n IH]; simpl; [done|]. by rewrite IH. Qed.

Lemma map_replicate {A B} (f : A → B) (a : A) (n : nat) :
  map f (replicate n a) = replicate n (f a).
Proof. induction n as [|n IH]; simpl; [done|]. by rewrite IH. Qed.

(** On the synthetic back end, under a model whose axes are the first
    coordinate axis: the appearance vector of image [n] starts with [n] less
    the first entry of the model's mean. *)
Lemma synthetic_sift_vec_hd (m : PCA) (n img : nat) (mu0 : R) (mu : list R) :
  components_ m = replicate 64 (1 :: replicate n 0) →
  explained_variance_ m = replicate 64 1 →
  mean_ m = mu0 :: mu →
  hd 0 (sift_vec (E := Fixture.synthetic) (Some m) 64 (S img)) = INR (S img) - mu0.
Proof.
  intros Haxes Hvar Hmean. unfold sift_vec.
  change (@sift_detectAndCompute Fixture.synthetic (S img))
    with (Some (replicate 64 (replicate 128 (INR (S img))))).
  unfold PCA_transform. rewrite map_replicate, Haxes, Hvar, Hmean.
  rewrite zip_with_replicate.
  rewrite (mean_axis0_replicate _ 63 63).
  change (replicate 128 (INR (S img))) with (INR (S img) :: replicate 127 (INR (S img))).
  cbn [zip_with].
  change (Rsum (?a :: ?l)) with (a + Rsum l).
  rewrite Rsum_zip_zeros, sqrt_1. field.
Qed.

Lemma normalize_hd_zero (raw : list R) : hd 0 raw = 0 → hd 0 (normalize raw) = 0.
Proof.
  unfold normalize. destruct (Rlt_dec 1e-6 (norm raw)); [|done].
  destruct raw as [|a raw]; [done|]. simpl. intros ->. unfold Rdiv. ring.
Qed.

Lemma normalize_hd_nonzero (raw : list R) : hd 0 raw ≠ 0 → hd 0 (normalize raw) ≠ 0.
Proof.
  unfold normalize. destruct (Rlt_dec 1e-6 (norm raw)) as [Hgt|]; [|done].
  destruct raw as [|a raw]; [done|]. simpl. intros Ha.
  apply Rmult_integral_contrapositive. split; [done|].
  apply Rinv_neq_0_compat. lra.
Qed.

(** C1 fails on the code.  Query frame 1, reference frame 2: the query's call
    fits a model whose mean starts with 1; the reference's call is given that
    model and fits another one, whose mean starts with 2; the reference's
    descriptors are extracted under the second one, and they are not the
    descriptors that the query's model yields. *)
Theorem reference_call_refits_the_reducer :
  ∃ m_query m_ref : PCA,
    first_pass (E := Fixture.synthetic) [1%nat] None 64 (bool_decide (@None PCA = None))
    = Ok (Some m_query)
    ∧ first_pass (E := Fixture.synthetic) [2%nat] (Some m_query) 64 true = Ok (Some m_ref)
    ∧ hd 0 (mean_ m_query) = 1
    ∧ hd 0 (mean_ m_ref) = 2
    ∧ m_ref ≠ m_query
    ∧ (∃ r_desc,
        reference_descriptors (E := Fixture.synthetic) [2%nat] (Some m_query) = Ok r_desc
        ∧ rows r_desc = frame_vectors (E := Fixture.synthetic) (Some m_ref) 64 8 None [2%nat])
    ∧ frame_vectors (E := Fixture.synthetic) (Some m_ref) 64 8 None [2%nat]
      ≠ frame_vectors (E := Fixture.synthetic) (Some m_query) 64 8 None [2%nat].
Proof.
  assert (∀ c, hd 0 (mean_axis0 (concat [replicate 64 (replicate 128 c)])) = c) as Hmean.
  { intros c. exact (mean_axis0_replicate c 63 127). }
  assert (∀ img : nat,
            ∃ m n mu0 mu,
              first_pass (E := Fixture.synthetic) [S img] None 64 true = Ok (Some m)
              ∧ hd 0 (mean_ m) = INR (S img)
              ∧ components_ m = replicate 64 (1 :: replicate n 0)
              ∧ explained_variance_ m = replicate 64 1
              ∧ mean_ m = mu0 :: mu) as Hfit.
  { intros img. eexists _, _, _, _. split; [reflexivity|].
    split; [apply (Hmean (INR (S img)))|].
    split; [reflexivity|]. split; reflexivity. }
  destruct (Hfit 0%nat) as (m_query & nq & q0 & qs & Hq & Hq1 & Hqa & Hqv & Hqm).
  destruct (Hfit 1%nat) as (m_ref & nr & r0 & rs & Hr & Hr2 & Hra & Hrv & Hrm).
  simpl INR in Hq1, Hr2.
  exists m_query, m_ref. split_and!.
  - exact Hq.
  - by rewrite first_pass_refits.
  - exact Hq1.
  - rewrite Hr2. lra.
  - intros ->. lra.
  - eexists. split.
    + unfold reference_descriptors, load_frame_descriptors.
      rewrite first_pass_refits, Hr.
      unfold mbind at 2, PyResult_bind, py_bind.
      cbn [frame_vectors]. rewrite vstack_rows_singleton. reflexivity.
    + reflexivity.
  - cbn [frame_vectors]. intros Heq.
    apply (f_equal (λ vs, hd 0 (hd [] vs))) in Heq. cbn [hd] in Heq.
    assert (∀ m mu0 (mu : list R) n,
              components_ m = replicate 64 (1 :: replicate n 0) →
              explained_variance_ m = replicate 64 1 →
              mean_ m = mu0 :: mu →
              hd 0 (raw_frame_vec (E := Fixture.synthetic) (Some m) 64 8 None 2%nat)
              = 2 - mu0) as Hraw.
    { intros m mu0 mu n Ha Hv Hm. unfold raw_frame_vec.
      pose proof (synthetic_sift_vec_hd m n 1 mu0 mu Ha Hv Hm) as Hhd.
      destruct (sift_vec (E := Fixture.synthetic) (Some m) 64 2%nat) as [|a l] eqn:Hs.
      - exfalso. revert Hs. unfold sift_vec.
        change (@sift_detectAndCompute Fixture.synthetic 2%nat)
          with (Some (replicate 64 (replicate 128 (INR 2)))).
        unfold PCA_transform, mean_axis0, n_features.
        rewrite Ha, Hv. done.
      - simpl in *. lra. }
    rewrite Hrm in Hr2. rewrite Hqm in Hq1. simpl in Hr2, Hq1. subst r0 q0.
    rewrite (normalize_hd_zero _) in Heq
      by (rewrite (Hraw m_ref _ _ _ Hra Hrv Hrm); lra).
    symmetry in Heq. revert Heq. apply normalize_hd_nonzero.
    rewrite (Hraw m_query _ _ _ Hqa Hqv Hqm). lra.
Qed.

(** C9, as the specification has it, fails: a pool that holds one descriptor
    is not empty, and fitting 64 dimensions on it raises [ValueError]. *)
Lemma fit_fails_on_small_pool :
  [[replicate 128 1]] ≠ []
  ∧ concat [[replicate 128 1]] ≠ []
  ∧ fit_pool (E := Fixture.synthetic) 64 [[replicate 128 1]] = Raise ValueError.
Proof. split_and!; [done|done|reflexivity]. Qed.

End ExtractorFacts.

(** ** The main loop *)

Module MainLoopFacts.
Import Sampler Extractor Correlation Orchestrator.
Section MainLoopLemmas.
Context {E : External}.

Lemma match_query_to_reference_inv video_file pca target_fps max_pixels w r w' :
  match_query_to_reference video_file pca target_fps max_pixels w = (Ok r, w') →
  ∃ fps step indices,
    extract_frames video_file (get_out_folder (basename video_file)) target_fps max_pixels w
    = (Ok (fps, step, indices), w')
    ∧ r = (get_out_folder (basename video_file), pca, fps, step, indices).
Proof.
  unfold match_query_to_reference.
  destruct (extract_frames _ _ _ _ _) as [[[[fps step] indices]|e] w1]; simpl.
  - intros [= <- <-]. by exists fps, step, indices.
  - done.
Qed.

(** The query's call fits a model only when there is none. *)
Lemma query_descriptors_keeps_model imgs (m : PCA) q_desc pca :
  query_descriptors imgs (Some m) = Ok (q_desc, pca) → pca = Some m.
Proof.
  unfold query_descriptors, load_frame_descriptors. simpl.
  destruct (vstack_rows _) as [descs|]; simpl; [|done]. by intros [= _ <-].
Qed.

(** One turn of the loop, step by step. *)
Lemma process_pair_inv idx s s' :
  process_pair idx s = Ok s' →
  ∃ q_folder q_fps q_step q_map w1 q_desc pca r_folder r_fps r_step r_map r_desc
    orig_frame orig_time,
    match_query_to_reference ("train/task1/" +:+ pad2 idx +:+ "_query.mp4")
      (pca_model s) 20 180000 (world s)
    = (Ok (q_folder, pca_model s, q_fps, q_step, q_map), w1)
    ∧ query_descriptors (glob_frames q_folder w1) (pca_model s) = Ok (q_desc, pca)
    ∧ match_query_to_reference ("train/task1/" +:+ pad2 idx +:+ "_reference.mp4")
        pca 20 180000 w1
      = (Ok (r_folder, pca, r_fps, r_step, r_map), world s')
    ∧ reference_descriptors (glob_frames r_folder (world s')) pca = Ok r_desc
    ∧ align q_desc r_desc r_map r_fps = Ok (orig_frame, orig_time)
    ∧ pca_model s' = pca
    ∧ results s' = results s ++ [(idx, orig_frame, orig_time)].
Proof.
  unfold process_pair.
  destruct (match_query_to_reference _ (pca_model s) _ _ _) as [q w1] eqn:Hq.
  destruct q as [[[[[q_folder pca0] q_fps] q_step] q_map]|]; simpl; [|done].
  pose proof Hq as Hq'.
  apply match_query_to_reference_inv in Hq' as (? & ? & ? & _ & [= -> <- -> -> ->]).
  destruct (query_descriptors _ _) as [[q_desc pca]|] eqn:Hqd; simpl; [|done].
  destruct (match_query_to_reference _ pca _ _ _) as [r w2] eqn:Hr.
  destruct r as [[[[[r_folder pca1] r_fps] r_step] r_map]|]; simpl; [|done].
  pose proof Hr as Hr'.
  apply match_query_to_reference_inv in Hr' as (? & ? & ? & _ & [= -> <- -> -> ->]).
  destruct (reference_descriptors _ _) as [r_desc|] eqn:Hrd; simpl; [|done].
  destruct (align _ _ _ _) as [[orig_frame orig_time]|] eqn:Halign; simpl; [|done].
  intros [= <-]. simpl.
  by eexists _, _, _, _, _, _, _, _, _, _, _, _, _, _.
Qed.

(** Once a model is there, a turn of the loop leaves it in place: the
    reference's call returns its own model, and the loop drops it. *)
Lemma process_pair_keeps_model idx s s' (m : PCA) :
  process_pair idx s = Ok s' → pca_model s = Some m → pca_model s' = Some m.
Proof.
  intros Hrun Hm.
  apply process_pair_inv in Hrun
    as (? & ? & ? & ? & ? & q_desc & pca & ? & ? & ? & ? & ? & ? & ? & _ & Hqd & _ & _ & _ & -> & _).
  rewrite Hm in Hqd. by apply query_descriptors_keeps_model in Hqd.
Qed.

(** Whatever model the loop holds, the reference's descriptors in a turn are
    extracted under a model fitted on the reference's own frames. *)
Lemma process_pair_refits_on_reference idx s s' :
  process_pair idx s = Ok s' →
  ∃ r_folder r_desc m_ref,
    fit_pool 64 (omap sift_detectAndCompute (glob_frames r_folder (world s'))) = Ok m_ref
    ∧ rows r_desc = frame_vectors (Some m_ref) 64 8 None (glob_frames r_folder (world s')).
Proof.
  intros Hrun.
  apply process_pair_inv in Hrun
    as (? & ? & ? & ? & ? & ? & pca & r_folder & ? & ? & ? & r_desc & ? & ?
        & _ & _ & _ & Hrd & _).
  apply ExtractorFacts.reference_descriptors_refit in Hrd as (m_ref & Hfit & Hrows).
  by exists r_folder, r_desc, m_ref.
Qed.

End MainLoopLemmas.
End MainLoopFacts.

(** ** More on the frame sampler *)

Module SamplerMore.
Import Sampler Invariants SamplerFacts.
Section SamplerMoreLemmas.
Context {E : External}.

(** Python's [round] stays within one half of its argument. *)
Lemma py_round_near (q : Q) :
  (q - (1 # 2) <= inject_Z (py_round q) <= q + (1 # 2))%Q.
Proof.
  unfold py_round.
  pose proof (Qfloor_le q) as Hlo. pose proof (Qlt_floor q) as Hhi.
  rewrite inject_Z_plus in Hhi. change (inject_Z 1) with 1%Q in Hhi.
  destruct (Qcompare_spec (q - inject_Z (Qfloor q)) (1 # 2)) as [Heq|Hlt|Hgt].
  - destruct (Z.even (Qfloor q)); rewrite ?inject_Z_plus;
      change (inject_Z 1) with 1%Q; Lqa.lra.
  - Lqa.lra.
  - rewrite inject_Z_plus. change (inject_Z 1) with 1%Q. Lqa.lra.
Qed.

Lemma inject_Z_lt_inv (a b : Z) : (inject_Z a < inject_Z b)%Q → (a < b)%Z.
Proof. by rewrite <- Zlt_Qlt. Qed.

Lemma inject_Z_le_inv (a b : Z) : (inject_Z a <= inject_Z b)%Q → (a ≤ b)%Z.
Proof. by rewrite <- Zle_Qle. Qed.

(** The integer part of a number between two integers that follow each other. *)
Lemma Qfloor_between (q : Q) (n : Z) :
  (inject_Z n <= q)%Q → (q < inject_Z n + 1)%Q → Qfloor q = n.
Proof.
  intros Hlo Hhi.
  pose proof (Qfloor_le q) as Hf. pose proof (Qlt_floor q) as Hg.
  rewrite inject_Z_plus in Hg. change (inject_Z 1) with 1%Q in Hg.
  assert (Qfloor q < n + 1)%Z.
  { apply inject_Z_lt_inv. rewrite inject_Z_plus.
    change (inject_Z 1) with 1%Q. Lqa.lra. }
  assert (n < Qfloor q + 1)%Z.
  { apply inject_Z_lt_inv. rewrite inject_Z_plus.
    change (inject_Z 1) with 1%Q. Lqa.lra. }
  lia.
Qed.

(** Python's [round]: the nearest integer, and of two nearest ones the even one. *)
Lemma py_round_nearest (q : Q) (n : Z) :
  ((inject_Z n - (1 # 2) < q)%Q → (q < inject_Z n + (1 # 2))%Q → py_round q = n)
  ∧ ((q == inject_Z n + (1 # 2))%Q → py_round q = if Z.even n then n else (n + 1)%Z).
Proof.
  split.
  - intros Hlo Hhi. unfold py_round.
    destruct (Qlt_le_dec q (inject_Z n)) as [Hbelow|Habove].
    + assert (Qfloor q = (n - 1)%Z) as ->.
      { apply Qfloor_between.
        - unfold Z.sub. rewrite inject_Z_plus, inject_Z_opp.
          change (inject_Z 1) with 1%Q. Lqa.lra.
        - unfold Z.sub. rewrite inject_Z_plus, inject_Z_opp.
          change (inject_Z 1) with 1%Q. Lqa.lra. }
      destruct (Qcompare_spec (q - inject_Z (n - 1)) (1 # 2)) as [Heq|Hlt|Hgt].
      * revert Heq. unfold Z.sub. rewrite inject_Z_plus, inject_Z_opp.
        change (inject_Z 1) with 1%Q. intros Heq. Lqa.lra.
      * revert Hlt. unfold Z.sub. rewrite inject_Z_plus, inject_Z_opp.
        change (inject_Z 1) with 1%Q. intros Hlt. Lqa.lra.
      * lia.
    + assert (Qfloor q = n) as ->.
      { apply Qfloor_between; [done|]. Lqa.lra. }
      destruct (Qcompare_spec (q - inject_Z n) (1 # 2)) as [Heq|Hlt|Hgt].
      * Lqa.lra.
      * done.
      * Lqa.lra.
  - intros Htie. unfold py_round.
    assert (Qfloor q = n) as ->.
    { apply Qfloor_between; Lqa.lra. }
    destruct (Qcompare_spec (q - inject_Z n) (1 # 2)) as [Heq|Hlt|Hgt].
    + done.
    + Lqa.lra.
    + Lqa.lra.
Qed.

(** X1. Line 79 raises [ZeroDivisionError] on a target rate of 0.  On any
    other it yields the ratio of the two frame rates, rounded as Python
    rounds and raised to 1 where it is less: for a ratio nearer to the
    integer [n] than to any other the step is [max(n, 1)]; for a ratio half
    way between [n] and [n + 1] it is the even one of the two, raised to 1;
    so it lies within one half of every ratio from 1/2 on. *)
Theorem sampling_step_rounds (fps : Q) (target_fps : Z) :
  (target_fps = 0%Z → sampling_step fps target_fps = Raise ZeroDivisionError)
  ∧ (target_fps ≠ 0%Z →
     ∃ step,
       sampling_step fps target_fps = Ok step
       ∧ (1 ≤ step)%Z
       ∧ (∀ n, (inject_Z n - (1 # 2) < fps / inject_Z target_fps)%Q →
               (fps / inject_Z target_fps < inject_Z n + (1 # 2))%Q →
               step = Z.max n 1)
       ∧ (∀ n, (fps / inject_Z target_fps == inject_Z n + (1 # 2))%Q →
               step = Z.max (if Z.even n then n else n + 1) 1)
       ∧ ((1 # 2 <= fps / inject_Z target_fps)%Q →
          (fps / inject_Z target_fps - (1 # 2) <= inject_Z step
           <= fps / inject_Z target_fps + (1 # 2))%Q)).
Proof.
  split.
  - intros ->. reflexivity.
  - intros Hne. rewrite (sampling_step_ok fps target_fps Hne).
    eexists. split; [done|].
    set (q := (fps / inject_Z target_fps)%Q).
    pose proof (py_round_near q) as [Hlo Hhi].
    split_and!.
    + lia.
    + intros n H1 H2. by rewrite (proj1 (py_round_nearest q n) H1 H2).
    + intros n Htie. by rewrite (proj2 (py_round_nearest q n) Htie).
    + intros Hge.
      assert (0 ≤ py_round q)%Z
        by (apply inject_Z_le_inv; change (inject_Z 0) with 0%Q; Lqa.lra).
      destruct (Z.max_spec (py_round q) 1) as [[Hlt ->]|[Hle ->]].
      * assert (py_round q = 0)%Z as H0 by lia.
        rewrite H0 in Hlo, Hhi. change (inject_Z 0) with 0%Q in *.
        change (inject_Z 1) with 1%Q. Lqa.lra.
      * Lqa.lra.
Qed.


(** A call that fails stores no mapping. *)
Lemma extract_frames_raise_mappings video_path output_folder target_fps max_pixels w e :
  (extract_frames video_path output_folder target_fps max_pixels w).1 = Raise e →
  mapping_files (extract_frames video_path output_folder target_fps max_pixels w).2
  = mapping_files w.
Proof.
  unfold extract_frames.
  destruct (mapping_files w !! output_folder) as [data|]; [done|].
  destruct (video_files w !! video_path) as [cap|]; [|done].
  destruct (sampling_step _ _) as [step|]; [|done].
  destruct (read_frames _ _ _ _ _ _ _ _) as [[[indices saved]|e'] w1] eqn:Hloop; [done|].
  intros _. simpl. by apply read_frames_raise in Hloop as (_ & _ & _ & _ & _ & _ & _ & ? & _).
Qed.

(** What a call leaves untouched, and what it reads when it returns. *)
Lemma extract_frames_effects video_path output_folder target_fps max_pixels w :
  video_files (extract_frames video_path output_folder target_fps max_pixels w).2
  = video_files w
  ∧ (∀ folder, folder ≠ output_folder →
       mapping_files (extract_frames video_path output_folder target_fps max_pixels w).2
         !! folder
       = mapping_files w !! folder)
  ∧ (∀ folder i, folder ≠ output_folder →
       frame_files (extract_frames video_path output_folder target_fps max_pixels w).2
         !! (folder, i)
       = frame_files w !! (folder, i))
  ∧ (∀ cap result, mapping_files w !! output_folder = None →
       video_files w !! video_path = Some cap →
       (extract_frames video_path output_folder target_fps max_pixels w).1 = Ok result →
       cap_reads (extract_frames video_path output_folder target_fps max_pixels w).2
       = cap_reads w + length (cap_frames cap) + 1).
Proof.
  unfold extract_frames.
  destruct (mapping_files w !! output_folder) as [data|] eqn:Hdata; simpl.
  { split_and!; try done. }
  destruct (video_files w !! video_path) as [cap|] eqn:Hcap; simpl.
  2: { split_and!; try done. }
  set (fps := if Qeq_bool (cap_fps cap) 0 then inject_Z target_fps else cap_fps cap).
  destruct (sampling_step fps target_fps) as [step|e] eqn:Hs; simpl.
  2: { split_and!; try done. }
  apply sampling_step_inv in Hs as (_ & _ & Hstep).
  destruct (read_frames output_folder step max_pixels (cap_frames cap) 0 0 [] w)
    as [[[indices saved]|e] w1] eqn:Hloop; simpl.
  - apply (read_frames_spec _ _ _ _ Hstep) in Hloop
      as (_ & _ & _ & Hv & Hm & Hr & _ & Hold); [|done|simpl; lia].
    split_and!.
    + done.
    + intros folder Hne'. rewrite lookup_insert_ne by done. by rewrite Hm.
    + intros folder i Hne'. apply Hold. simpl. by intros [? _].
    + intros cap' result _ [= <-] _. done.
  - apply read_frames_raise in Hloop
      as (_ & _ & _ & _ & _ & _ & Hv & Hm & _ & Hother).
    split_and!.
    + done.
    + intros folder _. by rewrite Hm.
    + intros folder i Hne'. by apply Hother.
    + done.
Qed.


(** X4. A call, whether it returns or fails, changes nothing outside its own
    output folder: the videos, and the mappings and frame files of every
    other folder, stay as they were.  When it decodes and returns, it has
    read each frame once, and once more to find the end. *)
Theorem extract_frames_touches_own_folder video_path output_folder target_fps max_pixels w :
  video_files (extract_frames video_path output_folder target_fps max_pixels w).2
  = video_files w
  ∧ (∀ folder, folder ≠ output_folder →
       mapping_files (extract_frames video_path output_folder target_fps max_pixels w).2
         !! folder
       = mapping_files w !! folder)
  ∧ (∀ folder i, folder ≠ output_folder →
       frame_files (extract_frames video_path output_folder target_fps max_pixels w).2
         !! (folder, i)
       = frame_files w !! (folder, i))
  ∧ (∀ cap result, mapping_files w !! output_folder = None →
       video_files w !! video_path = Some cap →
       (extract_frames video_path output_folder target_fps max_pixels w).1 = Ok result →
       cap_reads (extract_frames video_path output_folder target_fps max_pixels w).2
       = cap_reads w + length (cap_frames cap) + 1).
Proof. apply extract_frames_effects. Qed.

(** Mappings as the loop writes them are well formed. *)
Lemma fresh_mapping_ok video_path output_folder target_fps max_pixels w fps step indices w' :
  mapping_files w !! output_folder = None →
  extract_frames video_path output_folder target_fps max_pixels w
  = (Ok (fps, step, indices), w') →
  mapping_ok fps step indices.
Proof.
  intros Hnone. unfold extract_frames. rewrite Hnone.
  destruct (video_files w !! video_path) as [cap|]; [|done].
  destruct (sampling_step _ _) as [step0|] eqn:Hs; [|done].
  apply sampling_step_inv in Hs as (Hne & _ & Hstep).
  destruct (read_frames _ _ _ _ _ _ _ _) as [[[indices0 saved]|] w1] eqn:Hloop; [|done].
  intros [= <- <- <- <-].
  apply (read_frames_spec _ _ _ _ Hstep) in Hloop
    as (Hidx & _); [|done|simpl; lia].
  split_and!.
  - done.
  - destruct (Qeq_bool (cap_fps cap) 0) eqn:Hz.
    + intros Heq. apply Hne. unfold Qeq in Heq. simpl in Heq. lia.
    + by apply Qeq_bool_neq.
  - rewrite Hidx at 1. by rewrite Hidx, length_map, length_seq.
Qed.

(** A call keeps the stored mappings well formed, and returns one that is. *)
Lemma extract_frames_store_ok video_path output_folder target_fps max_pixels w :
  store_ok w →
  store_ok (extract_frames video_path output_folder target_fps max_pixels w).2
  ∧ ∀ fps step indices,
      (extract_frames video_path output_folder target_fps max_pixels w).1
      = Ok (fps, step, indices) →
      mapping_ok fps step indices.
Proof.
  intros Hok.
  destruct (mapping_files w !! output_folder) as [data|] eqn:Hdata.
  - rewrite (extract_frames_cached _ _ _ _ _ _ Hdata). simpl. split; [done|].
    intros fps step indices [= <- <- <-]. by eapply Hok.
  - destruct (extract_frames video_path output_folder target_fps max_pixels w)
      as [[[[fps step] indices]|e] w'] eqn:Hrun; simpl.
    + pose proof (fresh_mapping_ok _ _ _ _ _ _ _ _ _ Hdata Hrun) as Hfresh.
      split; [|by intros ? ? ? [= <- <- <-]].
      intros folder data Hlook.
      destruct (decide (folder = output_folder)) as [->|Hne].
      * apply extract_frames_stores in Hrun as (data' & Hdata' & <- & <- & <-).
        rewrite Hdata' in Hlook. by injection Hlook as <-.
      * pose proof (proj1 (proj2 (extract_frames_effects
                      video_path output_folder target_fps max_pixels w)) folder Hne) as Hsame.
        rewrite Hrun in Hsame. simpl in Hsame. rewrite Hsame in Hlook. by eapply Hok.
    + split; [|done].
      pose proof (extract_frames_raise_mappings
                    video_path output_folder target_fps max_pixels w e) as Hw.
      rewrite Hrun in Hw. simpl in Hw.
      intros folder data Hlook. rewrite Hw in Hlook by done. by eapply Hok.
Qed.

(** X5. Well-formedness of the stored mappings is an invariant of the
    sampler: if every stored mapping has a step of at least 1, a frame rate
    other than 0 and the multiples of its step as indices, then so has the
    mapping a call returns, and so has every mapping stored after the call. *)
Theorem extract_frames_keeps_store_ok video_path output_folder target_fps max_pixels w :
  store_ok w →
  store_ok (extract_frames video_path output_folder target_fps max_pixels w).2
  ∧ ∀ fps step indices,
      (extract_frames video_path output_folder target_fps max_pixels w).1
      = Ok (fps, step, indices) →
      mapping_ok fps step indices.
Proof. apply extract_frames_store_ok. Qed.

End SamplerMoreLemmas.


(** The synthetic disk, which stores no mapping yet, and the clip sampled into it. *)
Lemma extract_frames_keeps_store_ok_witness :
  store_ok Fixture.disk
  ∧ store_ok (extract_frames (E := Fixture.synthetic) "clip.mp4" "frames/other/vid_unknown"
                15 120000 Fixture.disk).2.
Proof.
  assert (store_ok Fixture.disk) as H1 by (intros folder data Hdata; done).
  split; [exact H1|].
  exact (proj1 (extract_frames_keeps_store_ok (E := Fixture.synthetic)
                  "clip.mp4" "frames/other/vid_unknown" 15 120000 Fixture.disk H1)).
Defined.

End SamplerMore.

(** ** More on the descriptor extractor *)

Module ExtractorMore.
Import Extractor CorrelationFacts ExtractorFacts.
Local Open Scope R_scope.

Lemma Rsum_map_scale (l : list R) (c : R) :
  Rsum (map (λ x, x / c) l) = Rsum l / c.
Proof.
  induction l as [|x l IH]; simpl; [unfold Rdiv; ring|].
  rewrite IH. unfold Rdiv. ring.
Qed.

Lemma Rsum_nonneg (l : list R) : (∀ x, In x l → 0 <= x) → 0 <= Rsum l.
Proof.
  intros Hl. rewrite <- (map_id l). apply Rsum_map_nonneg. exact Hl.
Qed.

Lemma Rsum_ge_each (l : list R) (x : R) :
  (∀ y, In y l → 0 <= y) → In x l → x <= Rsum l.
Proof.
  induction l as [|a l IH]; intros Hl Hx; [done|]. simpl.
  assert (0 <= a) by (apply Hl; by left).
  assert (0 <= Rsum l) by (apply Rsum_nonneg; intros y Hy; apply Hl; by right).
  destruct Hx as [->|Hx]; [lra|].
  assert (x <= Rsum l) by (apply IH; [intros y Hy; apply Hl; by right|done]).
  lra.
Qed.

Lemma Rsum_zero_all (l : list R) :
  (∀ y, In y l → 0 <= y) → Rsum l <= 0 → ∀ x, In x l → x = 0.
Proof.
  intros Hl Hsum x Hx.
  pose proof (Rsum_ge_each l x Hl Hx). pose proof (Hl x Hx). lra.
Qed.

Section ExtractorMoreLemmas.
Context {E : External}.

Lemma length_compute_hof_for_frame (prev_gray gray : Image) (num_bins : nat) :
  length (compute_hof_for_frame prev_gray gray num_bins)
  = length (flow_histogram prev_gray gray num_bins).
Proof.
  unfold compute_hof_for_frame. destruct (Rlt_dec _ _); [|done]. by rewrite length_map.
Qed.

(** X6. The motion histogram of a frame has the length of the raw one.  When
    the raw bins sum to more than 0 it is the raw histogram divided by that
    sum, and sums to 1; otherwise it is the raw histogram as it is.  When no
    raw bin is negative, each bin of the result lies between 0 and 1, and a
    histogram that is not rescaled is zero in every bin. *)
Theorem compute_hof_for_frame_sums_to_1 (prev_gray gray : Image) (num_bins : nat) :
  length (compute_hof_for_frame prev_gray gray num_bins)
  = length (flow_histogram prev_gray gray num_bins)
  ∧ (0 < Rsum (flow_histogram prev_gray gray num_bins) →
       compute_hof_for_frame prev_gray gray num_bins
       = map (λ x, x / Rsum (flow_histogram prev_gray gray num_bins))
           (flow_histogram prev_gray gray num_bins)
       ∧ Rsum (compute_hof_for_frame prev_gray gray num_bins) = 1)
  ∧ (Rsum (flow_histogram prev_gray gray num_bins) <= 0 →
       compute_hof_for_frame prev_gray gray num_bins
       = flow_histogram prev_gray gray num_bins)
  ∧ ((∀ x, In x (flow_histogram prev_gray gray num_bins) → 0 <= x) →
       (∀ y, In y (compute_hof_for_frame prev_gray gray num_bins) → 0 <= y <= 1)
       ∧ (Rsum (flow_histogram prev_gray gray num_bins) <= 0 →
            ∀ y, In y (compute_hof_for_frame prev_gray gray num_bins) → y = 0)).
Proof.
  unfold compute_hof_for_frame.
  set (hof := flow_histogram prev_gray gray num_bins).
  destruct (Rlt_dec 0 (Rsum hof)) as [Hpos|Hle].
  - split_and!.
    + by rewrite length_map.
    + intros _. split; [done|]. rewrite Rsum_map_scale. field. lra.
    + intros Hsum. lra.
    + intros Hnonneg. split; [|intros Hsum; lra].
      intros y (x & <- & Hx)%in_map_iff.
      pose proof (Hnonneg x Hx). pose proof (Rsum_ge_each hof x Hnonneg Hx).
      split.
      * apply Rmult_le_pos; [done|]. left. by apply Rinv_0_lt_compat.
      * apply (Rmult_le_reg_r (Rsum hof)); [done|].
        unfold Rdiv. rewrite Rmult_assoc, Rinv_l by lra. lra.
  - split_and!; [done|intros Hpos; lra|done|].
    intros Hnonneg.
    assert (∀ y, In y hof → y = 0) as Hzero
      by (apply Rsum_zero_all; [done|lra]).
    split; [|done]. intros y Hy. rewrite (Hzero y Hy). lra.
Qed.

Lemma length_normalize (raw : list R) : length (normalize raw) = length raw.
Proof. apply normalize_spec. Qed.

Lemma length_frame_vectors pca_model pca_dim hof_bins (imgs : list Image) :
  ∀ prev_gray, length (frame_vectors pca_model pca_dim hof_bins prev_gray imgs) = length imgs.
Proof. induction imgs as [|img imgs IH]; intros prev_gray; simpl; [done|]. by rewrite IH. Qed.

Lemma vstack_rows_spec (vs : list (list R)) :
  match vstack_rows vs with
  | Ok a => rows a = vs ∧ vs ≠ [] ∧ rectangular a ∧ ncols a = length (hd [] vs)
  | Raise e => e = ValueError
  end.
Proof.
  unfold vstack_rows. destruct vs as [|v vs]; [done|].
  destruct (forallb _ _) eqn:Hall; [|done].
  split_and!; try done.
  unfold rectangular. simpl rows. simpl ncols.
  apply List.Forall_forall. intros u Hu.
  rewrite forallb_forall in Hall. by apply Nat.eqb_eq, Hall.
Qed.

Lemma fit_pool_error pca_dim key_descs e :
  fit_pool pca_dim key_descs = Raise e → e = ValueError.
Proof.
  unfold fit_pool, vstack. destruct key_descs as [|d ds].
  - by intros [= <-].
  - apply PCA_fit_error.
Qed.

Lemma first_pass_error imgs pca_model pca_dim fit_pca e :
  first_pass imgs pca_model pca_dim fit_pca = Raise e → e = ValueError.
Proof.
  unfold first_pass. destruct fit_pca; [|done].
  destruct (fit_pool pca_dim (omap sift_detectAndCompute imgs)) as [m|e'] eqn:Hfit;
    simpl; [done|].
  intros [= <-]. by apply fit_pool_error in Hfit.
Qed.

(** X7. When [load_frame_descriptors] returns, its array has one row per
    image, at least one, and every row has the width of the array; when it
    fails, it fails with [ValueError]; and on a folder without frames it
    fails, whatever the other arguments. *)
Theorem load_frame_descriptors_shape (imgs : list Image) pca_model pca_dim fit_pca hof_bins :
  (∀ descs pca_model',
     load_frame_descriptors imgs pca_model pca_dim fit_pca hof_bins = Ok (descs, pca_model') →
     nrows descs = length imgs ∧ (0 < nrows descs)%nat ∧ rectangular descs)
  ∧ (∀ e, load_frame_descriptors imgs pca_model pca_dim fit_pca hof_bins = Raise e →
          e = ValueError)
  ∧ (imgs = [] →
     load_frame_descriptors imgs pca_model pca_dim fit_pca hof_bins = Raise ValueError).
Proof.
  unfold load_frame_descriptors. split_and!.
  - intros descs pca_model'.
    destruct (first_pass imgs pca_model pca_dim fit_pca) as [m|]; simpl; [|done].
    pose proof (vstack_rows_spec (frame_vectors m pca_dim hof_bins None imgs)) as Hv.
    destruct (vstack_rows _) as [a|]; simpl; [|done].
    intros [= <- <-]. destruct Hv as (Hrows & Hne & Hrect & _).
    assert (nrows a = length imgs) as Hlen
      by (unfold nrows; rewrite Hrows; apply length_frame_vectors).
    split_and!; [done| |done].
    rewrite Hlen. destruct imgs; [done|simpl; lia].
  - intros e.
    destruct (first_pass imgs pca_model pca_dim fit_pca) as [m|e'] eqn:Hfirst; simpl.
    + pose proof (vstack_rows_spec (frame_vectors m pca_dim hof_bins None imgs)) as Hv.
      destruct (vstack_rows _) as [a|e'']; simpl; [done|]. by intros [= <-].
    + intros [= <-]. by apply first_pass_error in Hfirst.
  - intros ->.
    destruct (first_pass [] pca_model pca_dim fit_pca) as [m|e'] eqn:Hfirst; simpl; [done|].
    by apply first_pass_error in Hfirst as ->.
Qed.

(** The width of an appearance vector under a model with [pca_dim] axes. *)
Lemma length_sift_vec (m : PCA) (pca_dim : nat) (img : Image) :
  length (components_ m) = pca_dim → length (explained_variance_ m) = pca_dim →
  (∀ des, sift_detectAndCompute img = Some des → des ≠ []) →
  length (sift_vec (Some m) pca_dim img) = pca_dim.
Proof.
  intros Hc Hv Hne. unfold sift_vec.
  destruct (sift_detectAndCompute img) as [des|] eqn:Hdes; [|apply length_replicate].
  specialize (Hne des eq_refl). destruct des as [|x des]; [done|].
  unfold mean_axis0, n_features, PCA_transform.
  rewrite length_map, length_seq. simpl hd.
  rewrite length_zip_with. lia.
Qed.

(** A model that a fit returns has as many axes as the solver gave. *)
Lemma fit_pool_axes pca_dim key_descs (m : PCA) :
  (∀ k X, length (svd_solver k X).1 = k ∧ length (svd_solver k X).2 = k) →
  fit_pool pca_dim key_descs = Ok m →
  n_components_ m = pca_dim
  ∧ length (components_ m) = pca_dim ∧ length (explained_variance_ m) = pca_dim.
Proof.
  intros Hsvd. unfold fit_pool.
  destruct (vstack key_descs) as [X|]; simpl; [|done].
  unfold PCA_fit. destruct (_ && _); [|done].
  pose proof (Hsvd pca_dim (map (λ x, zip_with Rminus x (mean_axis0 X)) X)) as [Ha Hv].
  destruct (svd_solver pca_dim _) as [axes variances]. by intros [= <-].
Qed.

Lemma length_hof_vec hof_bins prev_gray (img : Image) :
  (∀ p g n, length (flow_histogram p g n) = n) →
  length (hof_vec hof_bins prev_gray img) = hof_bins.
Proof.
  intros Hflow. unfold hof_vec. destruct prev_gray as [prev|]; [|apply length_replicate].
  rewrite length_compute_hof_for_frame. apply Hflow.
Qed.

(** X8. Where the externals keep their contracts (the solver returns as many
    axes and variances as it is asked for, SIFT returns no empty set of
    descriptors, the flow histogram has [num_bins] bins), a call that fits
    succeeds whenever there is a frame and the fit succeeds; the array it
    returns has one row per frame and the width [pca_dim + hof_bins], and the
    model it returns is the fitted one. *)
Theorem load_frame_descriptors_after_fit (imgs : list Image) pca_model pca_dim hof_bins
    (m : PCA) :
  (∀ k X, length (svd_solver k X).1 = k ∧ length (svd_solver k X).2 = k) →
  (∀ img des, sift_detectAndCompute img = Some des → des ≠ []) →
  (∀ p g n, length (flow_histogram p g n) = n) →
  imgs ≠ [] →
  fit_pool pca_dim (omap sift_detectAndCompute imgs) = Ok m →
  ∃ descs,
    load_frame_descriptors imgs pca_model pca_dim true hof_bins = Ok (descs, Some m)
    ∧ nrows descs = length imgs
    ∧ ncols descs = (pca_dim + hof_bins)%nat
    ∧ rectangular descs.
Proof.
  intros Hsvd Hsift Hflow Hne Hfit.
  destruct (fit_pool_axes _ _ _ Hsvd Hfit) as (_ & Ha & Hv).
  unfold load_frame_descriptors, first_pass. rewrite Hfit. simpl.
  assert (∀ prev_gray l,
            Forall (λ row, length row = (pca_dim + hof_bins)%nat)
              (frame_vectors (Some m) pca_dim hof_bins prev_gray l)) as Hrows.
  { intros prev_gray l. revert prev_gray.
    induction l as [|img l IH]; intros prev_gray; simpl; constructor; [|apply IH].
    rewrite length_normalize. unfold raw_frame_vec.
    rewrite length_app, (length_sift_vec m), length_hof_vec by (done || apply Hsift).
    done. }
  destruct imgs as [|img imgs]; [done|].
  specialize (Hrows None (img :: imgs)).
  unfold vstack_rows.
  destruct (frame_vectors (Some m) pca_dim hof_bins None (img :: imgs))
    as [|v vs] eqn:Hvs; [done|].
  assert (length v = (pca_dim + hof_bins)%nat) as Hv0
    by (by apply List.Forall_inv in Hrows).
  assert (forallb (λ u, length u =? length v)%nat (v :: vs) = true) as ->.
  { apply forallb_forall. intros u Hu. apply Nat.eqb_eq. rewrite Hv0.
    rewrite List.Forall_forall in Hrows. by apply Hrows. }
  simpl. eexists. split; [done|]. simpl.
  split_and!.
  - unfold nrows. simpl rows. rewrite <- Hvs. apply length_frame_vectors.
  - done.
  - unfold rectangular. simpl. by rewrite Hv0.
Qed.

End ExtractorMoreLemmas.

(** Two frames of the synthetic back end, 64 dimensions and 8 bins. *)
Lemma load_frame_descriptors_after_fit_witness :
  ∃ descs (m : PCA),
    load_frame_descriptors (E := Fixture.synthetic) [1; 2]%nat None 64 true 8
    = Ok (descs, Some m)
    ∧ nrows descs = 2%nat
    ∧ ncols descs = 72%nat.
Proof.
  assert (∀ k X, length (svd_solver (External := Fixture.synthetic) k X).1 = k
                 ∧ length (svd_solver (External := Fixture.synthetic) k X).2 = k) as H1
    by (intros k X; simpl; by rewrite !length_replicate).
  assert (∀ (img : @Image Fixture.synthetic) des,
            sift_detectAndCompute img = Some des → des ≠ []) as H2
    by (intros [|img] des; [done|]; by intros [= <-]).
  assert (∀ (p g : @Image Fixture.synthetic) n,
            length (flow_histogram p g n) = n) as H3
    by (intros p g n; apply length_replicate).
  assert (([1; 2]%nat : list (@Image Fixture.synthetic)) ≠ []) as H4 by done.
  assert (∃ m, fit_pool (E := Fixture.synthetic) 64
                 (omap (sift_detectAndCompute (External := Fixture.synthetic)) [1; 2]%nat)
               = Ok m) as [m H5].
  { destruct (PCA_fit_ok (E := Fixture.synthetic) 64
                  (concat (omap (sift_detectAndCompute (External := Fixture.synthetic))
                             [1; 2]%nat)))
      as (m & Hm & _).
    - simpl. lia.
    - unfold n_features. simpl. lia.
    - unfold n_features. simpl. lia.
    - by exists m. }
  destruct (load_frame_descriptors_after_fit (E := Fixture.synthetic)
              [1; 2]%nat None 64 8 m H1 H2 H3 H4 H5)
    as (descs & Hload & Hrows & Hcols & _).
  exists descs, m. split_and!; assumption.
Defined.

End ExtractorMore.

(** ** More on the correlation engine *)

Module CorrelationMore.
Import Correlation Orchestrator CorrelationFacts OrchestratorFacts.
Local Open Scope R_scope.

Lemma Rsum_app (l1 l2 : list R) : Rsum (l1 ++ l2) = Rsum l1 + Rsum l2.
Proof. induction l1 as [|x l1 IH]; simpl; [ring|]. rewrite IH. ring. Qed.

Lemma Rsum_map_shift (g : nat → R) (s n : nat) :
  Rsum (map g (seq s n)) = Rsum (map (λ u, g (u + s)%nat) (seq 0 n)).
Proof.
  revert g. induction s as [|s IH]; intros g.
  - apply Rsum_map_ext. intros u _. by rewrite Nat.add_0_r.
  - rewrite <- seq_shift, map_map, IH.
    apply Rsum_map_ext. intros u _. by rewrite Nat.add_succ_r.
Qed.

Lemma Rsum_map_linear {A} (a x y : A → R) (c1 c2 : R) (l : list A) :
  Rsum (map (λ u, a u * (x u * c1 - y u * c2)) l)
  = c1 * Rsum (map (λ u, a u * x u) l) - c2 * Rsum (map (λ u, a u * y u) l).
Proof. induction l as [|u l IH]; simpl; [ring|]. rewrite IH. ring. Qed.

Lemma Rsum_map_linear' {A} (a x y : A → R) (c1 c2 : R) (l : list A) :
  Rsum (map (λ u, a u * (y u * c1 + x u * c2)) l)
  = c1 * Rsum (map (λ u, a u * y u) l) + c2 * Rsum (map (λ u, a u * x u) l).
Proof. induction l as [|u l IH]; simpl; [ring|]. rewrite IH. ring. Qed.

Lemma Rsum_map_scal {A} (f : A → R) (c : R) (l : list A) :
  Rsum (map (λ u, f u * c) l) = Rsum (map f l) * c.
Proof. induction l as [|u l IH]; simpl; [ring|]. rewrite IH. ring. Qed.

Lemma angle_add (N k u s : nat) : angle N k (u + s) = angle N k u + angle N k s.
Proof. unfold angle. rewrite plus_INR. unfold Rdiv. ring. Qed.

(** *** Entries of padded arrays *)

Lemma nth_replicate_0 (n d : nat) : nth d (replicate n 0) 0 = 0.
Proof. revert d. induction n as [|n IH]; intros [|d]; simpl; auto. Qed.

Lemma entry_replicate_0 (n D t d : nat) : entry (replicate n (replicate D 0)) t d = 0.
Proof.
  unfold entry. revert t. induction n as [|n IH]; intros [|t]; simpl; auto.
  - by destruct d.
  - by destruct d.
  - apply nth_replicate_0.
Qed.

Lemma entry_app (l1 l2 : list (list R)) (t d : nat) :
  entry (l1 ++ l2) t d
  = if (t <? length l1)%nat then entry l1 t d else entry l2 (t - length l1) d.
Proof.
  unfold entry. destruct (Nat.ltb_spec t (length l1)).
  - by rewrite app_nth1.
  - by rewrite app_nth2.
Qed.

(** Rows of zeros after an array change no entry of it and add none. *)
Lemma entry_zero_padded (l : list (list R)) (n D t d : nat) :
  entry (l ++ replicate n (replicate D 0)) t d
  = if (t <? length l)%nat then entry l t d else 0.
Proof. rewrite entry_app. destruct (_ <? _)%nat; [done|]. apply entry_replicate_0. Qed.

(** *** The transform of a delayed array *)

Section Delay.
Variables (N s : nat) (Qp Rp : list (list R)).
Hypothesis Hs : (s ≤ N)%nat.
Hypothesis Hdelay :
  ∀ t d, entry Rp t d = if (t <? s)%nat then 0 else entry Qp (t - s) d.
Hypothesis Htail : ∀ u d, (N - s ≤ u)%nat → entry Qp u d = 0.

Lemma sum_delay (d : nat) (f : nat → R) :
  sum_n N (λ t, entry Rp t d * f t) = sum_n N (λ u, entry Qp u d * f (u + s)%nat).
Proof.
  unfold sum_n.
  assert (seq 0 N = seq 0 s ++ seq s (N - s)) as Hl.
  { replace N with (s + (N - s))%nat at 1 by lia. apply seq_app. }
  assert (seq 0 N = seq 0 (N - s) ++ seq (N - s) s) as Hr.
  { replace N with ((N - s) + s)%nat at 1 by lia. apply seq_app. }
  rewrite Hl at 1. rewrite Hr.
  rewrite !map_app, !Rsum_app.
  rewrite (Rsum_map_ext _ (λ _, 0) (seq 0 s)).
  2: { intros t [_ Ht]%in_seq. rewrite Hdelay.
       destruct (Nat.ltb_spec t s); [ring|lia]. }
  rewrite (Rsum_map_ext _ (λ _, 0) (seq (N - s) s)).
  2: { intros u [Hu _]%in_seq. rewrite Htail by done. ring. }
  rewrite !Rsum_map_zero, Rsum_map_shift.
  rewrite Rplus_0_l, Rplus_0_r.
  apply Rsum_map_ext. intros u _. rewrite Hdelay.
  destruct (Nat.ltb_spec (u + s) s); [lia|]. by rewrite Nat.add_sub.
Qed.

(** Delaying an array by [s] rows turns its spectrum by the angle of [s]. *)
Lemma rfft_delay (k d : nat) :
  rfft N Rp k d
  = Cmul (rfft N Qp k d) (cos (angle N k s), - sin (angle N k s)).
Proof.
  unfold rfft, Cmul. simpl. rewrite !sum_delay. unfold sum_n. f_equal.
  - rewrite (Rsum_map_ext _
       (λ u, entry Qp u d * (cos (angle N k u) * cos (angle N k s)
                             - sin (angle N k u) * sin (angle N k s)))).
    2: { intros u _. by rewrite angle_add, cos_plus. }
    rewrite Rsum_map_linear. ring.
  - rewrite (Rsum_map_ext _
       (λ u, entry Qp u d * (sin (angle N k u) * cos (angle N k s)
                             + cos (angle N k u) * sin (angle N k s)))).
    2: { intros u _. by rewrite angle_add, sin_plus. }
    rewrite Rsum_map_linear'. ring.
Qed.

Lemma num_delay (D k : nat) :
  num N D Qp Rp k
  = (den N D Qp k * cos (angle N k s), - (den N D Qp k * sin (angle N k s))).
Proof.
  unfold num, den, sum_n. f_equal.
  - rewrite <- Rsum_map_scal. apply Rsum_map_ext. intros d _.
    rewrite rfft_delay. unfold Cmul, Cconj, Cabs2. simpl. ring.
  - rewrite Ropp_mult_distr_r, <- (Rsum_map_scal _ (- sin (angle N k s))).
    apply Rsum_map_ext. intros d _.
    rewrite rfft_delay. unfold Cmul, Cconj, Cabs2. simpl. ring.
Qed.

End Delay.

(** *** The peak of a turned spectrum *)

(** At half the transform length every delay turns the spectrum by a multiple
    of a half turn. *)
Lemma sin_angle_nyquist (N s : nat) :
  (0 < N)%nat → Nat.even N = true → sin (angle N (N / 2) s) = 0.
Proof.
  intros HN [m ->]%Nat.even_spec.
  apply sin_eq_0_1. exists (Z.of_nat s). rewrite <- INR_IZR_INZ.
  rewrite (Nat.mul_comm 2 m), Nat.div_mul by done.
  unfold angle. rewrite mult_INR. change (INR 2) with 2.
  assert (INR m ≠ 0) by (apply not_0_INR; lia).
  field. done.
Qed.

(** A spectrum without negative moduli, each bin turned by the angle of a
    delay [s], has its inverse transform largest at [s]. *)
Lemma irfft_peak_at_delay (N s : nat) (X : nat → C) (g : nat → R) (t : nat) :
  (0 < N)%nat →
  (∀ k, 0 <= g k) →
  (∀ k, X k = (g k * cos (angle N k s), - (g k * sin (angle N k s)))) →
  irfft N X t <= irfft N X s ∧ 0 <= irfft N X s.
Proof.
  intros HN Hg HX.
  assert (0 < / INR N) as Hinv by (apply Rinv_0_lt_compat, lt_0_INR; lia).
  assert (∀ k, 2 * (fst (X k) * cos (angle N k s) - snd (X k) * sin (angle N k s))
               = 2 * g k) as Hmid.
  { intros k. rewrite HX. cbn [fst snd].
    pose proof (sin2_cos2 (angle N k s)) as H1. unfold Rsqr in H1.
    set (c := cos _) in *. set (z := sin _) in *.
    replace (g k * c * c - - (g k * z) * z) with (g k * (z * z + c * c)) by ring.
    rewrite H1. ring. }
  assert (Nat.even N = true →
          fst (X (N / 2)%nat) * cos (angle N (N / 2) s) = g (N / 2)%nat) as Hnyq.
  { intros Hev. rewrite HX. cbn [fst snd].
    pose proof (sin2_cos2 (angle N (N / 2) s)) as H1. unfold Rsqr in H1.
    rewrite sin_angle_nyquist in H1 by done.
    set (c := cos _) in *.
    replace (g (N / 2)%nat * c * c) with (g (N / 2)%nat * (0 * 0 + c * c)) by ring.
    rewrite H1. ring. }
  unfold irfft. split.
  - apply Rmult_le_compat_r; [lra|].
    apply Rplus_le_compat; [apply Rplus_le_compat; [lra|]|].
    + apply Rsum_map_le. intros k _. rewrite Hmid, HX. cbn [fst snd].
      pose proof (COS_bound (angle N k t - angle N k s)) as [_ Hcos].
      rewrite cos_minus in Hcos. specialize (Hg k).
      set (c := cos (angle N k s)) in *. set (z := sin (angle N k s)) in *.
      set (c' := cos (angle N k t)) in *. set (z' := sin (angle N k t)) in *.
      replace (g k * c * c' - - (g k * z) * z') with (g k * (c' * c + z' * z)) by ring.
      nra.
    + destruct (Nat.even N) eqn:Hev; [|lra]. rewrite Hnyq by done.
      rewrite HX. cbn [fst snd].
      pose proof (sin2_cos2 (angle N (N / 2) s)) as H1. unfold Rsqr in H1.
      rewrite sin_angle_nyquist in H1 by done.
      pose proof (COS_bound (angle N (N / 2) t)) as [Hlo Hhi].
      specialize (Hg (N / 2)%nat).
      set (c := cos (angle N (N / 2) s)) in *.
      set (c' := cos (angle N (N / 2) t)) in *.
      assert (c * c' <= 1) by nra.
      replace (g (N / 2)%nat * c * c') with (g (N / 2)%nat * (c * c')) by ring.
      nra.
  - apply Rmult_le_pos; [|lra].
    apply Rplus_le_le_0_compat; [apply Rplus_le_le_0_compat|].
    + rewrite HX. cbn [fst]. unfold angle. simpl INR.
      replace (2 * PI * 0 * INR s / INR N) with 0 by (unfold Rdiv; ring).
      rewrite cos_0. specialize (Hg 0%nat). lra.
    + apply Rsum_map_nonneg. intros k _. rewrite Hmid. specialize (Hg k). lra.
    + destruct (Nat.even N) eqn:Hev; [|lra]. rewrite Hnyq by done. apply Hg.
Qed.

(** The scores of an array against its delayed copy: none exceeds the one at
    the delay. *)
Lemma delayed_scores_peak (N D s : nat) (Qp Rp : list (list R)) (lambda_val : R) :
  (0 < N)%nat → (s < N)%nat → 0 < lambda_val →
  (∀ t d, entry Rp t d = if (t <? s)%nat then 0 else entry Qp (t - s) d) →
  (∀ u d, (N - s ≤ u)%nat → entry Qp u d = 0) →
  ∀ t, nth t (scores_of N D Qp Rp lambda_val) 0
       <= nth s (scores_of N D Qp Rp lambda_val) 0.
Proof.
  intros HN Hs Hlam Hdelay Htail t. unfold scores_of.
  set (X := λ k, Cdiv_real (num N D Qp Rp k) (den N D Qp k + lambda_val)).
  set (g := λ k, den N D Qp k / (den N D Qp k + lambda_val)).
  assert (∀ k, 0 <= g k) as Hg.
  { intros k. unfold g. pose proof (den_nonneg N D Qp k).
    apply Rmult_le_pos; [done|]. left. apply Rinv_0_lt_compat. lra. }
  assert (∀ k, X k = (g k * cos (angle N k s), - (g k * sin (angle N k s)))) as HX.
  { intros k. unfold X, g.
    rewrite (num_delay N s Qp Rp ltac:(lia) Hdelay Htail).
    unfold Cdiv_real. cbn [fst snd]. f_equal; unfold Rdiv; ring. }
  rewrite (nth_map_seq (irfft N X) N s 0 Hs).
  destruct (decide (t < N)%nat) as [Ht|Ht].
  - rewrite (nth_map_seq (irfft N X) N t 0 Ht).
    by apply (irfft_peak_at_delay N s X g t).
  - rewrite nth_overflow by (rewrite length_map, length_seq; lia).
    by apply (irfft_peak_at_delay N s X g t).
Qed.

(** X9. Delay estimation is exact on a delayed copy.  For a query with at
    least one frame and a reference made of [s] zero frames, the query's
    frames and [z] more zero frames, with a positive regularizer: the
    correlation returns a score sequence longer than [s], no score exceeds
    the one at offset [s], and [np.argmax] returns an offset that is at
    most [s] and carries that largest score. *)
Theorem delayed_copy_peaks_at_delay (q : ndarray) (s z : nat) (lambda_val : R) :
  (0 < nrows q)%nat → 0 < lambda_val →
  let r := {| ncols := ncols q;
              rows := replicate s (replicate (ncols q) 0) ++ rows q
                      ++ replicate z (replicate (ncols q) 0) |} in
  ∃ scores i,
    compute_cte_correlation q r lambda_val = Ok scores
    ∧ (s < length scores)%nat
    ∧ (∀ t, nth t scores 0 <= nth s scores 0)
    ∧ argmax scores = Ok i
    ∧ (i ≤ s)%nat
    ∧ nth i scores 0 = nth s scores 0.
Proof.
  intros Hq Hlam r.
  assert (nrows r = s + nrows q + z)%nat as Hr.
  { unfold nrows, r. simpl. rewrite !length_app, !length_replicate. lia. }
  destruct (transform_length_spec (nrows q) (nrows r)) as (k & HN & Hle & _); [lia|].
  set (N := (2 ^ k)%nat) in *.
  unfold compute_cte_correlation. rewrite HN.
  unfold mbind, PyResult_bind, py_bind.
  rewrite zero_pad_same_width.
  change (zero_pad N (ncols q) r) with (zero_pad N (ncols r) r).
  rewrite zero_pad_same_width.
  unfold mret, PyResult_ret.
  set (Qp := rows q ++ _). set (Rp := rows r ++ _).
  assert (∀ t, nth t (scores_of N (ncols q) Qp Rp lambda_val) 0
               <= nth s (scores_of N (ncols q) Qp Rp lambda_val) 0) as Hpeak.
  { apply delayed_scores_peak; [lia|lia|done| |].
    - intros t d. unfold Rp, Qp, r. cbn [rows ncols].
      rewrite <- !app_assoc, <- replicate_add.
      rewrite entry_app, length_replicate, entry_replicate_0.
      destruct (t <? s)%nat; [done|].
      by rewrite !entry_zero_padded.
    - intros u d Hu. unfold Qp. rewrite entry_zero_padded.
      destruct (Nat.ltb_spec u (length (rows q))) as [Hlt|]; [|done].
      unfold nrows in *. lia. }
  destruct (argmax_spec (scores_of N (ncols q) Qp Rp lambda_val))
    as (i & Hi & _ & Hmax & Hfirst).
  { rewrite length_scores_of. lia. }
  exists (scores_of N (ncols q) Qp Rp lambda_val), i.
  rewrite length_scores_of. split_and!; [done|lia|done|done| |].
  - destruct (decide (i ≤ s)%nat) as [|Hgt]; [done|].
    specialize (Hfirst s ltac:(lia)). specialize (Hpeak i). lra.
  - apply Rle_antisym; [apply Hpeak|]. apply Hmax. rewrite length_scores_of. lia.
Qed.

Lemma delayed_copy_peaks_at_delay_witness :
  ∃ scores i,
    compute_cte_correlation Fixture.wide_frame
      {| ncols := 2; rows := [[0; 0]; [1; 2]; [0; 0]] |} 1 = Ok scores
    ∧ (1 < length scores)%nat
    ∧ (∀ t, nth t scores 0 <= nth 1 scores 0)
    ∧ argmax scores = Ok i
    ∧ (i ≤ 1)%nat
    ∧ nth i scores 0 = nth 1 scores 0.
Proof.
  apply (delayed_copy_peaks_at_delay Fixture.wide_frame 1 1 1).
  - unfold nrows. simpl. lia.
  - lra.
Defined.

End CorrelationMore.

(** ** More on peak selection and offset mapping *)

Module OrchestratorMore.
Import Correlation Orchestrator Invariants CorrelationFacts OrchestratorFacts.

(** The correlation fails on two empty arrays and on widths that cannot be
    broadcast, and not otherwise. *)
Lemma compute_cte_correlation_outcome (q r : ndarray) (lambda_val : R) :
  match compute_cte_correlation q r lambda_val with
  | Ok scores => 0 < length scores ∧ Nat.max (nrows q) (nrows r) ≤ length scores
                 ∧ transform_length (nrows q) (nrows r) = Ok (length scores)
  | Raise e => (e = OverflowError ∧ nrows q = 0 ∧ nrows r = 0)
               ∨ (e = ValueError ∧ ncols r ≠ ncols q ∧ ncols r ≠ 1)
  end.
Proof.
  unfold compute_cte_correlation.
  destruct (decide (0 < Nat.max (nrows q) (nrows r))) as [Hpos|Hzero].
  - destruct (transform_length_spec _ _ Hpos) as (k & HN & Hle & _).
    rewrite HN. unfold mbind, PyResult_bind, py_bind.
    rewrite zero_pad_same_width.
    destruct (decide (ncols r = ncols q)) as [Heq|Hne].
    + rewrite <- Heq, zero_pad_same_width. unfold mret, PyResult_ret.
      rewrite length_scores_of. split_and!; [lia|done|done].
    + destruct (decide (ncols r = 1)) as [Hone|Hone].
      * rewrite zero_pad_width_one by done. unfold mret, PyResult_ret.
        rewrite length_scores_of. split_and!; [lia|done|done].
      * rewrite zero_pad_mismatch by done. right. done.
  - assert (nrows q = 0 ∧ nrows r = 0) as [Hq Hr] by lia.
    rewrite Hq, Hr. simpl. left. done.
Qed.

(** The offset is found whenever there is a score. *)
Lemma best_delta_ok (scores : list R) :
  0 < length scores →
  ∃ delta, best_delta scores = Ok delta
           ∧ (0 ≤ delta ≤ Z.of_nat (length scores) / 2)%Z.
Proof.
  intros Hlen. unfold best_delta.
  destruct (argmax_spec scores Hlen) as (i & Hi & _).
  rewrite Hi. eexists. split; [done|].
  apply best_delta_range. unfold best_delta. by rewrite Hi.
Qed.

Lemma true_divide_outcome (n : Z) (fps : Q) :
  match true_divide n fps with
  | Ok t => ¬ (fps == 0)%Q ∧ t = (inject_Z n / fps)%Q
  | Raise e => e = ZeroDivisionError ∧ (fps == 0)%Q
  end.
Proof.
  unfold true_divide. destruct (Qeq_bool fps 0) eqn:Hz.
  - split; [done|]. by apply Qeq_bool_eq.
  - split; [|done]. by apply Qeq_bool_neq.
Qed.

Lemma align_steps (q_desc r_desc : ndarray) (r_map : list Z) (r_fps : Q) :
  align q_desc r_desc r_map r_fps
  = match compute_cte_correlation q_desc r_desc 1e-3 with
    | Raise e => Raise e
    | Ok scores =>
        match best_delta scores with
        | Raise e => Raise e
        | Ok delta =>
            match getitem r_map delta with
            | Raise e => Raise e
            | Ok orig_frame =>
                match true_divide orig_frame r_fps with
                | Raise e => Raise e
                | Ok orig_time => Ok (orig_frame, orig_time)
                end
            end
        end
    end.
Proof. reflexivity. Qed.

(** X10. Everything the alignment of two descriptor arrays can fail with:
    [OverflowError] when both arrays are empty; [ValueError] when the widths
    differ and the reference's is not 1; [IndexError] when the offset found
    is not below the length of the reference's mapping; and
    [ZeroDivisionError] when the offset is in the mapping and the
    reference's frame rate is 0. *)
Theorem align_failures (q_desc r_desc : ndarray) (r_map : list Z) (r_fps : Q) (e : PyError) :
  align q_desc r_desc r_map r_fps = Raise e →
  (e = OverflowError ∧ nrows q_desc = 0 ∧ nrows r_desc = 0)
  ∨ (e = ValueError ∧ ncols r_desc ≠ ncols q_desc ∧ ncols r_desc ≠ 1)
  ∨ (e = IndexError
     ∧ ∃ scores delta,
         compute_cte_correlation q_desc r_desc 1e-3 = Ok scores
         ∧ best_delta scores = Ok delta
         ∧ (Z.of_nat (length r_map) ≤ delta)%Z)
  ∨ (e = ZeroDivisionError
     ∧ (r_fps == 0)%Q
     ∧ ∃ scores delta,
         compute_cte_correlation q_desc r_desc 1e-3 = Ok scores
         ∧ best_delta scores = Ok delta
         ∧ (0 ≤ delta < Z.of_nat (length r_map))%Z).
Proof.
  rewrite align_steps.
  pose proof (compute_cte_correlation_outcome q_desc r_desc 1e-3) as Hc.
  destruct (compute_cte_correlation q_desc r_desc 1e-3) as [scores|e1].
  2: { intros [= <-]. destruct Hc as [H|H]; [left|right; left]; done. }
  destruct Hc as (Hlen & _).
  destruct (best_delta_ok scores Hlen) as (delta & Hd & Hrange). rewrite Hd.
  destruct (getitem_in_range r_map delta ltac:(lia)) as [Hin Hout].
  destruct (decide (delta < Z.of_nat (length r_map))%Z) as [Hlt|Hge].
  - rewrite Hin by done.
    pose proof (true_divide_outcome (nth (Z.to_nat delta) r_map 0%Z) r_fps) as Ht.
    destruct (true_divide _ _) as [t|e1]; [done|].
    intros [= <-]. destruct Ht as [-> Hz].
    do 3 right. split_and!; [done|done|]. exists scores, delta. split_and!; [done|done|lia|done].
  - rewrite Hout by lia. intros [= <-].
    do 2 right. left. split; [done|]. exists scores, delta. split_and!; [done|done|lia].
Qed.

(** Two arrays without a frame. *)
Lemma align_failures_witness :
  (OverflowError = OverflowError ∧ nrows {| ncols := 72; rows := [] |} = 0
   ∧ nrows {| ncols := 72; rows := [] |} = 0)
  ∨ (OverflowError = ValueError ∧ 72 ≠ 72 ∧ 72 ≠ 1)
  ∨ (OverflowError = IndexError
     ∧ ∃ scores delta,
         compute_cte_correlation {| ncols := 72; rows := [] |}
           {| ncols := 72; rows := [] |} 1e-3 = Ok scores
         ∧ best_delta scores = Ok delta
         ∧ (Z.of_nat (length [0%Z]) ≤ delta)%Z)
  ∨ (OverflowError = ZeroDivisionError
     ∧ (30 == 0)%Q
     ∧ ∃ scores delta,
         compute_cte_correlation {| ncols := 72; rows := [] |}
           {| ncols := 72; rows := [] |} 1e-3 = Ok scores
         ∧ best_delta scores = Ok delta
         ∧ (0 ≤ delta < Z.of_nat (length [0%Z]))%Z).
Proof.
  apply (align_failures {| ncols := 72; rows := [] |} {| ncols := 72; rows := [] |}
           [0%Z] 30 OverflowError).
  reflexivity.
Defined.

(** The alignment of a query that is not longer than the reference. *)
Lemma align_ok (q_desc r_desc : ndarray) (r_fps : Q) (r_step : Z) (r_map : list Z) :
  mapping_ok r_fps r_step r_map →
  0 < nrows r_desc →
  nrows q_desc ≤ nrows r_desc →
  ncols r_desc = ncols q_desc →
  nrows r_desc ≤ length r_map →
  ∃ delta : nat,
    delta < nrows r_desc
    ∧ align q_desc r_desc r_map r_fps
      = Ok ((Z.of_nat delta * r_step)%Z, (inject_Z (Z.of_nat delta * r_step) / r_fps)%Q).
Proof.
  intros (Hstep & Hfps & Hmap) Hr Hq Hw Hlen. rewrite align_steps.
  pose proof (compute_cte_correlation_outcome q_desc r_desc 1e-3) as Hc.
  destruct (compute_cte_correlation q_desc r_desc 1e-3) as [scores|e1].
  2: { destruct Hc as [(_ & _ & Hz)|(_ & Hne & _)]; [lia|done]. }
  destruct Hc as (Hpos & _ & HN).
  apply half_length_below_reference in HN; [|done|done].
  destruct (best_delta_ok scores Hpos) as (delta & Hd & Hrange). rewrite Hd.
  destruct (getitem_in_range r_map delta ltac:(lia)) as [Hin _].
  rewrite Hin by lia.
  assert (nth (Z.to_nat delta) r_map 0%Z = (Z.of_nat (Z.to_nat delta) * r_step)%Z) as Hnth.
  { rewrite Hmap at 1.
    apply (nth_map_seq (λ i : nat, (Z.of_nat i * r_step)%Z)). lia. }
  rewrite Hnth.
  pose proof (true_divide_outcome (Z.of_nat (Z.to_nat delta) * r_step) r_fps) as Ht.
  destruct (true_divide _ _) as [t|e1].
  - destruct Ht as [_ ->]. exists (Z.to_nat delta). split; [lia|done].
  - by destruct Ht as [_ Hz].
Qed.

(** X11. The alignment succeeds, and returns a frame of the mapping, when
    the reference has a frame, the query has no more frames than the
    reference and the same width, and the reference's mapping is well formed
    and has an entry for each of the reference's frames: the offset [delta]
    is below the reference's frame count, the frame returned is [delta]
    times the sampling step, and the time is that frame over the frame
    rate. *)
Theorem align_succeeds (q_desc r_desc : ndarray) (r_fps : Q) (r_step : Z) (r_map : list Z) :
  mapping_ok r_fps r_step r_map →
  0 < nrows r_desc →
  nrows q_desc ≤ nrows r_desc →
  ncols r_desc = ncols q_desc →
  nrows r_desc ≤ length r_map →
  ∃ delta : nat,
    delta < nrows r_desc
    ∧ align q_desc r_desc r_map r_fps
      = Ok ((Z.of_nat delta * r_step)%Z, (inject_Z (Z.of_nat delta * r_step) / r_fps)%Q).
Proof. apply align_ok. Qed.

(** One frame against itself, sampled at every second frame of 30 per second. *)
Lemma align_succeeds_witness :
  ∃ delta : nat,
    delta < 1
    ∧ align Fixture.one_frame Fixture.one_frame [0%Z] 30
      = Ok ((Z.of_nat delta * 2)%Z, (inject_Z (Z.of_nat delta * 2) / 30)%Q).
Proof.
  apply (align_succeeds Fixture.one_frame Fixture.one_frame 30 2 [0%Z]).
  - split_and!; [lia|done|reflexivity].
  - unfold nrows. simpl. lia.
  - unfold nrows. simpl. lia.
  - reflexivity.
  - unfold nrows. simpl. lia.
Defined.

(** X12. [find_best_offset] fails with [ValueError] on an empty score
    sequence and with [ZeroDivisionError] on a frame rate of 0, and not
    otherwise; it then returns the first position of the largest score and
    that position over the frame rate.  It neither wraps nor clamps: the
    main loop's offset is the same position when that lies in the first half
    of the sequence, and 0 when it lies beyond. *)
Theorem find_best_offset_first_peak (scores : list R) (fps : R) :
  match find_best_offset scores fps with
  | Ok (best_frame, best_time) =>
      best_frame < length scores
      ∧ (∀ j, j < length scores → (nth j scores 0 <= nth best_frame scores 0)%R)
      ∧ (∀ j, j < best_frame → (nth j scores 0 < nth best_frame scores 0)%R)
      ∧ fps ≠ 0%R
      ∧ best_time = (INR best_frame / fps)%R
      ∧ best_delta scores
        = Ok (if decide (length scores < 2 * best_frame) then 0%Z else Z.of_nat best_frame)
  | Raise e => (e = ValueError ∧ scores = [])
               ∨ (e = ZeroDivisionError ∧ scores ≠ [] ∧ fps = 0%R)
  end.
Proof.
  unfold find_best_offset.
  destruct scores as [|x l] eqn:Hs; [by left|]. rewrite <- Hs.
  destruct (argmax_spec scores) as (i & Hi & Hlt & Hmax & Hfirst); [subst; simpl; lia|].
  rewrite Hi. unfold mbind, PyResult_bind, py_bind, mret, PyResult_ret.
  destruct (Req_dec_T fps 0) as [Hz|Hnz].
  { right. split_and!; [done|by subst|done]. }
  split_and!; [done|done|done|done|done|].
  unfold best_delta. rewrite Hi.
  unfold mbind, PyResult_bind, py_bind, mret, PyResult_ret. f_equal.
  rewrite wrap_around_spec.
  destruct (decide (Z.of_nat (length scores) < 2 * Z.of_nat i)%Z);
    destruct (decide (length scores < 2 * i)); lia.
Qed.

End OrchestratorMore.

(** ** File names and output folders *)

Module FileNames.
Import Sampler Orchestrator.

(** The digits [pretty] prints are digits for [is_digit], with their value. *)
Lemma pretty_N_char_digit (x : N) :
  (x < 10)%N →
  is_digit (pretty_N_char x) = true
  ∧ Ascii.nat_of_ascii (pretty_N_char x) - 48 = N.to_nat x.
Proof.
  intros Hx.
  assert (x = 0 ∨ x = 1 ∨ x = 2 ∨ x = 3 ∨ x = 4 ∨ x = 5 ∨ x = 6 ∨ x = 7
          ∨ x = 8 ∨ x = 9)%N as Hcases by lia.
  repeat destruct Hcases as [->|Hcases]; try subst x; done.
Qed.

(** What holds of a string and is kept by a digit in front of it holds of
    the string with a number printed in front. *)
Lemma pretty_N_go_digits (P : string → Prop) :
  (∀ c s, is_digit c = true → P s → P (String c s)) →
  ∀ x s, P s → P (pretty_N_go x s).
Proof.
  intros Hstep x. induction (N.lt_wf_0 x) as [x _ IH]. intros s Hs.
  destruct (decide (x = 0)%N) as [->|Hx]; [done|].
  rewrite pretty_N_go_step by lia.
  apply IH; [apply N.div_lt; lia|].
  apply Hstep; [|done]. apply pretty_N_char_digit. by apply N.mod_lt.
Qed.

Lemma append_assoc (s1 s2 s3 : string) : (s1 +:+ s2) +:+ s3 = s1 +:+ (s2 +:+ s3).
Proof.
  induction s1 as [|c s1 IH]; [done|].
  change (String c ((s1 +:+ s2) +:+ s3) = String c (s1 +:+ s2 +:+ s3)).
  by rewrite IH.
Qed.

Lemma append_cons (c : Ascii.ascii) (s1 s2 : string) :
  String c s1 +:+ s2 = String c (s1 +:+ s2).
Proof. reflexivity. Qed.

Lemma append_nil (s : string) : "" +:+ s = s.
Proof. reflexivity. Qed.

Lemma pretty_N_go_app (x : N) (s : string) :
  pretty_N_go x s = pretty_N_go x "" +:+ s.
Proof.
  revert s. induction (N.lt_wf_0 x) as [x _ IH]. intros s.
  destruct (decide (x = 0)%N) as [->|Hx]; [done|].
  assert (x `div` 10 < x)%N as Hlt by (apply N.div_lt; lia).
  rewrite (pretty_N_go_step x s), (pretty_N_go_step x "") by lia.
  rewrite (IH _ Hlt (String _ s)), (IH _ Hlt (String _ "")).
  by rewrite append_assoc.
Qed.

(** [pretty idx] followed by [s], in one of two shapes. *)
Lemma pretty_nat_app (idx : nat) (s : string) :
  pretty idx +:+ s
  = if decide (idx = 0) then String "0" s else pretty_N_go (N.of_nat idx) s.
Proof.
  unfold pretty, pretty_nat, pretty, pretty_N.
  destruct (decide (idx = 0)) as [->|Hne]; [done|].
  destruct (decide (N.of_nat idx = 0%N)); [lia|].
  by rewrite <- pretty_N_go_app.
Qed.

(** *** Reading a printed number back *)

Lemma leading_number_pretty_N_go (x : N) :
  (0 < x)%N →
  ∀ s acc, default 0 acc = 0 →
    leading_number acc (pretty_N_go x s) = leading_number (Some (N.to_nat x)) s.
Proof.
  induction (N.lt_wf_0 x) as [x _ IH]. intros Hx s acc Hacc.
  rewrite pretty_N_go_step by done.
  destruct (pretty_N_char_digit (x `mod` 10)) as [Hdig Hval]; [by apply N.mod_lt|].
  assert (N.to_nat x = 10 * N.to_nat (x `div` 10) + N.to_nat (x `mod` 10)) as Hdm.
  { pose proof (N.div_mod x 10 ltac:(done)) as Hx'.
    generalize dependent (x `div` 10)%N. generalize (x `mod` 10)%N. intros. lia. }
  destruct (decide (x `div` 10 = 0)%N) as [Hz|Hnz].
  - rewrite Hz, pretty_N_go_0. simpl. rewrite Hdig, Hval, Hacc, Hdm, Hz. done.
  - assert (x `div` 10 < x)%N as Hlt by (apply N.div_lt; lia).
    assert (0 < x `div` 10)%N as Hpos by (by apply N.neq_0_lt_0).
    rewrite (IH _ Hlt Hpos _ acc Hacc).
    simpl. rewrite Hdig, Hval, Hdm. done.
Qed.

(** *** Looking for a word behind digits *)

Lemma is_digit_not (c d : Ascii.ascii) :
  is_digit c = true → is_digit d = false → d ≠ c.
Proof. intros Hc Hd ->. congruence. Qed.

(** A digit in front of a string adds no occurrence of a word that starts
    with something else. *)
Lemma index_cons (s1 : string) (b : Ascii.ascii) (s2 : string) :
  String.index 0 s1 (String b s2)
  = if String.prefix s1 (String b s2) then Some 0
    else match String.index 0 s1 s2 with Some n => Some (S n) | None => None end.
Proof. reflexivity. Qed.

Lemma prefix_cons (a : Ascii.ascii) (s1 : string) (b : Ascii.ascii) (s2 : string) :
  String.prefix (String a s1) (String b s2)
  = if Ascii.ascii_dec a b then String.prefix s1 s2 else false.
Proof. reflexivity. Qed.

Lemma contains_digit (d : Ascii.ascii) (needle : string) (c : Ascii.ascii) (s : string) :
  is_digit d = false → is_digit c = true →
  contains (String d needle) (String c s) = contains (String d needle) s.
Proof.
  intros Hd Hc. unfold contains. rewrite index_cons, prefix_cons.
  destruct (Ascii.ascii_dec d c) as [Heq|_]; [by destruct (is_digit_not c d)|].
  destruct (String.index 0 (String d needle) s); done.
Qed.

Lemma index_slash_digit (c : Ascii.ascii) (s : string) :
  is_digit c = true →
  String.index 0 "/" s = None → String.index 0 "/" (String c s) = None.
Proof.
  intros Hc Hs. rewrite index_cons, prefix_cons.
  destruct (Ascii.ascii_dec "/" c) as [Heq|_]; [by destruct (is_digit_not c "/")|].
  by rewrite Hs.
Qed.

(** The directory of the loop's files is cut off. *)
Lemma basename_train (f : string) :
  String.index 0 "/" f = None → basename ("train/task1/" +:+ f) = f.
Proof.
  intros Hf. rewrite !append_cons, append_nil.
  assert (∀ s, String.index 0 "/" (String "/" s) = Some 0) as H1.
  { intros s. rewrite index_cons, prefix_cons.
    destruct (Ascii.ascii_dec "/" "/") as [_|Hne]; [|done]. by destruct s. }
  assert (∀ c s n, c ≠ "/"%char → String.index 0 "/" s = Some n →
                   String.index 0 "/" (String c s) = Some (S n)) as Hnext.
  { intros c s n Hc Hs. rewrite index_cons, prefix_cons.
    destruct (Ascii.ascii_dec "/" c) as [Heq|_]; [done|]. by rewrite Hs. }
  assert (∀ c s n, String.index 0 "/" s = Some n → basename (String c s) = basename s)
    as Hskip.
  { intros c s n Hs. simpl. by rewrite Hs. }
  assert (basename (String "/" f) = f) as Hlast.
  { simpl. by rewrite Hf. }
  repeat (erewrite Hskip; [|solve [repeat (first [apply H1 | apply Hnext; [done|]])]]).
  exact Hlast.
Qed.

(** [f"{idx:02d}"] followed by [s]: digits, with or without a 0 in front. *)
Lemma pad2_app (idx : nat) (s : string) :
  pad2 idx +:+ s
  = if decide (idx = 0) then String "0" (String "0" s)
    else if decide (idx < 10) then String "0" (pretty_N_go (N.of_nat idx) s)
    else pretty_N_go (N.of_nat idx) s.
Proof.
  unfold pad2. destruct (Nat.ltb_spec idx 10).
  - rewrite append_assoc, append_cons, append_nil, pretty_nat_app.
    destruct (decide (idx = 0)); [done|]. destruct (decide (idx < 10)); [done|lia].
  - rewrite pretty_nat_app.
    destruct (decide (idx = 0)); [lia|]. destruct (decide (idx < 10)); [lia|done].
Qed.

Lemma pad2_digits (P : string → Prop) (idx : nat) (s : string) :
  (∀ c s, is_digit c = true → P s → P (String c s)) →
  P s → P (pad2 idx +:+ s).
Proof.
  intros Hstep Hs. rewrite pad2_app.
  destruct (decide (idx = 0)); [by do 2 (apply Hstep; [done|])|].
  destruct (decide (idx < 10)).
  - apply Hstep; [done|]. by apply pretty_N_go_digits.
  - by apply pretty_N_go_digits.
Qed.

Lemma leading_number_pad2 (idx : nat) (s : string) :
  leading_number None (pad2 idx +:+ String "_" s) = Some idx.
Proof.
  rewrite pad2_app.
  destruct (decide (idx = 0)) as [->|Hne]; [done|].
  destruct (decide (idx < 10)).
  - simpl. rewrite leading_number_pretty_N_go by (done || lia).
    simpl. by rewrite Nat2N.id.
  - rewrite leading_number_pretty_N_go by (done || lia).
    simpl. by rewrite Nat2N.id.
Qed.

(** The folder of the loop's query file, and of its reference file. *)
Lemma get_out_folder_query (idx : nat) :
  get_out_folder (basename ("train/task1/" +:+ pad2 idx +:+ "_query.mp4"))
  = "frames/query/vid_" +:+ pretty idx.
Proof.
  rewrite basename_train.
  2: { apply (pad2_digits (λ s, String.index 0 "/" s = None));
         [apply index_slash_digit|done]. }
  unfold get_out_folder. rewrite leading_number_pad2.
  assert (contains "query" (pad2 idx +:+ "_query.mp4") = true) as ->; [|done].
  apply (pad2_digits (λ s, contains "query" s = true)); [|done].
  intros c s Hc Hs. by rewrite contains_digit.
Qed.

Lemma get_out_folder_reference (idx : nat) :
  get_out_folder (basename ("train/task1/" +:+ pad2 idx +:+ "_reference.mp4"))
  = "frames/reference/vid_" +:+ pretty idx.
Proof.
  rewrite basename_train.
  2: { apply (pad2_digits (λ s, String.index 0 "/" s = None));
         [apply index_slash_digit|done]. }
  unfold get_out_folder. rewrite leading_number_pad2.
  assert (contains "query" (pad2 idx +:+ "_reference.mp4") = false) as ->.
  { apply (pad2_digits (λ s, contains "query" s = false)); [|done].
    intros c s Hc Hs. by rewrite contains_digit. }
  assert (contains "reference" (pad2 idx +:+ "_reference.mp4") = true) as ->; [|done].
  apply (pad2_digits (λ s, contains "reference" s = true)); [|done].
  intros c s Hc Hs. by rewrite contains_digit.
Qed.

Lemma query_folder_not_reference (idx idx' : nat) :
  "frames/query/vid_" +:+ pretty idx ≠ "frames/reference/vid_" +:+ pretty idx'.
Proof. rewrite !append_cons. discriminate. Qed.

(** X13. The output folders of the main loop's files.  For every [idx] the
    query file [train/task1/{idx:02d}_query.mp4] is sampled into
    [frames/query/vid_{idx}] and the reference file into
    [frames/reference/vid_{idx}]: the number is read back from the name
    without its padding.  No two files of the loop share a folder, so none
    of them is handed the stored mapping of another. *)
Theorem get_out_folder_of_loop_files (idx : nat) :
  get_out_folder (basename ("train/task1/" +:+ pad2 idx +:+ "_query.mp4"))
  = "frames/query/vid_" +:+ pretty idx
  ∧ get_out_folder (basename ("train/task1/" +:+ pad2 idx +:+ "_reference.mp4"))
    = "frames/reference/vid_" +:+ pretty idx
  ∧ ∀ idx' : nat,
      ("frames/query/vid_" +:+ pretty idx = "frames/query/vid_" +:+ pretty idx'
       → idx = idx')
      ∧ ("frames/reference/vid_" +:+ pretty idx = "frames/reference/vid_" +:+ pretty idx'
         → idx = idx')
      ∧ "frames/query/vid_" +:+ pretty idx ≠ "frames/reference/vid_" +:+ pretty idx'.
Proof.
  split_and!.
  - apply get_out_folder_query.
  - apply get_out_folder_reference.
  - intros idx'. split_and!.
    + intros Heq%(inj (String.append _)). by apply (inj pretty) in Heq.
    + intros Heq%(inj (String.append _)). by apply (inj pretty) in Heq.
    + apply query_folder_not_reference.
Qed.

(** *** Frame names *)

Lemma leading_number_zero (acc : option nat) (s : string) :
  default 0 acc = 0 →
  leading_number acc (String "0" s) = leading_number (Some 0) s.
Proof. intros Hacc. simpl. by rewrite Hacc. Qed.

Lemma leading_number_pretty (acc : option nat) (i : nat) (s : string) :
  default 0 acc = 0 →
  leading_number acc (pretty i +:+ String "_" s) = Some i.
Proof.
  intros Hacc. rewrite pretty_nat_app.
  destruct (decide (i = 0)) as [->|Hne].
  - simpl. by rewrite Hacc.
  - rewrite leading_number_pretty_N_go by (done || lia).
    simpl. by rewrite Nat2N.id.
Qed.

(** [int] reads a padded index back. *)
Lemma leading_number_pad4 (i : nat) (s : string) :
  leading_number None (pad4 i +:+ String "_" s) = Some i.
Proof.
  unfold pad4.
  destruct (i <? 10); [|destruct (i <? 100); [|destruct (i <? 1000)]];
    rewrite ?append_assoc, ?append_cons, ?append_nil;
    rewrite ?leading_number_zero by done;
    by apply leading_number_pretty.
Qed.

Lemma pad4_inj (i j : nat) : pad4 i = pad4 j → i = j.
Proof.
  intros Heq.
  assert (leading_number None (pad4 i +:+ "_") = leading_number None (pad4 j +:+ "_"))
    as Hnum by (by rewrite Heq).
  rewrite !leading_number_pad4 in Hnum. by injection Hnum.
Qed.

Lemma length_append (s1 s2 : string) :
  String.length (s1 +:+ s2) = String.length s1 + String.length s2.
Proof. induction s1 as [|c s1 IH]; [done|]. rewrite append_cons. simpl. by rewrite IH. Qed.

Lemma append_inj_r (s1 s2 t : string) : s1 +:+ t = s2 +:+ t → s1 = s2.
Proof.
  revert s2. induction s1 as [|c s1 IH]; intros [|d s2] Heq.
  - done.
  - apply (f_equal String.length) in Heq.
    rewrite append_nil, append_cons in Heq. simpl in Heq.
    rewrite length_append in Heq. lia.
  - apply (f_equal String.length) in Heq.
    rewrite append_nil, append_cons in Heq. simpl in Heq.
    rewrite length_append in Heq. lia.
  - rewrite !append_cons in Heq. injection Heq as -> Heq. f_equal. by apply IH.
Qed.

(** Two frames have two names. *)
Lemma frame_name_inj (i j : nat) : frame_name i = frame_name j → i = j.
Proof.
  unfold frame_name. intros Heq%(inj (String.append _)).
  by apply append_inj_r, pad4_inj in Heq.
Qed.

(** [sorted] on frame names is an order on the frames. *)
Lemma name_le_trans : Transitive name_le.
Proof. intros i j k. unfold name_le. apply transitivity. Qed.

Lemma name_le_total : Total name_le.
Proof. intros i j. unfold name_le. apply total, _. Qed.

Lemma name_le_antisym (i j : nat) : name_le i j → name_le j i → i = j.
Proof.
  unfold name_le. intros Hij Hji. apply frame_name_inj.
  by apply (anti_symm String.le).
Qed.

(** Up to [frame_9999.jpg] each name sorts before the next. *)
Lemma name_le_succ (i : nat) : (Z.of_nat i < 9999)%Z → name_le i (S i).
Proof.
  intros Hi.
  assert (forallb (λ i, bool_decide (name_le i (S i))) (seq 0 (Z.to_nat 9999)) = true)
    as Hall by (vm_compute; reflexivity).
  rewrite forallb_forall in Hall.
  apply (bool_decide_eq_true_1 (name_le i (S i))), Hall, in_seq. lia.
Qed.

Lemma Sorted_name_le_seq (start k : nat) :
  (Z.of_nat (start + k) ≤ 10000)%Z → Sorted name_le (seq start k).
Proof.
  revert start. induction k as [|k IH]; intros start Hk; simpl; constructor.
  - apply IH. lia.
  - destruct k; simpl; constructor. apply name_le_succ. lia.
Qed.

(** A list without duplicates that holds the numbers below [n], sorted by name. *)
Lemma merge_sort_names_unique (l1 l2 : list nat) :
  l1 ≡ₚ l2 → merge_sort name_le l1 = merge_sort name_le l2.
Proof.
  intros Hperm.
  apply (@Sorted_unique_strong nat name_le name_le_trans).
  - intros i j _ _. apply name_le_antisym.
  - apply (@Sorted_merge_sort nat name_le _ name_le_total).
  - apply (@Sorted_merge_sort nat name_le _ name_le_total).
  - by rewrite !merge_sort_Permutation.
Qed.

Lemma merge_sort_names_below (l : list nat) (n : nat) :
  (Z.of_nat n ≤ 10000)%Z →
  NoDup l → (∀ i, i ∈ l ↔ i < n) → merge_sort name_le l = seq 0 n.
Proof.
  intros Hn Hnd Hmem.
  apply (@Sorted_unique_strong nat name_le name_le_trans).
  - intros i j _ _. apply name_le_antisym.
  - apply (@Sorted_merge_sort nat name_le _ name_le_total).
  - apply Sorted_name_le_seq. lia.
  - rewrite merge_sort_Permutation.
    apply NoDup_Permutation; [done|apply NoDup_seq|].
    intros i. rewrite Hmem, elem_of_seq. lia.
Qed.

End FileNames.

(** ** More on the main loop *)

Module MainLoopMore.
Import Sampler Extractor Correlation Orchestrator Invariants.
Import SamplerFacts CorrelationFacts OrchestratorFacts ExtractorFacts MainLoopFacts.
Import SamplerMore ExtractorMore OrchestratorMore FileNames.

(** *** Lists *)

Lemma NoDup_omap_inj {A B} (f : A → option B) (l : list A) :
  (∀ x y z, f x = Some z → f y = Some z → x = y) →
  NoDup l → NoDup (omap f l).
Proof.
  intros Hinj. induction 1 as [|x l Hx Hl IH]; csimpl; [constructor|].
  destruct (f x) as [z|] eqn:Hfx; [|done].
  constructor; [|done].
  intros (y & Hy & Hfy)%list_elem_of_omap.
  by rewrite (Hinj _ _ _ Hfx Hfy) in Hx.
Qed.

Lemma omap_map {A B C} (g : B → option C) (h : A → B) (l : list A) :
  omap g (map h l) = omap (λ x, g (h x)) l.
Proof. induction l as [|x l IH]; csimpl; [done|]. by rewrite IH. Qed.

Lemma omap_ext_In {A B} (f g : A → option B) (l : list A) :
  (∀ x, In x l → f x = g x) → omap f l = omap g l.
Proof.
  induction l as [|x l IH]; intros Hfg; csimpl; [done|].
  rewrite (Hfg x) by (by left). rewrite IH; [done|].
  intros y Hy. apply Hfg. by right.
Qed.

Lemma length_omap_total {A B} (f : A → option B) (l : list A) :
  (∀ x, In x l → is_Some (f x)) → length (omap f l) = length l.
Proof.
  induction l as [|x l IH]; intros Hf; csimpl; [done|].
  destruct (Hf x) as [y ->]; [by left|]. simpl. rewrite IH; [done|].
  intros z Hz. apply Hf. by right.
Qed.

Lemma Forall2_omap_map {A B C} (P : B → C → Prop) (g : A → option B) (h : A → C)
    (l : list A) :
  (∀ x, In x l → ∃ y, g x = Some y ∧ P y (h x)) →
  Forall2 P (omap g l) (map h l).
Proof.
  induction l as [|x l IH]; intros Hl; csimpl; [constructor|].
  destruct (Hl x) as (y & -> & Hy); [by left|].
  constructor; [done|]. apply IH. intros z Hz. apply Hl. by right.
Qed.

Section MainLoopMoreLemmas.
Context {E : External}.

(** *** The frames found after sampling *)

(** The numbers of the frame files of a folder, as the directory holds them. *)
Lemma saved_NoDup (folder : string) (w : World) :
  NoDup (omap (λ k : string * nat, if decide (k.1 = folder) then Some k.2 else None)
           (elements (dom (frame_files w)))).
Proof.
  apply NoDup_omap_inj; [|apply NoDup_elements].
  intros [f1 i1] [f2 i2] z. simpl.
  destruct (decide (f1 = folder)) as [->|]; [|done].
  destruct (decide (f2 = folder)) as [->|]; [|done].
  by intros [= ->] [= ->].
Qed.

Lemma saved_elem_of (folder : string) (w : World) (i : nat) :
  i ∈ omap (λ k : string * nat, if decide (k.1 = folder) then Some k.2 else None)
        (elements (dom (frame_files w)))
  ↔ is_Some (frame_files w !! (folder, i)).
Proof.
  rewrite list_elem_of_omap. split.
  - intros ([f j] & Hin & Hf). simpl in Hf.
    destruct (decide (f = folder)) as [->|]; [|done]. injection Hf as ->.
    by apply elem_of_elements, elem_of_dom in Hin.
  - intros Hsome. exists (folder, i). split.
    + by apply elem_of_elements, elem_of_dom.
    + simpl. by rewrite decide_True.
Qed.

(** A folder lists as many frames as it holds files, whatever their names. *)
Lemma glob_frames_length (folder : string) (w : World) (n : nat) :
  (∀ i, is_Some (frame_files w !! (folder, i)) ↔ i < n) →
  length (glob_frames folder w) = n.
Proof.
  intros Hfiles. unfold glob_frames.
  rewrite length_omap_total.
  - rewrite (Permutation_length (merge_sort_Permutation name_le _)).
    rewrite (Permutation_length (l' := seq 0 n)); [apply length_seq|].
    apply NoDup_Permutation; [apply saved_NoDup|apply NoDup_seq|].
    intros i. rewrite saved_elem_of, Hfiles, elem_of_seq. lia.
  - intros i Hi. apply list_elem_of_In in Hi. rewrite merge_sort_Permutation in Hi.
    apply saved_elem_of in Hi as [img ->]. by eexists.
Qed.

(** The frames of a folder whose files are numbered from 0 without a gap:
    up to 10000 files the order of the names is the order of the numbers. *)
Lemma glob_frames_numbered (folder : string) (w : World) (n : nat) :
  (Z.of_nat n ≤ 10000)%Z →
  (∀ i, is_Some (frame_files w !! (folder, i)) ↔ i < n) →
  glob_frames folder w
  = omap (λ i, imread_grayscale <$> frame_files w !! (folder, i)) (seq 0 n).
Proof.
  intros Hn Hfiles. unfold glob_frames. f_equal.
  apply merge_sort_names_below; [done|apply saved_NoDup|].
  intros i. by rewrite saved_elem_of, Hfiles.
Qed.

(** Sampling a video that opens, whose frames can be resized, into a folder
    without mapping and without frames. *)
Lemma extract_frames_fresh video_path output_folder target_fps max_pixels w cap :
  mapping_files w !! output_folder = None →
  video_files w !! video_path = Some cap →
  target_fps ≠ 0%Z →
  (∀ i, frame_files w !! (output_folder, i) = None) →
  (∀ frame, In frame (cap_frames cap) → ∃ img, resize_to max_pixels frame = Ok img) →
  ∃ fps step indices w',
    extract_frames video_path output_folder target_fps max_pixels w
    = (Ok (fps, step, indices), w')
    ∧ mapping_ok fps step indices
    ∧ (Z.of_nat (length indices) * step - step < Z.of_nat (length (cap_frames cap))
       ≤ Z.of_nat (length indices) * step)%Z
    ∧ (∀ i, is_Some (frame_files w' !! (output_folder, i)) ↔ i < length indices)
    ∧ (∀ i, i < length indices →
         ∃ frame resized,
           cap_frames cap !! Z.to_nat (nth i indices 0%Z) = Some frame
           ∧ resize_to max_pixels frame = Ok resized
           ∧ frame_files w' !! (output_folder, i) = Some resized)
    ∧ length (glob_frames output_folder w') = length indices.
Proof.
  intros Hnone Hcap Htarget Hfresh Hres.
  destruct (extract_frames video_path output_folder target_fps max_pixels w)
    as [r w'] eqn:Hrun.
  pose proof Hrun as Hrun'.
  rewrite (extract_frames_decoding _ _ _ _ _ _ Hnone Hcap) in Hrun'. cbv zeta in Hrun'.
  set (fps := if Qeq_bool (cap_fps cap) 0 then inject_Z target_fps else cap_fps cap)
    in Hrun'.
  rewrite (sampling_step_ok fps _ Htarget) in Hrun'.
  set (step := Z.max (py_round (fps / inject_Z target_fps)) 1) in Hrun'.
  assert (1 ≤ step)%Z as Hstep by (unfold step; lia).
  destruct (read_frames_returns output_folder step max_pixels (cap_frames cap) 0 0 [] w)
    as (indices & saved & w1 & Hloop).
  { intros d frame Hd _. apply Hres. by eapply list_elem_of_In, list_elem_of_lookup_2. }
  rewrite Hloop in Hrun'. injection Hrun' as <- <-.
  apply (read_frames_spec _ _ _ _ Hstep) in Hloop
    as (Hidx & _ & Hwin & _ & _ & _ & Hnew & Hold); [|done|simpl; lia].
  assert (length indices = saved) as Hlen
    by (rewrite Hidx, length_map, length_seq; done).
  assert (mapping_ok fps step indices) as Hok.
  { eapply fresh_mapping_ok; [exact Hnone|exact Hrun]. }
  set (w' := json_dump output_folder _ w1) in *.
  assert (∀ i, i < saved →
            ∃ frame resized,
              cap_frames cap !! Z.to_nat (Z.of_nat i * step) = Some frame
              ∧ resize_to max_pixels frame = Ok resized
              ∧ frame_files w' !! (output_folder, i) = Some resized) as Hin.
  { intros i Hi.
    destruct (lookup_lt_is_Some_2 (cap_frames cap) (Z.to_nat (Z.of_nat i * step)))
      as [frame Hframe]; [nia|].
    destruct (Hres frame) as [resized Hresized].
    { by eapply list_elem_of_In, list_elem_of_lookup_2. }
    exists frame, resized. split; [done|]. split; [done|].
    specialize (Hnew i ltac:(lia)). rewrite Z.sub_0_r, Hframe in Hnew.
    simpl in Hnew. rewrite Hresized in Hnew.
    change (frame_files w' !! (output_folder, i)) with (frame_files w1 !! (output_folder, i)).
    destruct (frame_files w1 !! (output_folder, i)); simpl in Hnew; congruence. }
  assert (∀ i, is_Some (frame_files w' !! (output_folder, i)) ↔ i < saved) as Hfiles.
  { intros i. destruct (decide (i < saved)) as [Hi|Hi].
    - destruct (Hin i Hi) as (frame & resized & _ & _ & ->). split; [done|]. by eexists.
    - change (frame_files w' !! (output_folder, i))
        with (frame_files w1 !! (output_folder, i)).
      rewrite Hold by (simpl; lia). rewrite Hfresh.
      split; [by intros [? ?]|lia]. }
  exists fps, step, indices, w'. rewrite Hlen.
  split; [done|]. split; [done|]. split; [lia|]. split; [done|]. split.
  - intros i Hi. rewrite Hidx.
    rewrite (nth_map_seq (λ i : nat, (Z.of_nat i * step)%Z)) by lia.
    by apply Hin.
  - by apply glob_frames_length.
Qed.

Lemma frames_listed_after_sampling_aux video_path output_folder target_fps max_pixels
    w cap :
  mapping_files w !! output_folder = None →
  video_files w !! video_path = Some cap →
  target_fps ≠ 0%Z →
  (∀ i, frame_files w !! (output_folder, i) = None) →
  (∀ frame, In frame (cap_frames cap) → ∃ img, resize_to max_pixels frame = Ok img) →
  ∃ fps step indices w',
    extract_frames video_path output_folder target_fps max_pixels w
    = (Ok (fps, step, indices), w')
    ∧ (Z.of_nat (length indices) * step - step < Z.of_nat (length (cap_frames cap))
       ≤ Z.of_nat (length indices) * step)%Z
    ∧ length (glob_frames output_folder w') = length indices
    ∧ ((Z.of_nat (length indices) ≤ 10000)%Z →
       Forall2 (λ img k, ∃ frame resized,
                  cap_frames cap !! Z.to_nat k = Some frame
                  ∧ resize_to max_pixels frame = Ok resized
                  ∧ img = imread_grayscale resized)
         (glob_frames output_folder w') indices)
    ∧ ∀ pca_model pca_dim fit_pca hof_bins descs pca_model',
        load_frame_descriptors (glob_frames output_folder w') pca_model pca_dim
          fit_pca hof_bins = Ok (descs, pca_model') →
        nrows descs = length indices.
Proof.
  intros Hnone Hcap Htarget Hfresh Hres.
  destruct (extract_frames_fresh video_path output_folder target_fps max_pixels w cap
              Hnone Hcap Htarget Hfresh Hres)
    as (fps & step & indices & w' & Hrun & Hok & Hcount & Hfiles & Hcontent & Hlen).
  exists fps, step, indices, w'.
  split; [exact Hrun|]. split; [exact Hcount|]. split; [exact Hlen|]. split.
  - intros Hbound. destruct Hok as (_ & _ & Hidx).
    rewrite (glob_frames_numbered _ _ _ Hbound Hfiles).
    rewrite Hidx at 2. apply Forall2_omap_map.
    intros i [_ Hi]%in_seq.
    destruct (Hcontent i ltac:(lia)) as (frame & resized & Hframe & Hresized & ->).
    exists (imread_grayscale resized). split; [done|].
    exists frame, resized. split; [|done].
    rewrite <- Hframe. f_equal. f_equal. rewrite Hidx at 1.
    by rewrite (nth_map_seq (λ i : nat, (Z.of_nat i * step)%Z)) by lia.
  - intros pca_model pca_dim fit_pca hof_bins descs pca_model' Hload.
    apply load_frame_descriptors_rows in Hload as [_ Hrows].
    unfold nrows. by rewrite Hrows, length_frame_vectors.
Qed.

(** X14. Sampler and descriptor stage agree on a fresh folder.  When a
    video that opens, and whose frames can all be resized to the budget, is
    sampled at a target rate other than 0 into a folder that holds no
    mapping and no frame, the call returns and the folder then lists as many
    frames as the mapping has entries, [ceil(frames / step)] of them, so
    that the descriptor array computed from the folder has one row per entry
    of the mapping.  Up to 10000 entries the listing, which is sorted by
    file name, is in the order of the mapping: its [i]-th image is the
    video's frame at the [i]-th index of the mapping, resized and read back.
    (From [frame_10000.jpg] on the names no longer sort as the numbers do.) *)
Theorem frames_listed_after_sampling video_path output_folder target_fps max_pixels w cap :
  mapping_files w !! output_folder = None →
  video_files w !! video_path = Some cap →
  target_fps ≠ 0%Z →
  (∀ i, frame_files w !! (output_folder, i) = None) →
  (∀ frame, In frame (cap_frames cap) → ∃ img, resize_to max_pixels frame = Ok img) →
  ∃ fps step indices w',
    extract_frames video_path output_folder target_fps max_pixels w
    = (Ok (fps, step, indices), w')
    ∧ (Z.of_nat (length indices) * step - step < Z.of_nat (length (cap_frames cap))
       ≤ Z.of_nat (length indices) * step)%Z
    ∧ length (glob_frames output_folder w') = length indices
    ∧ ((Z.of_nat (length indices) ≤ 10000)%Z →
       Forall2 (λ img k, ∃ frame resized,
                  cap_frames cap !! Z.to_nat k = Some frame
                  ∧ resize_to max_pixels frame = Ok resized
                  ∧ img = imread_grayscale resized)
         (glob_frames output_folder w') indices)
    ∧ ∀ pca_model pca_dim fit_pca hof_bins descs pca_model',
        load_frame_descriptors (glob_frames output_folder w') pca_model pca_dim
          fit_pca hof_bins = Ok (descs, pca_model') →
        nrows descs = length indices.
Proof. apply frames_listed_after_sampling_aux. Qed.

(** *** What a turn of the loop can fail with *)

Lemma resize_to_error_budget (max_pixels : Z) (frame : Image) (e : PyError) :
  (0 ≤ max_pixels)%Z →
  resize_to max_pixels frame = Raise e →
  e = ZeroDivisionError ∨ e = CvError.
Proof.
  intros Hbudget. unfold resize_to.
  destruct (image_shape frame) as [h w0].
  destruct (_ =? 0)%Z; [by intros [= <-]; left|].
  destruct (Z.ltb_spec max_pixels 0); [lia|].
  destruct (_ <? _)%Z; [|done].
  destruct (_ || _); [by intros [= <-]; right|done].
Qed.

Lemma extract_frames_error video_path output_folder target_fps max_pixels w e w' :
  extract_frames video_path output_folder target_fps max_pixels w = (Raise e, w') →
  e = IOError
  ∨ (e = ZeroDivisionError ∧ target_fps = 0%Z)
  ∨ ∃ cap frame, video_files w !! video_path = Some cap
                 ∧ In frame (cap_frames cap)
                 ∧ resize_to max_pixels frame = Raise e.
Proof.
  unfold extract_frames.
  destruct (mapping_files w !! output_folder) as [data|]; [done|].
  destruct (video_files w !! video_path) as [cap|]; [|by intros [= <- _]; left].
  destruct (sampling_step _ target_fps) as [step|e1] eqn:Hs.
  2: { intros [= <- _]. unfold sampling_step in Hs.
       destruct (Z.eqb_spec target_fps 0); [|done]. injection Hs as <-.
       right. by left. }
  destruct (read_frames _ _ _ _ _ _ _ _) as [[[indices saved]|e1] w1] eqn:Hloop; [done|].
  intros [= <- _].
  apply read_frames_raise in Hloop as (d & frame & Hd & _ & Hfail & _).
  right. right. exists cap, frame. split; [done|]. split; [|done].
  by eapply list_elem_of_In, list_elem_of_lookup_2.
Qed.

Lemma match_query_to_reference_error video_file pca target_fps max_pixels w e w' :
  match_query_to_reference video_file pca target_fps max_pixels w = (Raise e, w') →
  e = IOError
  ∨ (e = ZeroDivisionError ∧ target_fps = 0%Z)
  ∨ ∃ cap frame, video_files w !! video_file = Some cap
                 ∧ In frame (cap_frames cap)
                 ∧ resize_to max_pixels frame = Raise e.
Proof.
  unfold match_query_to_reference.
  destruct (extract_frames _ _ _ _ _) as [[[[fps step] indices]|e1] w1] eqn:Hrun;
    simpl; [done|].
  intros [= <- _]. by eapply extract_frames_error.
Qed.

(** A step leaves the videos as they are. *)
Lemma match_query_to_reference_videos video_file pca target_fps max_pixels w r w' :
  match_query_to_reference video_file pca target_fps max_pixels w = (r, w') →
  video_files w' = video_files w.
Proof.
  unfold match_query_to_reference.
  pose proof (extract_frames_effects video_file (get_out_folder (basename video_file))
                target_fps max_pixels w) as (Hvid & _).
  destruct (extract_frames _ _ _ _ _) as [r1 w1]. by intros [= _ <-].
Qed.

(** A successful step keeps the stored mappings well formed and returns a
    well-formed mapping. *)
Lemma match_query_to_reference_ok video_file pca target_fps max_pixels w
    folder pca' fps step indices w' :
  store_ok w →
  match_query_to_reference video_file pca target_fps max_pixels w
  = (Ok (folder, pca', fps, step, indices), w') →
  store_ok w' ∧ mapping_ok fps step indices.
Proof.
  intros Hok (fps0 & step0 & idx0 & Hrun & [= -> -> -> -> ->])%match_query_to_reference_inv.
  destruct (extract_frames_store_ok video_file (get_out_folder (basename video_file))
              target_fps max_pixels w Hok) as [Hstore Hmap].
  rewrite Hrun in Hstore, Hmap. simpl in *. split; [done|]. by apply Hmap.
Qed.

Lemma load_frame_descriptors_outcome (imgs : list Image) pca_model pca_dim fit_pca hof_bins :
  match load_frame_descriptors imgs pca_model pca_dim fit_pca hof_bins with
  | Ok (descs, _) => nrows descs = length imgs ∧ 0 < nrows descs
  | Raise e => e = ValueError
  end.
Proof.
  unfold load_frame_descriptors.
  destruct (first_pass imgs pca_model pca_dim fit_pca) as [m|e] eqn:Hfirst; simpl.
  2: { by apply first_pass_error in Hfirst. }
  pose proof (vstack_rows_spec (frame_vectors m pca_dim hof_bins None imgs)) as Hv.
  destruct (vstack_rows _) as [a|e]; simpl; [|done].
  destruct Hv as (Hrows & Hne & _).
  assert (nrows a = length imgs) as Hlen
    by (unfold nrows; rewrite Hrows; apply length_frame_vectors).
  split; [done|]. rewrite Hlen. destruct imgs; [done|simpl; lia].
Qed.

Lemma align_ok_inv (q_desc r_desc : ndarray) (r_map : list Z) (r_fps : Q) frame time :
  align q_desc r_desc r_map r_fps = Ok (frame, time) →
  ∃ scores delta,
    compute_cte_correlation q_desc r_desc 1e-3 = Ok scores
    ∧ best_delta scores = Ok delta
    ∧ (0 ≤ delta < Z.of_nat (length r_map))%Z
    ∧ frame = nth (Z.to_nat delta) r_map 0%Z
    ∧ ¬ (r_fps == 0)%Q
    ∧ time = (inject_Z frame / r_fps)%Q.
Proof.
  rewrite align_steps.
  destruct (compute_cte_correlation q_desc r_desc 1e-3) as [scores|]; [|done].
  destruct (best_delta scores) as [delta|] eqn:Hd; [|done].
  pose proof (best_delta_range _ _ Hd) as Hrange.
  destruct (getitem_in_range r_map delta ltac:(lia)) as [Hin Hout].
  destruct (decide (delta < Z.of_nat (length r_map))%Z) as [Hlt|Hge].
  2: { rewrite Hout by lia. done. }
  rewrite Hin by done.
  pose proof (true_divide_outcome (nth (Z.to_nat delta) r_map 0%Z) r_fps) as Ht.
  destruct (true_divide _ _) as [t|]; [|done].
  intros [= <- <-]. destruct Ht as [Hfps ->].
  exists scores, delta. split_and!; [done|done|lia|done|done|done|done].
Qed.

(** With a frame in the reference and a frame rate other than 0 the
    alignment fails on the widths or on the lookup only. *)
Lemma align_error_with_frames (q_desc r_desc : ndarray) (r_map : list Z) (r_fps : Q) e :
  0 < nrows r_desc → ¬ (r_fps == 0)%Q →
  align q_desc r_desc r_map r_fps = Raise e →
  e = ValueError ∨ e = IndexError.
Proof.
  intros Hr Hfps. rewrite align_steps.
  pose proof (compute_cte_correlation_outcome q_desc r_desc 1e-3) as Hc.
  destruct (compute_cte_correlation q_desc r_desc 1e-3) as [scores|e1].
  2: { intros [= <-]. destruct Hc as [(_ & _ & Hz)|(-> & _)]; [lia|by left]. }
  destruct Hc as (Hlen & _).
  destruct (best_delta_ok scores Hlen) as (delta & Hd & Hrange). rewrite Hd.
  destruct (getitem_in_range r_map delta ltac:(lia)) as [Hin Hout].
  destruct (decide (delta < Z.of_nat (length r_map))%Z) as [Hlt|Hge].
  - rewrite Hin by done.
    pose proof (true_divide_outcome (nth (Z.to_nat delta) r_map 0%Z) r_fps) as Ht.
    destruct (true_divide _ _) as [t|e1]; [done|]. by destruct Ht as [_ Hz].
  - rewrite Hout by lia. intros [= <-]. by right.
Qed.

Lemma match_query_to_reference_error_loop video_file pca w e w' :
  match_query_to_reference video_file pca 20 180000 w = (Raise e, w') →
  e = IOError
  ∨ ((e = ZeroDivisionError ∨ e = CvError)
     ∧ ∃ path cap frame, video_files w !! path = Some cap
                         ∧ In frame (cap_frames cap)
                         ∧ resize_to 180000 frame = Raise e).
Proof.
  intros [->|[[_ ?]|(cap & frame & Hcap & Hin & Hfail)]]%match_query_to_reference_error;
    [by left|done|].
  right. split; [eapply resize_to_error_budget; [|exact Hfail]; lia|].
  by exists video_file, cap, frame.
Qed.

Lemma process_pair_error idx s e :
  store_ok (world s) → process_pair idx s = Raise e →
  e = IOError ∨ e = ValueError ∨ e = IndexError
  ∨ ((e = ZeroDivisionError ∨ e = CvError)
     ∧ ∃ path cap frame, video_files (world s) !! path = Some cap
                         ∧ In frame (cap_frames cap)
                         ∧ resize_to 180000 frame = Raise e).
Proof.
  intros Hok. unfold process_pair.
  destruct (match_query_to_reference _ (pca_model s) _ _ _) as [q w1] eqn:Hq.
  pose proof (match_query_to_reference_videos _ _ _ _ _ _ _ Hq) as Hvid1.
  destruct q as [[[[[q_folder pca0] q_fps] q_step] q_map]|e1]; simpl.
  2: { intros [= <-].
       apply match_query_to_reference_error_loop in Hq as [->|Hfail]; [by left|].
       by do 3 right. }
  apply match_query_to_reference_ok in Hq as [Hok1 _]; [|done].
  unfold query_descriptors.
  pose proof (load_frame_descriptors_outcome (glob_frames q_folder w1) pca0 64
                (bool_decide (pca0 = None)) 8) as Hqd.
  destruct (load_frame_descriptors _ _ _ _ _) as [[q_desc pca]|e1]; simpl.
  2: { intros [= <-]. right. by left. }
  destruct (match_query_to_reference _ pca _ _ _) as [r w2] eqn:Hr.
  destruct r as [[[[[r_folder pca1] r_fps] r_step] r_map]|e1]; simpl.
  2: { intros [= <-].
       apply match_query_to_reference_error_loop in Hr as [->|Hfail]; [by left|].
       do 3 right. by rewrite <- Hvid1. }
  apply match_query_to_reference_ok in Hr as [Hok2 (_ & Hfps & _)]; [|done].
  unfold reference_descriptors.
  pose proof (load_frame_descriptors_outcome (glob_frames r_folder w2) pca 64 true 8) as Hrd.
  destruct (load_frame_descriptors _ _ _ _ _) as [[r_desc pca2]|e1]; simpl.
  2: { intros [= <-]. right. by left. }
  destruct Hrd as [_ Hrows].
  destruct (align q_desc r_desc r_map r_fps) as [[orig_frame orig_time]|e1] eqn:Halign;
    simpl; [done|].
  intros [= <-].
  destruct (align_error_with_frames _ _ _ _ _ Hrows Hfps Halign) as [-> | ->].
  - right. by left.
  - right. right. by left.
Qed.

(** A turn that returns leaves the videos as they are. *)
Lemma process_pair_videos idx s s' :
  process_pair idx s = Ok s' → video_files (world s') = video_files (world s).
Proof.
  intros Hrun.
  apply process_pair_inv in Hrun
    as (q_folder & q_fps & q_step & q_map & w1 & q_desc & pca & r_folder & r_fps
        & r_step & r_map & r_desc & orig_frame & orig_time
        & Hq & _ & Hr & _ & _ & _ & Hres).
  apply match_query_to_reference_videos in Hq, Hr. by rewrite Hr, Hq.
Qed.

(** A turn that succeeds keeps the stored mappings well formed and adds one
    result: a frame of the reference's mapping, and its time. *)
Lemma process_pair_ok idx s s' :
  store_ok (world s) → process_pair idx s = Ok s' →
  store_ok (world s')
  ∧ ∃ orig_frame orig_time,
      results s' = results s ++ [(idx, orig_frame, orig_time)]
      ∧ (0 ≤ orig_frame)%Z.
Proof.
  intros Hok Hrun.
  apply process_pair_inv in Hrun
    as (q_folder & q_fps & q_step & q_map & w1 & q_desc & pca & r_folder & r_fps
        & r_step & r_map & r_desc & orig_frame & orig_time
        & Hq & _ & Hr & _ & Halign & _ & Hres).
  apply match_query_to_reference_ok in Hq as [Hok1 _]; [|done].
  apply match_query_to_reference_ok in Hr as [Hok2 (Hstep & _ & Hmap)]; [|done].
  split; [done|]. exists orig_frame, orig_time. split; [done|].
  apply align_ok_inv in Halign as (scores & delta & _ & _ & Hdelta & -> & _).
  rewrite Hmap.
  rewrite (nth_map_seq (λ i : nat, (Z.of_nat i * r_step)%Z)) by lia. nia.
Qed.

Lemma main_loop_S (n : nat) (s : MainState) :
  main_loop (S n) s = (s' ← main_loop n s; process_pair (S n) s').
Proof. unfold main_loop. by rewrite seq_S, foldl_snoc. Qed.

Lemma main_loop_outcome_aux (videos_idx_limit : nat) (s : MainState) :
  store_ok (world s) →
  match main_loop videos_idx_limit s with
  | Ok s' =>
      store_ok (world s')
      ∧ video_files (world s') = video_files (world s)
      ∧ ∃ new, results s' = results s ++ new
               ∧ map (λ r, r.1.1) new = seq 1 videos_idx_limit
               ∧ Forall (λ r, (0 ≤ r.1.2)%Z) new
  | Raise e =>
      e = IOError ∨ e = ValueError ∨ e = IndexError
      ∨ ((e = ZeroDivisionError ∨ e = CvError)
         ∧ ∃ path cap frame, video_files (world s) !! path = Some cap
                             ∧ In frame (cap_frames cap)
                             ∧ resize_to 180000 frame = Raise e)
  end.
Proof.
  intros Hok. induction videos_idx_limit as [|n IH].
  - simpl. split; [done|]. split; [done|]. exists []. by rewrite app_nil_r.
  - rewrite main_loop_S.
    destruct (main_loop n s) as [s1|e]; unfold mbind, PyResult_bind, py_bind; [|done].
    destruct IH as (Hok1 & Hvid1 & new & Hres & Hids & Hpos).
    destruct (process_pair (S n) s1) as [s2|e] eqn:Hturn.
    + pose proof (process_pair_videos _ _ _ Hturn) as Hvid2.
      apply process_pair_ok in Hturn as (Hok2 & frame & time & Hres2 & Hframe); [|done].
      split; [done|]. split; [by rewrite Hvid2|].
      exists (new ++ [(S n, frame, time)]). split_and!.
      * by rewrite Hres2, Hres, app_assoc.
      * by rewrite map_app, Hids, seq_S.
      * apply Forall_app. split; [done|]. by constructor.
    + apply process_pair_error in Hturn; [|done].
      destruct Hturn as [-> | [-> | [-> | Hfail]]];
        [by left|by right; left|by do 2 right; left|].
      do 3 right. by rewrite <- Hvid1.
Qed.

(** *** A turn of the loop on fresh folders *)

(** With a model of [pca_dim] axes the descriptor array is built, one row
    of [pca_dim + hof_bins] entries per image. *)
Lemma load_frame_descriptors_with_model (imgs : list Image) pca_model pca_dim fit_pca
    hof_bins (m : PCA) :
  (∀ img des, sift_detectAndCompute img = Some des → des ≠ []) →
  (∀ p g n, length (flow_histogram p g n) = n) →
  length (components_ m) = pca_dim → length (explained_variance_ m) = pca_dim →
  imgs ≠ [] →
  first_pass imgs pca_model pca_dim fit_pca = Ok (Some m) →
  ∃ descs,
    load_frame_descriptors imgs pca_model pca_dim fit_pca hof_bins = Ok (descs, Some m)
    ∧ nrows descs = length imgs
    ∧ ncols descs = pca_dim + hof_bins.
Proof.
  intros Hsift Hflow Ha Hv Hne Hfirst.
  unfold load_frame_descriptors. rewrite Hfirst.
  unfold mbind, PyResult_bind, py_bind.
  assert (∀ prev_gray l,
            Forall (λ row, length row = pca_dim + hof_bins)
              (frame_vectors (Some m) pca_dim hof_bins prev_gray l)) as Hrows.
  { intros prev_gray l. revert prev_gray.
    induction l as [|img l IH]; intros prev_gray; simpl; constructor; [|apply IH].
    rewrite length_normalize. unfold raw_frame_vec.
    rewrite length_app, (length_sift_vec m), length_hof_vec by (done || apply Hsift).
    done. }
  destruct imgs as [|img imgs]; [done|].
  specialize (Hrows None (img :: imgs)).
  unfold vstack_rows.
  destruct (frame_vectors (Some m) pca_dim hof_bins None (img :: imgs))
    as [|v vs] eqn:Hvs; [done|].
  assert (length v = pca_dim + hof_bins) as Hv0
    by (by apply List.Forall_inv in Hrows).
  assert (forallb (λ u, length u =? length v) (v :: vs) = true) as ->.
  { apply forallb_forall. intros u Hu. apply Nat.eqb_eq. rewrite Hv0.
    rewrite List.Forall_forall in Hrows. by apply Hrows. }
  eexists. split; [done|]. split; [|done].
  unfold nrows. cbn [rows]. rewrite <- Hvs. apply length_frame_vectors.
Qed.

(** A first turn on folders that hold nothing yet. *)
Lemma process_pair_fresh (idx : nat) (s : MainState) (q_cap r_cap : Video) (m_q m_r : PCA) :
  (∀ k X, length (svd_solver k X).1 = k ∧ length (svd_solver k X).2 = k) →
  (∀ img des, sift_detectAndCompute img = Some des → des ≠ []) →
  (∀ p g n, length (flow_histogram p g n) = n) →
  pca_model s = None →
  video_files (world s) !! ("train/task1/" +:+ pad2 idx +:+ "_query.mp4") = Some q_cap →
  video_files (world s) !! ("train/task1/" +:+ pad2 idx +:+ "_reference.mp4") = Some r_cap →
  mapping_files (world s) !! ("frames/query/vid_" +:+ pretty idx) = None →
  mapping_files (world s) !! ("frames/reference/vid_" +:+ pretty idx) = None →
  (∀ i, frame_files (world s) !! ("frames/query/vid_" +:+ pretty idx, i) = None) →
  (∀ i, frame_files (world s) !! ("frames/reference/vid_" +:+ pretty idx, i) = None) →
  (∀ frame, In frame (cap_frames q_cap ++ cap_frames r_cap) →
     ∃ img, resize_to 180000 frame = Ok img) →
  ∀ w1 w2,
    w1 = (extract_frames ("train/task1/" +:+ pad2 idx +:+ "_query.mp4")
            ("frames/query/vid_" +:+ pretty idx) 20 180000 (world s)).2 →
    w2 = (extract_frames ("train/task1/" +:+ pad2 idx +:+ "_reference.mp4")
            ("frames/reference/vid_" +:+ pretty idx) 20 180000 w1).2 →
    glob_frames ("frames/query/vid_" +:+ pretty idx) w1 ≠ [] →
    length (glob_frames ("frames/query/vid_" +:+ pretty idx) w1)
    ≤ length (glob_frames ("frames/reference/vid_" +:+ pretty idx) w2) →
    fit_pool 64 (omap sift_detectAndCompute
                   (glob_frames ("frames/query/vid_" +:+ pretty idx) w1)) = Ok m_q →
    fit_pool 64 (omap sift_detectAndCompute
                   (glob_frames ("frames/reference/vid_" +:+ pretty idx) w2)) = Ok m_r →
    ∃ s' (delta : nat) r_fps r_step r_map,
      process_pair idx s = Ok s'
      ∧ world s' = w2
      ∧ pca_model s' = Some m_q
      ∧ mapping_files w2 !! ("frames/reference/vid_" +:+ pretty idx)
        = Some {| orig_fps := r_fps; frame_step := r_step; orig_indices := r_map |}
      ∧ delta < length r_map
      ∧ results s'
        = results s ++ [(idx, (Z.of_nat delta * r_step)%Z,
                         (inject_Z (Z.of_nat delta * r_step) / r_fps)%Q)].
Proof.
  intros Hsvd Hsift Hflow Hmodel Hqv Hrv Hqm Hrm Hqf Hrf Hres w1 w2 Hw1 Hw2 Hqne Hle
    Hfitq Hfitr.
  set (q_file := "train/task1/" +:+ pad2 idx +:+ "_query.mp4") in *.
  set (r_file := "train/task1/" +:+ pad2 idx +:+ "_reference.mp4") in *.
  set (q_folder := "frames/query/vid_" +:+ pretty idx) in *.
  set (r_folder := "frames/reference/vid_" +:+ pretty idx) in *.
  (* the query is sampled *)
  destruct (extract_frames_fresh q_file q_folder 20 180000 (world s) q_cap
              Hqm Hqv ltac:(done) Hqf)
    as (q_fps & q_step & q_map & w1' & Hrun1 & _).
  { intros frame Hin. apply Hres, in_or_app. by left. }
  pose proof (extract_frames_effects q_file q_folder 20 180000 (world s))
    as (Hvid1 & Hmap1 & Hfiles1 & _).
  rewrite Hrun1 in Hw1, Hvid1, Hmap1, Hfiles1. cbn [snd] in Hw1, Hvid1, Hmap1, Hfiles1.
  subst w1'.
  assert (r_folder ≠ q_folder) as Hfolders.
  { intros Heq. by apply (query_folder_not_reference idx idx). }
  (* the reference is sampled *)
  destruct (extract_frames_fresh r_file r_folder 20 180000 w1 r_cap)
    as (r_fps & r_step & r_map & w2' & Hrun2 & Hok2 & _ & _ & _ & Hlen2).
  { by rewrite Hmap1. }
  { by rewrite Hvid1. }
  { done. }
  { intros i. by rewrite Hfiles1. }
  { intros frame Hin. apply Hres, in_or_app. by right. }
  rewrite Hrun2 in Hw2. cbn [snd] in Hw2. subst w2'.
  (* the two descriptor arrays *)
  destruct (fit_pool_axes _ _ _ Hsvd Hfitq) as (_ & Haq & Hvq).
  destruct (fit_pool_axes _ _ _ Hsvd Hfitr) as (_ & Har & Hvr).
  destruct (load_frame_descriptors_with_model (glob_frames q_folder w1) None 64 true 8 m_q)
    as (q_desc & Hqd & Hqrows & Hqcols); [done|done|done|done|done| |].
  { unfold first_pass. by rewrite Hfitq. }
  destruct (load_frame_descriptors_with_model (glob_frames r_folder w2) (Some m_q) 64
              true 8 m_r)
    as (r_desc & Hrd & Hrrows & Hrcols); [done|done|done|done| | |].
  { intros Hnil. rewrite Hnil in Hle. destruct (glob_frames q_folder w1); [done|].
    simpl in Hle. lia. }
  { unfold first_pass. by rewrite Hfitr. }
  (* the alignment *)
  destruct (align_ok q_desc r_desc r_fps r_step r_map Hok2) as (delta & Hdelta & Halign).
  { rewrite Hrrows. destruct (glob_frames q_folder w1); [done|]. simpl in Hle. lia. }
  { by rewrite Hqrows, Hrrows. }
  { by rewrite Hqcols, Hrcols. }
  { by rewrite Hrrows, Hlen2. }
  apply extract_frames_stores in Hrun2 as Hstored.
  destruct Hstored as ([fps' step' map'] & Hstored & Hfps' & Hstep' & Hmap').
  simpl in Hfps', Hstep', Hmap'. subst fps' step' map'.
  eexists _, delta, r_fps, r_step, r_map.
  subst q_file r_file q_folder r_folder.
  unfold process_pair, match_query_to_reference.
  rewrite (get_out_folder_query idx), (get_out_folder_reference idx).
  rewrite Hrun1. cbn [mbind PyResult_bind py_bind mret PyResult_ret].
  unfold query_descriptors. rewrite Hmodel.
  rewrite bool_decide_eq_true_2 by done. rewrite Hqd.
  cbn [mbind PyResult_bind py_bind mret PyResult_ret].
  rewrite Hrun2. cbn [mbind PyResult_bind py_bind mret PyResult_ret].
  unfold reference_descriptors. rewrite Hrd.
  cbn [mbind PyResult_bind py_bind mret PyResult_ret].
  rewrite Halign. cbn [mbind PyResult_bind py_bind mret PyResult_ret].
  split_and!; [reflexivity|done|done|done| |done].
  rewrite Hrrows, Hlen2 in Hdelta. done.
Qed.

(** X16. The first turn of the loop succeeds on fresh folders.  Where the
    externals keep their contracts, no model is fitted yet, both videos of
    the pair open and every frame of theirs can be resized to the budget of
    180000 pixels, their folders hold neither mapping nor frame, the query
    yields a frame and no more frames than the reference, and the two fits
    succeed: the turn returns; the model it leaves is the one fitted on the
    query's frames; and its result is a frame [delta * step] of the
    reference's stored mapping, with its time. *)
Theorem first_turn_succeeds (idx : nat) (s : MainState) (q_cap r_cap : Video)
    (m_q m_r : PCA) :
  (∀ k X, length (svd_solver k X).1 = k ∧ length (svd_solver k X).2 = k) →
  (∀ img des, sift_detectAndCompute img = Some des → des ≠ []) →
  (∀ p g n, length (flow_histogram p g n) = n) →
  pca_model s = None →
  video_files (world s) !! ("train/task1/" +:+ pad2 idx +:+ "_query.mp4") = Some q_cap →
  video_files (world s) !! ("train/task1/" +:+ pad2 idx +:+ "_reference.mp4") = Some r_cap →
  mapping_files (world s) !! ("frames/query/vid_" +:+ pretty idx) = None →
  mapping_files (world s) !! ("frames/reference/vid_" +:+ pretty idx) = None →
  (∀ i, frame_files (world s) !! ("frames/query/vid_" +:+ pretty idx, i) = None) →
  (∀ i, frame_files (world s) !! ("frames/reference/vid_" +:+ pretty idx, i) = None) →
  (∀ frame, In frame (cap_frames q_cap ++ cap_frames r_cap) →
     ∃ img, resize_to 180000 frame = Ok img) →
  ∀ w1 w2,
    w1 = (extract_frames ("train/task1/" +:+ pad2 idx +:+ "_query.mp4")
            ("frames/query/vid_" +:+ pretty idx) 20 180000 (world s)).2 →
    w2 = (extract_frames ("train/task1/" +:+ pad2 idx +:+ "_reference.mp4")
            ("frames/reference/vid_" +:+ pretty idx) 20 180000 w1).2 →
    glob_frames ("frames/query/vid_" +:+ pretty idx) w1 ≠ [] →
    length (glob_frames ("frames/query/vid_" +:+ pretty idx) w1)
    ≤ length (glob_frames ("frames/reference/vid_" +:+ pretty idx) w2) →
    fit_pool 64 (omap sift_detectAndCompute
                   (glob_frames ("frames/query/vid_" +:+ pretty idx) w1)) = Ok m_q →
    fit_pool 64 (omap sift_detectAndCompute
                   (glob_frames ("frames/reference/vid_" +:+ pretty idx) w2)) = Ok m_r →
    ∃ s' (delta : nat) r_fps r_step r_map,
      process_pair idx s = Ok s'
      ∧ world s' = w2
      ∧ pca_model s' = Some m_q
      ∧ mapping_files w2 !! ("frames/reference/vid_" +:+ pretty idx)
        = Some {| orig_fps := r_fps; frame_step := r_step; orig_indices := r_map |}
      ∧ delta < length r_map
      ∧ results s'
        = results s ++ [(idx, (Z.of_nat delta * r_step)%Z,
                         (inject_Z (Z.of_nat delta * r_step) / r_fps)%Q)].
Proof. apply process_pair_fresh. Qed.

(** *** The model of the loop *)

Lemma main_loop_keeps_model (n : nat) (s s' : MainState) (m : PCA) :
  main_loop n s = Ok s' → pca_model s = Some m → pca_model s' = Some m.
Proof.
  revert s'. induction n as [|n IH]; intros s' Hrun Hm.
  - by injection Hrun as <-.
  - rewrite main_loop_S in Hrun.
    destruct (main_loop n s) as [s1|]; [|done].
    eapply process_pair_keeps_model; [exact Hrun|]. by apply IH.
Qed.

Lemma process_pair_first_fit (s s' : MainState) :
  pca_model s = None → process_pair 1 s = Ok s' →
  ∃ m, pca_model s' = Some m
       ∧ fit_pool 64
           (omap sift_detectAndCompute
              (glob_frames "frames/query/vid_1"
                 (extract_frames "train/task1/01_query.mp4" "frames/query/vid_1"
                    20 180000 (world s)).2))
         = Ok m.
Proof.
  intros Hm Hrun.
  apply process_pair_inv in Hrun
    as (q_folder & q_fps & q_step & q_map & w1 & q_desc & pca & r_folder & r_fps
        & r_step & r_map & r_desc & orig_frame & orig_time
        & Hq & Hqd & _ & _ & _ & Hpca & _).
  apply match_query_to_reference_inv in Hq as (fps & step & indices & Hx & Hfolder).
  rewrite (get_out_folder_query 1) in Hx, Hfolder.
  injection Hfolder as -> _ _ _.
  change ("train/task1/" +:+ pad2 1 +:+ "_query.mp4") with "train/task1/01_query.mp4" in Hx.
  change ("frames/query/vid_" +:+ pretty 1) with "frames/query/vid_1" in Hx, Hqd.
  rewrite Hx. cbn [snd].
  rewrite Hm in Hqd. unfold query_descriptors in Hqd.
  apply load_frame_descriptors_rows in Hqd as [Hfirst _].
  unfold first_pass in Hfirst. rewrite bool_decide_eq_true_2 in Hfirst by done.
  destruct (fit_pool _ _) as [m|] eqn:Hfit; [|done].
  injection Hfirst as <-. exists m. by rewrite Hpca.
Qed.

(** X17. The reducer is fitted once.  Over a run of the main loop that
    returns, a model that is there at the start is still there at the end;
    and when there is none at the start and the loop makes a turn, the model
    at the end is the one fitted in the first turn on the frames of the first
    query, [frames/query/vid_1]: no later turn replaces it. *)
Theorem main_loop_fits_once (videos_idx_limit : nat) (s s' : MainState) :
  main_loop videos_idx_limit s = Ok s' →
  (∀ m, pca_model s = Some m → pca_model s' = Some m)
  ∧ (pca_model s = None → 0 < videos_idx_limit →
     ∃ m, pca_model s' = Some m
          ∧ fit_pool 64
              (omap sift_detectAndCompute
                 (glob_frames "frames/query/vid_1"
                    (extract_frames "train/task1/01_query.mp4" "frames/query/vid_1"
                       20 180000 (world s)).2))
            = Ok m).
Proof.
  intros Hrun. split.
  - intros m. by apply (main_loop_keeps_model videos_idx_limit).
  - intros Hm Hpos. destruct videos_idx_limit as [|n]; [lia|]. clear Hpos.
    revert s' Hrun. induction n as [|n IH]; intros s' Hrun.
    + rewrite main_loop_S in Hrun. by apply process_pair_first_fit.
    + rewrite main_loop_S in Hrun.
      destruct (main_loop (S n) s) as [s1|]; [|done].
      destruct (IH s1 eq_refl) as (m & Hm1 & Hfit).
      exists m. split; [|done].
      by eapply process_pair_keeps_model.
Qed.

(** X15. What the main loop can end with.  When the mappings stored at its
    start are well formed it either processes every pair and appends one
    result per [idx] from 1 to [videos_idx_limit], in this order, each with
    a frame index that is not negative, and leaves the stored mappings well
    formed and the videos as they were; or it stops with [IOError] (a video
    that does not open), [ValueError] (no descriptors, a failed fit, or
    widths that differ), [IndexError] (an offset beyond the reference's
    mapping), or with the [ZeroDivisionError] or [cv2.error] of a frame of a
    video of the disk that cannot be resized to 180000 pixels (a frame
    without pixels, or one so thin that a side of the resized frame is 0).
    Past the resizing it never divides by 0 and never takes the logarithm
    of 0. *)
Theorem main_loop_outcome (videos_idx_limit : nat) (s : MainState) :
  store_ok (world s) →
  match main_loop videos_idx_limit s with
  | Ok s' =>
      store_ok (world s')
      ∧ video_files (world s') = video_files (world s)
      ∧ ∃ new, results s' = results s ++ new
               ∧ map (λ r, r.1.1) new = seq 1 videos_idx_limit
               ∧ Forall (λ r, (0 ≤ r.1.2)%Z) new
  | Raise e =>
      e = IOError ∨ e = ValueError ∨ e = IndexError
      ∨ ((e = ZeroDivisionError ∨ e = CvError)
         ∧ ∃ path cap frame, video_files (world s) !! path = Some cap
                             ∧ In frame (cap_frames cap)
                             ∧ resize_to 180000 frame = Raise e)
  end.
Proof. apply main_loop_outcome_aux. Qed.

End MainLoopMoreLemmas.

(** *** The synthetic back end, the clip and the first pair *)

Lemma synthetic_svd_solver k X :
  length (svd_solver (External := Fixture.synthetic) k X).1 = k
  ∧ length (svd_solver (External := Fixture.synthetic) k X).2 = k.
Proof. simpl. by rewrite !length_replicate. Qed.

Lemma synthetic_sift (img : @Image Fixture.synthetic) des :
  sift_detectAndCompute img = Some des → des ≠ [].
Proof. destruct img as [|img]; [done|]. by intros [= <-]. Qed.

Lemma synthetic_flow (p g : @Image Fixture.synthetic) n :
  length (flow_histogram p g n) = n.
Proof. apply length_replicate. Qed.

(** The loop's state before its first turn, on the disk with the first pair. *)
Lemma first_pair_frames :
  glob_frames (E := Fixture.synthetic) "frames/query/vid_1"
    (extract_frames "train/task1/01_query.mp4" "frames/query/vid_1" 20 180000
       Fixture.first_pair).2
  = [1; 2]
  ∧ glob_frames (E := Fixture.synthetic) "frames/reference/vid_1"
      (extract_frames "train/task1/01_reference.mp4" "frames/reference/vid_1" 20 180000
         (extract_frames "train/task1/01_query.mp4" "frames/query/vid_1" 20 180000
            Fixture.first_pair).2).2
    = [3; 1; 2].
Proof. split; vm_compute; reflexivity. Qed.

Lemma synthetic_fit (imgs : list (@Image Fixture.synthetic)) (img : nat) :
  In (S img) imgs →
  ∃ m, fit_pool (E := Fixture.synthetic) 64 (omap sift_detectAndCompute imgs) = Ok m.
Proof.
  intros Hin. unfold fit_pool, vstack.
  destruct (omap sift_detectAndCompute imgs) as [|des pool] eqn:Hpool.
  { assert (replicate 64 (replicate 128 (INR (S img))) ∈ omap sift_detectAndCompute imgs)
      as Hmem.
    { apply list_elem_of_omap. exists (S img). split; [by apply list_elem_of_In|done]. }
    rewrite Hpool in Hmem. by apply not_elem_of_nil in Hmem. }
  assert (des ∈ omap sift_detectAndCompute imgs) as Hdes by (rewrite Hpool; left).
  apply list_elem_of_omap in Hdes as ([|n] & _ & Hn); [done|].
  injection Hn as <-.
  destruct (PCA_fit_ok (E := Fixture.synthetic) 64
              (concat (replicate 64 (replicate 128 (INR (S n))) :: pool)))
    as (m & Hm & _).
  - rewrite concat_cons, length_app, length_replicate. lia.
  - unfold n_features.
    change (hd [] (concat (replicate 64 (replicate 128 (INR (S n))) :: pool)))
      with (replicate 128 (INR (S n))).
    rewrite length_replicate. lia.
  - unfold n_features.
    change (hd [] (concat (replicate 64 (replicate 128 (INR (S n))) :: pool)))
      with (replicate 128 (INR (S n))).
    rewrite concat_cons, length_app, !length_replicate. lia.
  - by exists m.
Qed.

Lemma synthetic_resize (max_pixels : Z) (frame : @Image Fixture.synthetic) :
  (1000 ≤ max_pixels)%Z →
  ∃ img, resize_to (E := Fixture.synthetic) max_pixels frame = Ok img.
Proof.
  intros Hbudget. unfold resize_to. cbn [image_shape float_scaled Fixture.synthetic].
  change (Z.of_nat 640 * Z.of_nat 480)%Z with 307200%Z.
  change (Z.of_nat 640) with 640%Z. change (Z.of_nat 480) with 480%Z.
  change (307200 =? 0)%Z with false. cbv iota.
  destruct (Z.ltb_spec max_pixels 0); [lia|].
  destruct (Z.ltb_spec max_pixels 307200); [|by eexists].
  assert (0 < 640 * max_pixels / 307200)%Z
    by (apply Z.div_str_pos; lia).
  assert (0 < 480 * max_pixels / 307200)%Z
    by (apply Z.div_str_pos; lia).
  destruct (Z.leb_spec (640 * max_pixels / 307200) 0); [lia|].
  destruct (Z.leb_spec (480 * max_pixels / 307200) 0); [lia|].
  by eexists.
Qed.

Lemma synthetic_resize_loop (frame : @Image Fixture.synthetic) :
  ∃ img, resize_to (E := Fixture.synthetic) 180000 frame = Ok img.
Proof. apply synthetic_resize. lia. Qed.

(** The clip sampled at 15 frames per second into a folder of the empty disk. *)
Lemma frames_listed_after_sampling_witness :
  ∃ fps step indices w',
    extract_frames (E := Fixture.synthetic) "clip.mp4" "frames/other/vid_unknown"
      15 120000 Fixture.disk
    = (Ok (fps, step, indices), w')
    ∧ length (glob_frames "frames/other/vid_unknown" w') = length indices
    ∧ ((Z.of_nat (length indices) ≤ 10000)%Z →
       Forall2 (λ img k, ∃ frame resized,
                  cap_frames Fixture.clip !! Z.to_nat k = Some frame
                  ∧ resize_to (E := Fixture.synthetic) 120000 frame = Ok resized
                  ∧ img = imread_grayscale resized)
         (glob_frames "frames/other/vid_unknown" w') indices)
    ∧ ∀ pca_model pca_dim fit_pca hof_bins descs pca_model',
        load_frame_descriptors (glob_frames "frames/other/vid_unknown" w') pca_model
          pca_dim fit_pca hof_bins = Ok (descs, pca_model') →
        nrows descs = length indices.
Proof.
  destruct (frames_listed_after_sampling (E := Fixture.synthetic)
              "clip.mp4" "frames/other/vid_unknown" 15 120000 Fixture.disk Fixture.clip)
    as (fps & step & indices & w' & Hrun & _ & Hlen & Horder & Hrows).
  - reflexivity.
  - reflexivity.
  - lia.
  - intros i. reflexivity.
  - intros frame _. apply synthetic_resize. lia.
  - exists fps, step, indices, w'. split_and!; assumption.
Defined.

(** The loop of one turn on the disk with the first pair. *)
Lemma main_loop_outcome_witness :
  match main_loop (E := Fixture.synthetic) 1
          (@Build_MainState Fixture.synthetic Fixture.first_pair None []) with
  | Ok s' =>
      store_ok (world s')
      ∧ video_files (world s') = video_files Fixture.first_pair
      ∧ ∃ new, results s' = [] ++ new
               ∧ map (λ r, r.1.1) new = seq 1 1
               ∧ Forall (λ r, (0 ≤ r.1.2)%Z) new
  | Raise e =>
      e = IOError ∨ e = ValueError ∨ e = IndexError
      ∨ ((e = ZeroDivisionError ∨ e = CvError)
         ∧ ∃ path cap frame, video_files Fixture.first_pair !! path = Some cap
                             ∧ In frame (cap_frames cap)
                             ∧ resize_to (E := Fixture.synthetic) 180000 frame = Raise e)
  end.
Proof.
  apply (main_loop_outcome (E := Fixture.synthetic) 1
           (@Build_MainState Fixture.synthetic Fixture.first_pair None [])).
  intros folder data Hlook. simpl in Hlook. by rewrite lookup_empty in Hlook.
Defined.

(** The first turn on the disk with the first pair. *)
Lemma first_turn_succeeds_witness :
  ∃ s' (delta : nat) (r_fps : Q) (r_step : Z) (r_map : list Z),
    process_pair (E := Fixture.synthetic) 1
      (@Build_MainState Fixture.synthetic Fixture.first_pair None [])
    = Ok s'
    ∧ is_Some (pca_model s')
    ∧ delta < length r_map
    ∧ results s'
      = [(1, (Z.of_nat delta * r_step)%Z, (inject_Z (Z.of_nat delta * r_step) / r_fps)%Q)].
Proof.
  destruct first_pair_frames as [Hq Hr].
  destruct (synthetic_fit [1; 2] 0) as [m_q Hfitq]; [by left|].
  destruct (synthetic_fit [3; 1; 2] 2) as [m_r Hfitr]; [by left|].
  destruct (first_turn_succeeds (E := Fixture.synthetic) 1
              (@Build_MainState Fixture.synthetic Fixture.first_pair None [])
              (@Build_Video Fixture.synthetic 20 [1; 2])
              (@Build_Video Fixture.synthetic 20 [3; 1; 2]) m_q m_r
              synthetic_svd_solver synthetic_sift synthetic_flow
              eq_refl eq_refl eq_refl eq_refl eq_refl
              (λ _, eq_refl) (λ _, eq_refl)
              (λ frame _, synthetic_resize_loop frame)
              _ _ eq_refl eq_refl)
    as (s' & delta & r_fps & r_step & r_map & Hrun & _ & Hm & _ & Hdelta & Hres).
  - change (glob_frames (E := Fixture.synthetic) "frames/query/vid_1"
              (extract_frames "train/task1/01_query.mp4" "frames/query/vid_1" 20 180000
                 Fixture.first_pair).2 ≠ []).
    by rewrite Hq.
  - change (length (glob_frames (E := Fixture.synthetic) "frames/query/vid_1"
              (extract_frames "train/task1/01_query.mp4" "frames/query/vid_1" 20 180000
                 Fixture.first_pair).2)
            ≤ length (glob_frames (E := Fixture.synthetic) "frames/reference/vid_1"
                (extract_frames "train/task1/01_reference.mp4" "frames/reference/vid_1"
                   20 180000
                   (extract_frames "train/task1/01_query.mp4" "frames/query/vid_1"
                      20 180000 Fixture.first_pair).2).2)).
    rewrite Hq, Hr. simpl. lia.
  - change (fit_pool (E := Fixture.synthetic) 64
              (omap sift_detectAndCompute
                 (glob_frames (E := Fixture.synthetic) "frames/query/vid_1"
                    (extract_frames "train/task1/01_query.mp4" "frames/query/vid_1"
                       20 180000 Fixture.first_pair).2))
            = Ok m_q).
    by rewrite Hq.
  - change (fit_pool (E := Fixture.synthetic) 64
              (omap sift_detectAndCompute
                 (glob_frames (E := Fixture.synthetic) "frames/reference/vid_1"
                    (extract_frames "train/task1/01_reference.mp4"
                       "frames/reference/vid_1" 20 180000
                       (extract_frames "train/task1/01_query.mp4" "frames/query/vid_1"
                          20 180000 Fixture.first_pair).2).2))
            = Ok m_r).
    by rewrite Hr.
  - exists s', delta, r_fps, r_step, r_map. split_and!; [done|by rewrite Hm|done|done].
Defined.

(** The loop of one turn on the disk with the first pair returns, with a model. *)
Lemma main_loop_fits_once_witness :
  ∃ s' m,
    main_loop (E := Fixture.synthetic) 1
      (@Build_MainState Fixture.synthetic Fixture.first_pair None [])
    = Ok s'
    ∧ pca_model s' = Some m
    ∧ fit_pool (E := Fixture.synthetic) 64
        (omap (sift_detectAndCompute (External := Fixture.synthetic)) [1; 2]) = Ok m.
Proof.
  destruct first_pair_frames as [Hq Hr].
  destruct (synthetic_fit [1; 2] 0) as [m_q Hfitq]; [by left|].
  destruct (synthetic_fit [3; 1; 2] 2) as [m_r Hfitr]; [by left|].
  destruct (process_pair_fresh (E := Fixture.synthetic) 1
              (@Build_MainState Fixture.synthetic Fixture.first_pair None [])
              (@Build_Video Fixture.synthetic 20 [1; 2])
              (@Build_Video Fixture.synthetic 20 [3; 1; 2]) m_q m_r
              synthetic_svd_solver synthetic_sift synthetic_flow
              eq_refl eq_refl eq_refl eq_refl eq_refl
              (λ _, eq_refl) (λ _, eq_refl)
              (λ frame _, synthetic_resize_loop frame)
              _ _ eq_refl eq_refl)
    as (s' & _ & _ & _ & _ & Hrun & _).
  - change (glob_frames (E := Fixture.synthetic) "frames/query/vid_1"
              (extract_frames "train/task1/01_query.mp4" "frames/query/vid_1" 20 180000
                 Fixture.first_pair).2 ≠ []).
    by rewrite Hq.
  - change (length (glob_frames (E := Fixture.synthetic) "frames/query/vid_1"
              (extract_frames "train/task1/01_query.mp4" "frames/query/vid_1" 20 180000
                 Fixture.first_pair).2)
            ≤ length (glob_frames (E := Fixture.synthetic) "frames/reference/vid_1"
                (extract_frames "train/task1/01_reference.mp4" "frames/reference/vid_1"
                   20 180000
                   (extract_frames "train/task1/01_query.mp4" "frames/query/vid_1"
                      20 180000 Fixture.first_pair).2).2)).
    rewrite Hq, Hr. simpl. lia.
  - change (fit_pool (E := Fixture.synthetic) 64
              (omap sift_detectAndCompute
                 (glob_frames (E := Fixture.synthetic) "frames/query/vid_1"
                    (extract_frames "train/task1/01_query.mp4" "frames/query/vid_1"
                       20 180000 Fixture.first_pair).2))
            = Ok m_q).
    by rewrite Hq.
  - change (fit_pool (E := Fixture.synthetic) 64
              (omap sift_detectAndCompute
                 (glob_frames (E := Fixture.synthetic) "frames/reference/vid_1"
                    (extract_frames "train/task1/01_reference.mp4"
                       "frames/reference/vid_1" 20 180000
                       (extract_frames "train/task1/01_query.mp4" "frames/query/vid_1"
                          20 180000 Fixture.first_pair).2).2))
            = Ok m_r).
    by rewrite Hr.
  - assert (main_loop (E := Fixture.synthetic) 1
              (@Build_MainState Fixture.synthetic Fixture.first_pair None [])
            = Ok s') as Hloop by (by rewrite main_loop_S).
    destruct (main_loop_fits_once (E := Fixture.synthetic) 1 _ s' Hloop) as [_ Hfit].
    destruct Hfit as (m & Hm & Hfit); [done|lia|].
    cbn [world] in Hfit. rewrite Hq in Hfit.
    exists s', m. split; [exact Hloop|]. split; [exact Hm|exact Hfit].
Defined.

End MainLoopMore.

(** ** The evaluation cell *)

Module EvaluationFacts.
Import Evaluation.

Lemma hits_of_difference (ground_truth : list Z) (results : list (nat * Z * Q)) :
  zip_with (λ gt r, bool_decide (Z.abs (gt - r.1.2) ≤ 60)%Z) ground_truth results
  = map (λ d, bool_decide (d ≤ 60)%Z) (difference ground_truth results).
Proof.
  unfold difference. revert results.
  induction ground_truth as [|gt gts IH]; intros [|r rs]; simpl; [done..|].
  by rewrite IH.
Qed.

Lemma length_difference (ground_truth : list Z) (results : list (nat * Z * Q)) :
  length (difference ground_truth results)
  = Nat.min (length ground_truth) (length results).
Proof.
  unfold difference. revert results.
  induction ground_truth as [|gt gts IH]; intros [|r rs]; simpl; [done..|].
  by rewrite IH.
Qed.

(** The hits among the differences. *)
Lemma filter_hits (ds : list Z) :
  length (filter (λ b, b = true) (map (λ d, bool_decide (d ≤ 60)%Z) ds))
  = length (filter (λ d, (d ≤ 60)%Z) ds).
Proof.
  induction ds as [|d ds IH]; [done|]. simpl.
  rewrite !filter_cons. destruct (decide (d ≤ 60)%Z) as [Hd|Hd].
  - rewrite bool_decide_eq_true_2 by done. rewrite decide_True by done.
    simpl. by rewrite IH.
  - rewrite bool_decide_eq_false_2 by done. rewrite decide_False by done. done.
Qed.

Lemma filter_all {A} (P : A → Prop) `{∀ x, Decision (P x)} (l : list A) :
  length (filter P l) = length l ↔ Forall P l.
Proof.
  induction l as [|x l IH]; [by split|].
  rewrite filter_cons. destruct (decide (P x)) as [Hx|Hx]; simpl.
  - rewrite Forall_cons. split.
    + intros [= Hlen]. split; [done|]. by apply IH.
    + intros [_ Hl]. f_equal. by apply IH.
  - split.
    + intros Hlen. pose proof (length_filter P l). lia.
    + intros [? _]%Forall_cons. done.
Qed.

Lemma filter_none {A} (P : A → Prop) `{∀ x, Decision (P x)} (l : list A) :
  length (filter P l) = 0 ↔ Forall (λ x, ¬ P x) l.
Proof.
  induction l as [|x l IH]; [by split|].
  rewrite filter_cons. destruct (decide (P x)) as [Hx|Hx]; simpl.
  - split; [done|]. by intros [? _]%Forall_cons.
  - rewrite Forall_cons, IH. split; [done|]. by intros [_ ?].
Qed.

(** A ratio of a count to a positive total. *)
Lemma ratio_spec (c n : nat) :
  0 < n → c ≤ n →
  (0 <= inject_Z (Z.of_nat c) / inject_Z (Z.of_nat n)
   ∧ inject_Z (Z.of_nat c) / inject_Z (Z.of_nat n) <= 1)%Q
  ∧ ((inject_Z (Z.of_nat c) / inject_Z (Z.of_nat n) == 1)%Q ↔ c = n)
  ∧ ((inject_Z (Z.of_nat c) / inject_Z (Z.of_nat n) == 0)%Q ↔ c = 0).
Proof.
  intros Hn Hc.
  destruct (Z.of_nat n) as [|p|p] eqn:Hp; [lia| |lia].
  assert (Z.of_nat c ≤ Z.pos p)%Z as Hcp by lia.
  assert (n = c ↔ Z.pos p = Z.of_nat c) as Heq by lia.
  unfold Qdiv, Qinv, Qmult, Qle, Qeq, inject_Z. simpl.
  rewrite !Z.mul_1_r. rewrite ?Pos.mul_1_l.
  split_and!; [lia|lia| |]; split; lia.
Qed.

(** X18. The accuracy figure.  Ground truths and results are paired in
    order, up to the shorter of the two lists.  With no pair the mean is
    [nan]; otherwise the accuracy is the share of pairs whose frame differs
    from the ground truth by at most 60, a number between 0 and 1 that is 1
    exactly when every listed difference is at most 60 and 0 exactly when
    none is. *)
Theorem accuracy_is_share_of_hits (ground_truth : list Z) (results : list (nat * Z * Q)) :
  length (difference ground_truth results)
  = Nat.min (length ground_truth) (length results)
  ∧ match accuracy ground_truth results with
    | None => ground_truth = [] ∨ results = []
    | Some a =>
        ground_truth ≠ [] ∧ results ≠ []
        ∧ a = (inject_Z (Z.of_nat (length (filter (λ d, (d ≤ 60)%Z)
                                             (difference ground_truth results))))
               / inject_Z (Z.of_nat (length (difference ground_truth results))))%Q
        ∧ (0 <= a ∧ a <= 1)%Q
        ∧ ((a == 1)%Q ↔ Forall (λ d, (d ≤ 60)%Z) (difference ground_truth results))
        ∧ ((a == 0)%Q ↔ Forall (λ d, (60 < d)%Z) (difference ground_truth results))
    end.
Proof.
  split; [apply length_difference|].
  unfold accuracy. rewrite hits_of_difference.
  pose proof (length_difference ground_truth results) as Hlen.
  destruct (difference ground_truth results) as [|d ds] eqn:Hds.
  { simpl. destruct ground_truth; [by left|]. destruct results; [by right|done]. }
  rewrite <- Hds in *.
  assert (0 < length (difference ground_truth results)) as Hpos
    by (rewrite Hds; simpl; lia).
  assert (map (λ d, bool_decide (d ≤ 60)%Z) (difference ground_truth results) ≠ []) as Hne.
  { rewrite Hds. done. }
  destruct (map _ (difference ground_truth results)) as [|b bs] eqn:Hmap; [done|].
  rewrite <- Hmap, filter_hits, length_map.
  pose proof (length_filter (λ d, (d ≤ 60)%Z) (difference ground_truth results)) as Hle.
  destruct (ratio_spec _ _ Hpos Hle) as (Hrange & Hone & Hzero).
  split_and!.
  - intros ->. rewrite Hlen in Hpos. simpl in Hpos. lia.
  - intros ->. rewrite Hlen, Nat.min_0_r in Hpos. lia.
  - done.
  - apply Hrange.
  - apply Hrange.
  - rewrite Hone. apply filter_all.
  - rewrite Hzero, filter_none. apply Forall_iff. intros x. lia.
Qed.

End EvaluationFacts.

(** ** Running the loop again *)

Module RerunFacts.
Import Sampler Extractor Correlation Orchestrator Invariants.
Import SamplerFacts OrchestratorFacts ExtractorFacts MainLoopFacts.
Import SamplerMore OrchestratorMore FileNames MainLoopMore.

Lemma query_folder_inj (i j : nat) :
  "frames/query/vid_" +:+ pretty i = "frames/query/vid_" +:+ pretty j → i = j.
Proof. intros Heq%(inj (String.append _)). by apply (inj pretty) in Heq. Qed.

Lemma reference_folder_inj (i j : nat) :
  "frames/reference/vid_" +:+ pretty i = "frames/reference/vid_" +:+ pretty j → i = j.
Proof. intros Heq%(inj (String.append _)). by apply (inj pretty) in Heq. Qed.

Section RerunLemmas.
Context {E : External}.

(** *** A turn on folders that hold their mappings *)

Lemma process_pair_cached (idx : nat) (w : World) pca rs (mq mr : FrameMapping) :
  mapping_files w !! ("frames/query/vid_" +:+ pretty idx) = Some mq →
  mapping_files w !! ("frames/reference/vid_" +:+ pretty idx) = Some mr →
  process_pair idx {| world := w; pca_model := pca; results := rs |}
  = ('(q_desc, pca') ← query_descriptors
                         (glob_frames ("frames/query/vid_" +:+ pretty idx) w) pca;
     r_desc ← reference_descriptors
                (glob_frames ("frames/reference/vid_" +:+ pretty idx) w) pca';
     '(orig_frame, orig_time) ← align q_desc r_desc (orig_indices mr) (orig_fps mr);
     mret {| world := w; pca_model := pca';
             results := rs ++ [(idx, orig_frame, orig_time)] |}).
Proof.
  intros Hq Hr. unfold process_pair, match_query_to_reference. cbn [world pca_model results].
  rewrite (get_out_folder_query idx), (get_out_folder_reference idx).
  rewrite (extract_frames_cached _ _ _ _ _ _ Hq).
  cbn [mbind PyResult_bind py_bind mret PyResult_ret].
  destruct (query_descriptors _ _) as [[q_desc pca']|]; [|done].
  cbn [mbind PyResult_bind py_bind mret PyResult_ret].
  rewrite (extract_frames_cached _ _ _ _ _ _ Hr).
  reflexivity.
Qed.

(** A turn on a disk that holds both mappings of the pair opens no video
    and changes no file. *)
Lemma process_pair_on_cached (idx : nat) (w : World) pca rs (mq mr : FrameMapping) :
  mapping_files w !! ("frames/query/vid_" +:+ pretty idx) = Some mq →
  mapping_files w !! ("frames/reference/vid_" +:+ pretty idx) = Some mr →
  ¬ (orig_fps mr == 0)%Q →
  match process_pair idx {| world := w; pca_model := pca; results := rs |} with
  | Ok s' => world s' = w
             ∧ ∃ orig_frame orig_time, results s' = rs ++ [(idx, orig_frame, orig_time)]
  | Raise e => e = ValueError ∨ e = IndexError
  end.
Proof.
  intros Hq Hr Hfps. rewrite (process_pair_cached idx w pca rs mq mr Hq Hr).
  unfold query_descriptors.
  pose proof (load_frame_descriptors_outcome
                (glob_frames ("frames/query/vid_" +:+ pretty idx) w) pca 64
                (bool_decide (pca = None)) 8) as Hqd.
  destruct (load_frame_descriptors _ _ _ _ _) as [[q_desc pca']|e1];
    cbn [mbind PyResult_bind py_bind mret PyResult_ret]; [|by left].
  unfold reference_descriptors.
  pose proof (load_frame_descriptors_outcome
                (glob_frames ("frames/reference/vid_" +:+ pretty idx) w) pca' 64 true 8)
    as Hrd.
  destruct (load_frame_descriptors _ _ _ _ _) as [[r_desc pca2]|e1];
    cbn [mbind PyResult_bind py_bind mret PyResult_ret]; [|by left].
  destruct Hrd as [_ Hrows].
  destruct (align q_desc r_desc (orig_indices mr) (orig_fps mr))
    as [[orig_frame orig_time]|e1] eqn:Halign;
    cbn [mbind PyResult_bind py_bind mret PyResult_ret].
  - split; [done|]. by exists orig_frame, orig_time.
  - by eapply align_error_with_frames.
Qed.

(** What a turn that succeeds leaves on the disk, and what it leaves alone. *)
Lemma process_pair_leaves (idx : nat) (s s' : MainState) :
  process_pair idx s = Ok s' →
  (∃ (mq mr : FrameMapping),
     mapping_files (world s') !! ("frames/query/vid_" +:+ pretty idx) = Some mq
     ∧ mapping_files (world s') !! ("frames/reference/vid_" +:+ pretty idx) = Some mr
     ∧ ¬ (orig_fps mr == 0)%Q)
  ∧ ∀ folder, folder ≠ "frames/query/vid_" +:+ pretty idx →
              folder ≠ "frames/reference/vid_" +:+ pretty idx →
              folder_agrees (world s') (world s) folder.
Proof.
  intros Hrun.
  apply process_pair_inv in Hrun
    as (q_folder & q_fps & q_step & q_map & w1 & q_desc & pca & r_folder & r_fps
        & r_step & r_map & r_desc & orig_frame & orig_time
        & Hq & Hqd & Hr & Hrd & Halign & Hpca & Hres).
  apply match_query_to_reference_inv in Hq as (? & ? & ? & Hx1 & Heq1).
  apply match_query_to_reference_inv in Hr as (? & ? & ? & Hx2 & Heq2).
  rewrite (get_out_folder_query idx) in Hx1, Heq1.
  rewrite (get_out_folder_reference idx) in Hx2, Heq2.
  injection Heq1 as -> <- <- <-. injection Heq2 as -> <- <- <-.
  set (q_folder := "frames/query/vid_" +:+ pretty idx) in *.
  set (r_folder := "frames/reference/vid_" +:+ pretty idx) in *.
  assert (q_folder ≠ r_folder) as Hfolders by apply query_folder_not_reference.
  pose proof (extract_frames_effects
                ("train/task1/" +:+ pad2 idx +:+ "_query.mp4") q_folder 20 180000 (world s))
    as (_ & Hmap1 & Hfiles1 & _).
  pose proof (extract_frames_effects
                ("train/task1/" +:+ pad2 idx +:+ "_reference.mp4") r_folder 20 180000 w1)
    as (_ & Hmap2 & Hfiles2 & _).
  rewrite Hx1 in Hmap1, Hfiles1. rewrite Hx2 in Hmap2, Hfiles2.
  cbn [snd] in Hmap1, Hfiles1, Hmap2, Hfiles2.
  apply extract_frames_stores in Hx1 as (mq & Hmq & _).
  apply extract_frames_stores in Hx2 as (mr & Hmr & <- & _ & <-).
  apply align_ok_inv in Halign as (_ & _ & _ & _ & _ & _ & Hfps & _).
  split.
  - exists mq, mr. split; [by rewrite Hmap2|]. by split.
  - intros folder Hnq Hnr. split.
    + by rewrite Hmap2, Hmap1.
    + intros i. by rewrite Hfiles2, Hfiles1.
Qed.

(** *** The loop on the disk that a run has left *)

(** A run that returns leaves both mappings of every pair stored, the
    reference's with a frame rate other than 0. *)
Lemma main_loop_leaves_cached (n : nat) (s s' : MainState) :
  main_loop n s = Ok s' →
  ∀ k, 1 ≤ k ≤ n →
    ∃ mq mr : FrameMapping,
      mapping_files (world s') !! ("frames/query/vid_" +:+ pretty k) = Some mq
      ∧ mapping_files (world s') !! ("frames/reference/vid_" +:+ pretty k) = Some mr
      ∧ ¬ (orig_fps mr == 0)%Q.
Proof.
  revert s'. induction n as [|n IH]; intros s' Hrun k Hk; [lia|].
  rewrite main_loop_S in Hrun.
  destruct (main_loop n s) as [s1|] eqn:Hloop; [|done].
  cbn [mbind PyResult_bind py_bind] in Hrun.
  apply process_pair_leaves in Hrun as [Hlast Hother].
  destruct (decide (k = S n)) as [->|Hne]; [exact Hlast|].
  destruct (IH s1 eq_refl k ltac:(lia)) as (mq & mr & Hmq & Hmr & Hfps).
  destruct (Hother ("frames/query/vid_" +:+ pretty k)) as [Hqm _].
  { intros Heq. apply query_folder_inj in Heq. lia. }
  { apply query_folder_not_reference. }
  destruct (Hother ("frames/reference/vid_" +:+ pretty k)) as [Hrm _].
  { intros Heq. symmetry in Heq. by apply query_folder_not_reference in Heq. }
  { intros Heq. apply reference_folder_inj in Heq. lia. }
  exists mq, mr. split; [by rewrite Hqm|]. split; [by rewrite Hrm|done].
Qed.

(** The loop on a disk that holds the mappings of all its pairs. *)
Lemma main_loop_on_cached (n : nat) (w : World) :
  (∀ k, 1 ≤ k ≤ n →
     ∃ mq mr : FrameMapping,
       mapping_files w !! ("frames/query/vid_" +:+ pretty k) = Some mq
       ∧ mapping_files w !! ("frames/reference/vid_" +:+ pretty k) = Some mr
       ∧ ¬ (orig_fps mr == 0)%Q) →
  ∀ pca rs,
    match main_loop n {| world := w; pca_model := pca; results := rs |} with
    | Ok s' => world s' = w
               ∧ ∃ new, results s' = rs ++ new ∧ map (λ r, r.1.1) new = seq 1 n
    | Raise e => e = ValueError ∨ e = IndexError
    end.
Proof.
  intros Hcached pca rs. induction n as [|n IH].
  - simpl. split; [done|]. exists []. by rewrite app_nil_r.
  - rewrite main_loop_S.
    specialize (IH ltac:(intros k Hk; apply Hcached; lia)).
    destruct (main_loop n _) as [[w1 pca1 rs1]|e];
      unfold mbind, PyResult_bind, py_bind; [|done].
    cbn [world results] in IH. destruct IH as (-> & new & -> & Hids).
    destruct (Hcached (S n) ltac:(lia)) as (mq & mr & Hmq & Hmr & Hfps).
    pose proof (process_pair_on_cached (S n) w pca1 (rs ++ new) mq mr Hmq Hmr Hfps)
      as Hturn.
    destruct (process_pair (S n) _) as [s2|e]; [|done].
    destruct Hturn as (Hw & frame & time & Hres).
    split; [done|]. exists (new ++ [(S n, frame, time)]). split.
    + by rewrite Hres, app_assoc.
    + by rewrite map_app, Hids, seq_S.
Qed.

Lemma main_loop_rerun_aux (videos_idx_limit : nat) (s s' : MainState) :
  main_loop videos_idx_limit s = Ok s' →
  (∀ k, 1 ≤ k ≤ videos_idx_limit →
     ∃ mq mr : FrameMapping,
       extract_frames ("train/task1/" +:+ pad2 k +:+ "_query.mp4")
         ("frames/query/vid_" +:+ pretty k) 20 180000 (world s')
       = (Ok (orig_fps mq, frame_step mq, orig_indices mq), world s')
       ∧ extract_frames ("train/task1/" +:+ pad2 k +:+ "_reference.mp4")
           ("frames/reference/vid_" +:+ pretty k) 20 180000 (world s')
         = (Ok (orig_fps mr, frame_step mr, orig_indices mr), world s'))
  ∧ ∀ pca rs,
      match main_loop videos_idx_limit
              {| world := world s'; pca_model := pca; results := rs |} with
      | Ok s'' =>
          world s'' = world s'
          ∧ ∃ new, results s'' = rs ++ new
                   ∧ map (λ r, r.1.1) new = seq 1 videos_idx_limit
      | Raise e => e = ValueError ∨ e = IndexError
      end.
Proof.
  intros Hrun.
  pose proof (main_loop_leaves_cached _ _ _ Hrun) as Hcached. split.
  - intros k Hk. destruct (Hcached k Hk) as (mq & mr & Hmq & Hmr & _).
    exists mq, mr. split; by apply extract_frames_cached.
  - by apply main_loop_on_cached.
Qed.

(** X19. Running the loop again.  When the main loop returns, the disk it
    leaves holds the mapping of every folder it has used: on this disk each
    of its calls of the sampler returns the stored mapping and leaves the
    disk as it is, no video opened and no frame read.  So a further run of
    the loop on this disk, from whatever model and results, changes no
    file; when it returns it has appended one result per [idx] from 1 to
    [videos_idx_limit], and otherwise it stops with [ValueError] or
    [IndexError], never on a video.  (Whether the further run computes the
    results of the first one is not stated: that depends on its fit.) *)
Theorem main_loop_rerun (videos_idx_limit : nat) (s s' : MainState) :
  main_loop videos_idx_limit s = Ok s' →
  (∀ k, 1 ≤ k ≤ videos_idx_limit →
     ∃ mq mr : FrameMapping,
       extract_frames ("train/task1/" +:+ pad2 k +:+ "_query.mp4")
         ("frames/query/vid_" +:+ pretty k) 20 180000 (world s')
       = (Ok (orig_fps mq, frame_step mq, orig_indices mq), world s')
       ∧ extract_frames ("train/task1/" +:+ pad2 k +:+ "_reference.mp4")
           ("frames/reference/vid_" +:+ pretty k) 20 180000 (world s')
         = (Ok (orig_fps mr, frame_step mr, orig_indices mr), world s'))
  ∧ ∀ pca rs,
      match main_loop videos_idx_limit
              {| world := world s'; pca_model := pca; results := rs |} with
      | Ok s'' =>
          world s'' = world s'
          ∧ ∃ new, results s'' = rs ++ new
                   ∧ map (λ r, r.1.1) new = seq 1 videos_idx_limit
      | Raise e => e = ValueError ∨ e = IndexError
      end.
Proof. apply main_loop_rerun_aux. Qed.

End RerunLemmas.

(** The loop of one turn on the disk with the first pair, and a further run
    on the disk it leaves. *)
Lemma main_loop_rerun_witness :
  ∃ s',
    main_loop (E := Fixture.synthetic) 1
      (@Build_MainState Fixture.synthetic Fixture.first_pair None [])
    = Ok s'
    ∧ ∀ pca rs,
        match main_loop (E := Fixture.synthetic) 1
                (@Build_MainState Fixture.synthetic (world s') pca rs) with
        | Ok s'' =>
            world s'' = world s'
            ∧ ∃ new, results s'' = rs ++ new ∧ map (λ r, r.1.1) new = seq 1 1
        | Raise e => e = ValueError ∨ e = IndexError
        end.
Proof.
  destruct first_pair_frames as [Hq Hr].
  destruct (synthetic_fit [1; 2] 0) as [m_q Hfitq]; [by left|].
  destruct (synthetic_fit [3; 1; 2] 2) as [m_r Hfitr]; [by left|].
  destruct (process_pair_fresh (E := Fixture.synthetic) 1
              (@Build_MainState Fixture.synthetic Fixture.first_pair None [])
              (@Build_Video Fixture.synthetic 20 [1; 2])
              (@Build_Video Fixture.synthetic 20 [3; 1; 2]) m_q m_r
              synthetic_svd_solver synthetic_sift synthetic_flow
              eq_refl eq_refl eq_refl eq_refl eq_refl
              (λ _, eq_refl) (λ _, eq_refl)
              (λ frame _, synthetic_resize_loop frame)
              _ _ eq_refl eq_refl)
    as (s' & _ & _ & _ & _ & Hrun & _).
  - change (glob_frames (E := Fixture.synthetic) "frames/query/vid_1"
              (extract_frames "train/task1/01_query.mp4" "frames/query/vid_1" 20 180000
                 Fixture.first_pair).2 ≠ []).
    by rewrite Hq.
  - change (length (glob_frames (E := Fixture.synthetic) "frames/query/vid_1"
              (extract_frames "train/task1/01_query.mp4" "frames/query/vid_1" 20 180000
                 Fixture.first_pair).2)
            ≤ length (glob_frames (E := Fixture.synthetic) "frames/reference/vid_1"
                (extract_frames "train/task1/01_reference.mp4" "frames/reference/vid_1"
                   20 180000
                   (extract_frames "train/task1/01_query.mp4" "frames/query/vid_1"
                      20 180000 Fixture.first_pair).2).2)).
    rewrite Hq, Hr. simpl. lia.
  - change (fit_pool (E := Fixture.synthetic) 64
              (omap sift_detectAndCompute
                 (glob_frames (E := Fixture.synthetic) "frames/query/vid_1"
                    (extract_frames "train/task1/01_query.mp4" "frames/query/vid_1"
                       20 180000 Fixture.first_pair).2))
            = Ok m_q).
    by rewrite Hq.
  - change (fit_pool (E := Fixture.synthetic) 64
              (omap sift_detectAndCompute
                 (glob_frames (E := Fixture.synthetic) "frames/reference/vid_1"
                    (extract_frames "train/task1/01_reference.mp4"
                       "frames/reference/vid_1" 20 180000
                       (extract_frames "train/task1/01_query.mp4" "frames/query/vid_1"
                          20 180000 Fixture.first_pair).2).2))
            = Ok m_r).
    by rewrite Hr.
  - assert (main_loop (E := Fixture.synthetic) 1
              (@Build_MainState Fixture.synthetic Fixture.first_pair None [])
            = Ok s') as Hloop by (by rewrite main_loop_S).
    exists s'. split; [exact Hloop|].
    exact (proj2 (main_loop_rerun (E := Fixture.synthetic) 1 _ s' Hloop)).
Defined.

End RerunFacts.
